(** * Adaptive SIR on a co-evolving network: a shallow embedding of
      [src/asir_core.py] ([AdaptiveSIRSimulation]) and its checked properties.

    The Python class keeps a networkx graph, a dictionary of per-node
    states and two dictionaries of recorded lists; all randomness comes from
    the process-wide generator of the [random] module.  Here the graph is the
    adjacency structure networkx keeps (insertion ordered), the generator is
    threaded explicitly, and the loops of the source are structural
    recursions over the lists they iterate. *)

From Stdlib Require Import List Arith Bool Lia ZArith QArith Permutation.
From Stdlib Require Import Qpower FunctionalExtensionality.
Import ListNotations.

Close Scope Q_scope.
Open Scope nat_scope.

(** ** Nodes, states, exceptions *)

Definition node := nat.
Definition edge := (node * node)%type.

(** The three state constants of the class ([SUSCEPTIBLE = 0],
    [INFECTED = 1], [RECOVERED = 2]). *)
Inductive State : Type := SUSCEPTIBLE | INFECTED | RECOVERED.

Definition is_S (s : State) : bool :=
  match s with SUSCEPTIBLE => true | _ => false end.
Definition is_I (s : State) : bool :=
  match s with INFECTED => true | _ => false end.
Definition is_R (s : State) : bool :=
  match s with RECOVERED => true | _ => false end.

(** The integer value of a state constant. *)
Definition code (s : State) : nat :=
  match s with SUSCEPTIBLE => 0 | INFECTED => 1 | RECOVERED => 2 end.

(** Python exceptions that the modelled code can meet. *)
Inductive exn : Type := ValueError | ZeroDivisionError | IndexError.

Inductive result (A : Type) : Type :=
| Ok (a : A)
| Raise (e : exn).
Arguments Ok {A} a.
Arguments Raise {A} e.

(** [self.state]: a dictionary whose keys are the nodes of the graph from
    construction on (no key is added or deleted afterwards); every lookup of
    the source is at a node of the graph or at a neighbour of one.  It is
    read as a total function. *)
Definition StateMap := node -> State.

Definition set_state (st : StateMap) (n : node) (s : State) : StateMap :=
  fun m => if m =? n then s else st m.

(** [for node in l: self.state[node] = s] *)
Definition set_all (st : StateMap) (l : list node) (s : State) : StateMap :=
  fold_left (fun st' n => set_state st' n s) l st.

(** Python numbers are read as rationals and arithmetic on them is exact;
    [Qltb a b] is [a < b]. *)
Definition Qltb (a b : Q) : bool := negb (Qle_bool b a).

Definition edge_eq_dec : forall e1 e2 : edge, {e1 = e2} + {e1 <> e2}.
Proof. decide equality; apply Nat.eq_dec. Defined.

(** ** The networkx graph *)

Module Nx.

(** [Graph._adj]: for every node, in insertion order, its neighbours in
    insertion order. *)
Definition Graph := list (node * list node).

Definition mem (x : node) (l : list node) : bool := existsb (Nat.eqb x) l.

(** [G.nodes()] *)
Definition nodes (G : Graph) : list node := map fst G.

Fixpoint adj (G : Graph) (u : node) : option (list node) :=
  match G with
  | [] => None
  | (n, ns) :: G' => if n =? u then Some ns else adj G' u
  end.

(** [u in G] *)
Definition has_node (G : Graph) (u : node) : bool :=
  match adj G u with Some _ => true | None => false end.

(** [G.neighbors(u)] (only called on nodes of the graph) *)
Definition neighbors (G : Graph) (u : node) : list node :=
  match adj G u with Some ns => ns | None => [] end.

(** [G.has_edge(u, v)]: [v in self._adj[u]], [False] on a missing [u]. *)
Definition has_edge (G : Graph) (u v : node) : bool := mem v (neighbors G u).

(** Iteration of [G.edges()]: every node in turn, with those of its
    neighbours that were not themselves visited before. *)
Fixpoint edges_from (G : Graph) (seen : list node) : list edge :=
  match G with
  | [] => []
  | (n, ns) :: G' =>
      map (pair n) (filter (fun nbr => negb (mem nbr seen)) ns)
        ++ edges_from G' (n :: seen)
  end.

Definition edges (G : Graph) : list edge := edges_from G [].

(** [self._adj[u] = ns] for a key already present (position kept). *)
Fixpoint set_adj (G : Graph) (u : node) (ns : list node) : Graph :=
  match G with
  | [] => []
  | (n, old) :: G' =>
      if n =? u then (n, ns) :: G' else (n, old) :: set_adj G' u ns
  end.

Definition add_node (G : Graph) (u : node) : Graph :=
  if has_node G u then G else G ++ [(u, [])].

(** [d[v] = ...] on the inner dictionary: a new key goes last. *)
Definition add_key (l : list node) (v : node) : list node :=
  if mem v l then l else l ++ [v].

(** [del d[v]] *)
Definition del_key (l : list node) (v : node) : list node :=
  filter (fun x => negb (x =? v)) l.

Definition add_edge (G : Graph) (u v : node) : Graph :=
  let G1 := add_node G u in
  let G2 := add_node G1 v in
  let G3 := set_adj G2 u (add_key (neighbors G2 u) v) in
  set_adj G3 v (add_key (neighbors G3 v) u).

(** [G.add_edges_from(ebunch)] *)
Definition add_edges_from (G : Graph) (es : list edge) : Graph :=
  fold_left (fun G' e => add_edge G' (fst e) (snd e)) es G.

Definition remove_edge (G : Graph) (u v : node) : Graph :=
  if has_node G u && has_edge G u v then
    let G1 := set_adj G u (del_key (neighbors G u) v) in
    if u =? v then G1 else set_adj G1 v (del_key (neighbors G1 v) u)
  else G.

(** [G.remove_edges_from(ebunch)]: edges that are absent are skipped. *)
Definition remove_edges_from (G : Graph) (es : list edge) : Graph :=
  fold_left (fun G' e => remove_edge G' (fst e) (snd e)) es G.

(** [G.number_of_nodes()] *)
Definition number_of_nodes (G : Graph) : nat := length G.

(** [G.degree]: a self-loop counts twice. *)
Definition degree_of (n : node) (ns : list node) : nat :=
  length ns + (if mem n ns then 1 else 0).

(** [G.number_of_edges()]: half the sum of the degrees. *)
Definition number_of_edges (G : Graph) : nat :=
  fold_right (fun e acc => degree_of (fst e) (snd e) + acc) 0 G / 2.

(** [G.copy()] gives an independent graph with the same nodes, in the same
    order, and the same edges.  (networkx fills the copy edge by edge, so
    the order of the neighbours of a node can differ from the original; the
    copy is read here up to that order.) *)
Definition copy (G : Graph) : Graph := G.

(** Building a graph the way callers do: [G = nx.Graph();
    G.add_nodes_from(ns); G.add_edges_from(es)]. *)
Definition add_nodes_from (G : Graph) (ns : list node) : Graph :=
  fold_left add_node ns G.

Definition build (ns : list node) (es : list edge) : Graph :=
  add_edges_from (add_nodes_from [] ns) es.

(** *** Metrics backend *)

(** One round of breadth-first growth of the visited set. *)
Definition grow (G : Graph) (seen : list node) : list node :=
  fold_left (fun acc n =>
               fold_left (fun acc' m => if mem m acc' then acc' else acc' ++ [m])
                         (neighbors G n) acc)
            seen seen.

(** The component of [v]: as many rounds as there are nodes. *)
Definition component (G : Graph) (v : node) : list node :=
  Nat.iter (length G) (grow G) [v].

Fixpoint count_components (G : Graph) (todo seen : list node) : nat :=
  match todo with
  | [] => 0
  | v :: todo' =>
      if mem v seen then count_components G todo' seen
      else S (count_components G todo' (component G v ++ seen))
  end.

(** [nx.number_connected_components(G)] *)
Definition number_connected_components (G : Graph) : nat :=
  count_components G (nodes G) [].

(** Neighbours of [v] other than [v]. *)
Definition others (G : Graph) (v : node) : list node :=
  filter (fun x => negb (x =? v)) (neighbors G v).

(** Twice the number of triangles through [v]. *)
Definition triangles2 (G : Graph) (v : node) : nat :=
  fold_right (fun w acc =>
                length (filter (fun x => mem x (others G w)) (others G v)) + acc)
             0 (others G v).

(** [nx.clustering(G)[v]]: [0 if t == 0 else t / (d * (d - 1))]. *)
Definition clustering_of (G : Graph) (v : node) : Q :=
  let d := length (others G v) in
  let t := triangles2 G v in
  if t =? 0 then 0%Q
  else (Z.of_nat t # Pos.of_nat (d * (d - 1)))%Q.

(** [nx.average_clustering(G)]: [sum(c) / len(c)], a [ZeroDivisionError]
    on the graph without nodes. *)
Definition average_clustering (G : Graph) : result Q :=
  match nodes G with
  | [] => Raise ZeroDivisionError
  | ns => Ok (fold_right (fun v acc => Qplus (clustering_of G v) acc) 0%Q ns
                / (Z.of_nat (length ns) # 1))%Q
  end.

(** The invariant of every networkx graph that the engine relies on:
    whatever occurs as a neighbour is itself a node. *)
Definition closed (G : Graph) : bool :=
  forallb (fun e => forallb (fun v => mem v (nodes G)) (snd e)) G.

(** The same invariant as a proposition. *)
Definition Closed (G0 : Graph) : Prop :=
  forall e, In e G0 -> forall v, In v (snd e) -> In v (nodes G0).

(** The ring lattice [nx.watts_strogatz_graph(n, k, 0)]: for
    [j = 1 .. k // 2], the edges [zip(nodes, nodes[j:] + nodes[:j])] are
    added to an empty graph. *)
Definition ring_targets (n j : nat) : list node :=
  skipn j (seq 0 n) ++ firstn j (seq 0 n).

Definition ring_lattice (n k : nat) : Graph :=
  fold_left (fun G' j => add_edges_from G' (combine (seq 0 n) (ring_targets n j)))
            (seq 1 (k / 2)) [].

End Nx.

(** ** The runtime: random generator and set iteration *)

(** The generator of the [random] module.  [rnd_random] is
    [random.random()], [rnd_randbelow n] the index draw behind
    [random.choice], [rnd_sample] is [random.sample(population, k)] and
    [rnd_seed] the state after [random.seed(seed)].  The laws are those the
    module documents: a draw lies in [[0, 1)], an index below its bound, and
    a sample is taken without replacement. *)
Class PyRandom (R : Type) : Type := {
  rnd_seed : Z -> R;
  rnd_random : R -> Q * R;
  rnd_randbelow : nat -> R -> nat * R;
  rnd_sample : list node -> nat -> R -> list node * R;
  rnd_random_lo : forall g, Qle_bool 0 (fst (rnd_random g)) = true;
  rnd_random_hi : forall g, Qltb (fst (rnd_random g)) 1 = true;
  rnd_randbelow_lt : forall n g, 0 < n -> fst (rnd_randbelow n g) < n;
  rnd_sample_length : forall pop k g,
      k <= length pop -> length (fst (rnd_sample pop k g)) = k;
  rnd_sample_sub : forall pop k g,
      k <= length pop ->
      exists rest, Permutation (fst (rnd_sample pop k g) ++ rest) pop
}.

(** Iteration over a Python [set]: [set_iter l] is the order in which the
    set built from the elements of [l] (inserted in that order) is
    traversed.  The order is fixed by the hash table; only its being a
    duplicate-free enumeration of the elements is known. *)
Class PySet : Type := {
  set_iter : forall {A : Type}, (forall x y : A, {x = y} + {x <> y}) ->
                                list A -> list A;
  set_iter_NoDup : forall A (d : forall x y : A, {x = y} + {x <> y}) l,
      NoDup (set_iter d l);
  set_iter_In : forall A (d : forall x y : A, {x = y} + {x <> y}) l x,
      In x (set_iter d l) <-> In x l
}.

(** ** The simulation object *)

Record TimeSeries : Type := {
  ts_S : list nat;
  ts_I : list nat;
  ts_R : list nat;
  ts_t : list nat
}.

Record NetworkMetrics : Type := {
  avg_degree : list Q;
  clustering : list Q;
  num_edges : list nat;
  num_components : list nat
}.

(** The dictionary returned by [compute_network_metrics]. *)
Record Metrics : Type := {
  m_avg_degree : Q;
  m_clustering : Q;
  m_num_edges : nat;
  m_num_components : nat
}.

Record Sim : Type := {
  G : Nx.Graph;
  beta : Q;
  gamma : Q;
  alpha : Q;
  mu : Q;
  N : nat;
  state : StateMap;
  time_series : TimeSeries;
  network_metrics : NetworkMetrics
}.

Definition empty_series : TimeSeries :=
  {| ts_S := []; ts_I := []; ts_R := []; ts_t := [] |}.

Definition empty_metrics : NetworkMetrics :=
  {| avg_degree := []; clustering := []; num_edges := []; num_components := [] |}.

Definition with_G (sim : Sim) (G' : Nx.Graph) : Sim :=
  {| G := G'; beta := beta sim; gamma := gamma sim; alpha := alpha sim;
     mu := mu sim; N := N sim; state := state sim;
     time_series := time_series sim; network_metrics := network_metrics sim |}.

Definition with_state (sim : Sim) (st : StateMap) : Sim :=
  {| G := G sim; beta := beta sim; gamma := gamma sim; alpha := alpha sim;
     mu := mu sim; N := N sim; state := st;
     time_series := time_series sim; network_metrics := network_metrics sim |}.

Definition with_series (sim : Sim) (ts : TimeSeries) (nm : NetworkMetrics) : Sim :=
  {| G := G sim; beta := beta sim; gamma := gamma sim; alpha := alpha sim;
     mu := mu sim; N := N sim; state := state sim;
     time_series := ts; network_metrics := nm |}.

(** [np.random.seed(seed)] accepts the integers of [[0, 2**32 - 1]] and
    raises [ValueError] on the others. *)
Definition numpy_seed_ok (s : Z) : bool := ((0 <=? s) && (s <? 2 ^ 32))%Z.

(** [a / b] on Python integers. *)
Definition truediv (a b : nat) : result Q :=
  if b =? 0 then Raise ZeroDivisionError
  else Ok (Z.of_nat a # Pos.of_nat b)%Q.

(** The loop of [count_states]: one counter per state, over [G.nodes()]. *)
Definition counts (G0 : Nx.Graph) (st : StateMap) : nat * nat * nat :=
  fold_left (fun c n =>
               let '(s, i, r) := c in
               match st n with
               | SUSCEPTIBLE => (s + 1, i, r)
               | INFECTED => (s, i + 1, r)
               | RECOVERED => (s, i, r + 1)
               end)
            (Nx.nodes G0) (0, 0, 0).

Section Simulation.

Context {R : Type} {RNG : PyRandom R} {SET : PySet}.

Definition node_set (l : list node) : list node := set_iter Nat.eq_dec l.
Definition edge_set (l : list edge) : list edge := set_iter edge_eq_dec l.

(** [AdaptiveSIRSimulation.__init__]; [g] is the state of the process-wide
    generator when the constructor is entered. *)
Definition __init__ (graph : Nx.Graph) (b ga a m : Q) (seed : option Z) (g : R)
  : result Sim * R :=
  let sim :=
    {| G := Nx.copy graph; beta := b; gamma := ga; alpha := a; mu := m;
       N := length (Nx.nodes graph);
       state := fun _ => SUSCEPTIBLE;
       time_series := empty_series;
       network_metrics := empty_metrics |} in
  match seed with
  | Some s =>
      if numpy_seed_ok s then (Ok sim, rnd_seed s)
      else (Raise ValueError, rnd_seed s)
  | None => (Ok sim, g)
  end.

(** [infect_random_node]: [random.choice] of an empty list raises
    [IndexError]. *)
Definition infect_random_node (sim : Sim) (g : R) : result (node * Sim) * R :=
  let ns := Nx.nodes (G sim) in
  match ns with
  | [] => (Raise IndexError, g)
  | _ =>
      let (i, g1) := rnd_randbelow (length ns) g in
      let patient_zero := nth i ns 0 in
      (Ok (patient_zero, with_state sim (set_state (state sim) patient_zero INFECTED)),
       g1)
  end.

(** [count_states] *)
Definition count_states (sim : Sim) : nat * nat * nat :=
  counts (G sim) (state sim).

(** [compute_network_metrics]; the bare [except] turns a failure of the
    clustering computation into [0]. *)
Definition compute_network_metrics (sim : Sim) : result Metrics :=
  let avg :=
    if 0 <? Nx.number_of_edges (G sim)
    then truediv (2 * Nx.number_of_edges (G sim)) (Nx.number_of_nodes (G sim))
    else Ok 0%Q in
  match avg with
  | Raise e => Raise e
  | Ok a =>
      let c := match Nx.average_clustering (G sim) with
               | Ok c => c
               | Raise _ => 0%Q
               end in
      Ok {| m_avg_degree := a; m_clustering := c;
            m_num_edges := Nx.number_of_edges (G sim);
            m_num_components := Nx.number_connected_components (G sim) |}
  end.

(** *** [adaptive_step] *)

(** The condition of Rule 1: one endpoint susceptible, the other infected. *)
Definition s_i_edge (st : StateMap) (u v : node) : bool :=
  (is_S (st u) && is_I (st v)) || (is_S (st v) && is_I (st u)).

(** Rule 1, the loop over [list(self.G.edges())]. *)
Fixpoint cut_scan (st : StateMap) (a : Q) (es : list edge) (g : R)
  : list edge * R :=
  match es with
  | [] => ([], g)
  | (u, v) :: es' =>
      if s_i_edge st u v then
        let (r, g1) := rnd_random g in
        let (rest, g2) := cut_scan st a es' g1 in
        (if Qltb r a then (u, v) :: rest else rest, g2)
      else cut_scan st a es' g
  end.

(** The elements added to [nodes_to_check] from the removed edges. *)
Definition cut_endpoints (st : StateMap) (removed : list edge) : list node :=
  flat_map (fun e =>
              (if is_S (st (fst e)) then [fst e] else [])
                ++ (if is_S (st (snd e)) then [snd e] else []))
           removed.

(** The innermost loop, [for w in v_neighbors]: the first success of the
    draw records [(u, w)] and leaves this loop. *)
Fixpoint scan_w (G0 : Nx.Graph) (st : StateMap) (m : Q) (u : node)
         (ws : list node) (g : R) : option edge * R :=
  match ws with
  | [] => (None, g)
  | w :: ws' =>
      if (w =? u) || negb (is_S (st w)) || Nx.has_edge G0 u w
      then scan_w G0 st m u ws' g
      else
        let (r, g1) := rnd_random g in
        if Qltb r m then (Some (u, w), g1)
        else scan_w G0 st m u ws' g1
  end.

(** The loop [for v in u_neighbors]. *)
Fixpoint scan_v (G0 : Nx.Graph) (st : StateMap) (m : Q) (u : node)
         (vs : list node) (g : R) : list edge * R :=
  match vs with
  | [] => ([], g)
  | v :: vs' =>
      if negb (is_S (st v)) then scan_v G0 st m u vs' g
      else
        let (found, g1) := scan_w G0 st m u (node_set (Nx.neighbors G0 v)) g in
        let (rest, g2) := scan_v G0 st m u vs' g1 in
        (match found with Some e => e :: rest | None => rest end, g2)
  end.

(** The loop [for u in nodes_to_check]. *)
Fixpoint scan_u (G0 : Nx.Graph) (st : StateMap) (m : Q)
         (us : list node) (g : R) : list edge * R :=
  match us with
  | [] => ([], g)
  | u :: us' =>
      if negb (Nx.has_node G0 u) then scan_u G0 st m us' g
      else
        let (es1, g1) := scan_v G0 st m u (node_set (Nx.neighbors G0 u)) g in
        let (es2, g2) := scan_u G0 st m us' g1 in
        (es1 ++ es2, g2)
  end.

(** What [adaptive_step] computes on the way: the edges removed by Rule 1,
    the graph after the removal, the seed nodes in the order they are
    scanned, the proposals in the order they are appended, and the list
    [edges_to_add] after [list(set(...))]. *)
Record Rewiring : Type := {
  edges_to_remove : list edge;
  G_cut : Nx.Graph;
  nodes_to_check : list node;
  proposals : list edge;
  edges_to_add : list edge
}.

Definition rewire (sim : Sim) (g : R) : Rewiring * R :=
  let st := state sim in
  let (removed, g1) := cut_scan st (alpha sim) (Nx.edges (G sim)) g in
  let G1 := Nx.remove_edges_from (G sim) removed in
  let susceptible_nodes := filter (fun n => is_S (st n)) (Nx.nodes G1) in
  let from_cut := cut_endpoints st removed in
  let (to_check, g2) :=
    if (length (node_set from_cut) =? 0) && (0 <? length susceptible_nodes)
    then
      let sample_size := Nat.min 50 (length susceptible_nodes) in
      let (smp, g') := rnd_sample susceptible_nodes sample_size g1 in
      (node_set smp, g')
    else (node_set from_cut, g1) in
  let (props, g3) := scan_u G1 st (mu sim) to_check g2 in
  ({| edges_to_remove := removed; G_cut := G1; nodes_to_check := to_check;
      proposals := props; edges_to_add := edge_set props |}, g3).

(** [adaptive_step]: returns [(edges_cut, edges_added)]. *)
Definition adaptive_step (sim : Sim) (g : R) : (nat * nat) * Sim * R :=
  let (rw, g') := rewire sim g in
  ((length (edges_to_remove rw), length (edges_to_add rw)),
   with_G sim (Nx.add_edges_from (G_cut rw) (edges_to_add rw)), g').

(** *** [epidemic_step] *)

(** [k_I]: the number of infected neighbours. *)
Definition infected_neighbors (G0 : Nx.Graph) (st : StateMap) (n : node) : nat :=
  length (filter (fun x => is_I (st x)) (Nx.neighbors G0 n)).

(** [1 - (1 - beta) ** k_I], without the rounding of the floating-point
    computation (for [beta = 0] and [beta = 1] both are exact).  For [beta]
    in [[0, 1]] the base lies in [[0, 1]] and the floating-point power
    cannot overflow; for a float [beta] with [|1 - beta| > 1] the power can
    exceed the float range, and Python then raises [OverflowError], which
    this exact value does not show: what is stated of a run that computes
    this value is stated for [beta] in [[0, 1]]. *)
Definition p_infection (b : Q) (k_I : nat) : Q :=
  (1 - Qpower (1 - b) (Z.of_nat k_I))%Q.

Fixpoint infect_scan (G0 : Nx.Graph) (st : StateMap) (b : Q)
         (ns : list node) (g : R) : list node * R :=
  match ns with
  | [] => ([], g)
  | n :: ns' =>
      if is_S (st n) then
        let k_I := infected_neighbors G0 st n in
        if 0 <? k_I then
          let (r, g1) := rnd_random g in
          let (rest, g2) := infect_scan G0 st b ns' g1 in
          (if Qltb r (p_infection b k_I) then n :: rest else rest, g2)
        else infect_scan G0 st b ns' g
      else infect_scan G0 st b ns' g
  end.

Fixpoint recover_scan (st : StateMap) (ga : Q) (ns : list node) (g : R)
  : list node * R :=
  match ns with
  | [] => ([], g)
  | n :: ns' =>
      if is_I (st n) then
        let (r, g1) := rnd_random g in
        let (rest, g2) := recover_scan st ga ns' g1 in
        (if Qltb r ga then n :: rest else rest, g2)
      else recover_scan st ga ns' g
  end.

(** [epidemic_step]: returns [(num_infections, num_recoveries)]. *)
Definition epidemic_step (sim : Sim) (g : R) : (nat * nat) * Sim * R :=
  let st := state sim in
  let (to_infect, g1) := infect_scan (G sim) st (beta sim) (Nx.nodes (G sim)) g in
  let (to_recover, g2) := recover_scan st (gamma sim) (Nx.nodes (G sim)) g1 in
  let st1 := set_all st (node_set to_infect) INFECTED in
  let st2 := set_all st1 (node_set to_recover) RECOVERED in
  ((length (node_set to_infect), length (node_set to_recover)),
   with_state sim st2, g2).

(** *** [run] *)

Definition record_counts (ts : TimeSeries) (s i r t : nat) : TimeSeries :=
  {| ts_S := ts_S ts ++ [s]; ts_I := ts_I ts ++ [i];
     ts_R := ts_R ts ++ [r]; ts_t := ts_t ts ++ [t] |}.

Definition record_metrics (nm : NetworkMetrics) (m : Metrics) : NetworkMetrics :=
  {| avg_degree := avg_degree nm ++ [m_avg_degree m];
     clustering := clustering nm ++ [m_clustering m];
     num_edges := num_edges nm ++ [m_num_edges m];
     num_components := num_components nm ++ [m_num_components m] |}.

(** The head of the loop body: the counts are appended to the series and,
    if requested, the metrics to theirs.  Returns [I] with the object. *)
Definition record_step (track_network : bool) (sim : Sim) (t : nat)
  : result (nat * Sim) :=
  let '(s, i, r) := count_states sim in
  let ts := record_counts (time_series sim) s i r t in
  if track_network then
    match compute_network_metrics sim with
    | Ok m =>
        Ok (i, with_series sim ts (record_metrics (network_metrics sim) m))
    | Raise e => Raise e
    end
  else Ok (i, with_series sim ts (network_metrics sim)).

(** The [while t < max_steps] loop; [left] is [max_steps - t]. *)
Fixpoint run_loop (left : nat) (t : nat) (track_network : bool)
         (sim : Sim) (g : R) : result Sim * R :=
  match left with
  | 0 => (Ok sim, g)
  | S left' =>
      match record_step track_network sim t with
      | Raise e => (Raise e, g)
      | Ok (i, sim1) =>
          if i =? 0 then (Ok sim1, g)
          else
            let '(_, sim2, g1) := adaptive_step sim1 g in
            let '(_, sim3, g2) := epidemic_step sim2 g1 in
            run_loop left' (t + 1) track_network sim3 g2
      end
  end.

(** [run(max_steps, track_network)]: the recorded series are reset first.
    The returned dictionary is the pair of [time_series] and
    [network_metrics] of the resulting object. *)
Definition run (max_steps : Z) (track_network : bool) (sim : Sim) (g : R)
  : result Sim * R :=
  run_loop (Z.to_nat max_steps) 0 track_network
           (with_series sim empty_series empty_metrics) g.

(** [get_final_size], [get_peak_infected], [get_epidemic_duration] *)
Definition get_final_size (sim : Sim) : result Q :=
  match rev (ts_R (time_series sim)) with
  | [] => Ok 0%Q
  | r :: _ => truediv r (N sim)
  end.

Definition get_peak_infected (sim : Sim) : nat :=
  fold_right Nat.max 0 (ts_I (time_series sim)).

Definition get_epidemic_duration (sim : Sim) : nat :=
  length (ts_t (time_series sim)).

End Simulation.

(** ** A reference runtime

    A linear congruential generator and the duplicate-free insertion order
    give one runtime on which every definition above can be evaluated. *)

Definition lcg_next (s : Z) : Z := ((1103515245 * s + 12345) mod 2147483648)%Z.

Definition lcg_random (s : Z) : Q * Z :=
  let s' := lcg_next s in ((s' # 2147483648)%Q, s').

Definition lcg_randbelow (n : nat) (s : Z) : nat * Z :=
  let s' := lcg_next s in
  (match n with 0 => 0 | _ => Z.to_nat (s' mod Z.of_nat n) end, s').

Definition lcg_sample (pop : list node) (k : nat) (s : Z) : list node * Z :=
  let s' := lcg_next s in
  let i := match pop with
           | [] => 0
           | _ => Z.to_nat (s' mod Z.of_nat (length pop))
           end in
  (firstn k (skipn i pop ++ firstn i pop), s').

Definition lcg : PyRandom Z.
Proof.
  refine {| rnd_seed := fun s => (s mod 2147483648)%Z;
            rnd_random := lcg_random;
            rnd_randbelow := lcg_randbelow;
            rnd_sample := lcg_sample |}.
  - intro g. unfold lcg_random, lcg_next, Qle_bool. cbn [fst Qnum Qden].
    apply Z.leb_le.
    pose proof (Z.mod_pos_bound (1103515245 * g + 12345) 2147483648). lia.
  - intro g. unfold Qltb, lcg_random, lcg_next, Qle_bool. cbn [fst Qnum Qden].
    apply negb_true_iff, Z.leb_gt.
    pose proof (Z.mod_pos_bound (1103515245 * g + 12345) 2147483648). lia.
  - intros n g Hn. unfold lcg_randbelow. cbn [fst].
    destruct n as [|n']; [lia|].
    pose proof (Z.mod_pos_bound (lcg_next g) (Z.of_nat (S n'))). lia.
  - intros pop k g Hk. unfold lcg_sample. cbn [fst].
    rewrite length_firstn, length_app, length_skipn, length_firstn. lia.
  - intros pop k g Hk. unfold lcg_sample. cbn [fst].
    set (l := skipn _ pop ++ firstn _ pop).
    exists (skipn k l). rewrite firstn_skipn. subst l.
    rewrite Permutation_app_comm, firstn_skipn. apply Permutation_refl.
Defined.

Definition insertion_order : PySet.
Proof.
  refine {| set_iter := fun A d l => rev (nodup d (rev l)) |}.
  - intros A d l. apply NoDup_rev, NoDup_nodup.
  - intros A d l x. rewrite <- in_rev, nodup_In, <- in_rev. reflexivity.
Defined.

(** ** Experiments and scenarios *)

Section Experiment.

Context {R : Type} {RNG : PyRandom R} {SET : PySet}.

(** Patient zero chosen by the generator ([sim.infect_random_node()]). *)
Definition patient_zero_random (sim : Sim) (g : R) : result Sim * R :=
  match infect_random_node sim g with
  | (Ok (_, sim'), g') => (Ok sim', g')
  | (Raise e, g') => (Raise e, g')
  end.

(** Patient zero set by the caller ([sim.state[n] = sim.INFECTED]). *)
Definition patient_zero_at (n : node) (sim : Sim) (g : R) : result Sim * R :=
  (Ok (with_state sim (set_state (state sim) n INFECTED)), g).



End Experiment.

(** A probability parameter lies in [[0, 1]]. *)
Definition in_unit_interval (q : Q) : bool := Qle_bool 0 q && Qle_bool q 1.

Definition parameters_in_range (b ga a m : Q) : bool :=
  in_unit_interval b && in_unit_interval ga
  && in_unit_interval a && in_unit_interval m.

(** The recorded series has one entry per step and every entry satisfies
    [P t s i r]. *)
Definition every_entry (P : nat -> nat -> nat -> nat -> Prop) (ts : TimeSeries) : Prop :=
  length (ts_S ts) = length (ts_t ts)
  /\ length (ts_I ts) = length (ts_t ts)
  /\ length (ts_R ts) = length (ts_t ts)
  /\ forall k, k < length (ts_t ts) ->
               P (nth k (ts_t ts) 0) (nth k (ts_S ts) 0)
                 (nth k (ts_I ts) 0) (nth k (ts_R ts) 0).

(** The transitions of the per-node state machine. *)
Definition transition (s s' : State) : Prop :=
  s' = s
  \/ (s = SUSCEPTIBLE /\ s' = INFECTED)
  \/ (s = INFECTED /\ s' = RECOVERED).

(** The ring scenario: 20 nodes, two neighbours on each side. *)
Definition ring20 : Nx.Graph := Nx.ring_lattice 20 4.

Definition one_infected (n0 : node) : StateMap :=
  fun n => if n =? n0 then INFECTED else SUSCEPTIBLE.

(** The nodes that a step with certain transmission infects, and the state
    it leaves when nobody recovers. *)
Definition exposed (G0 : Nx.Graph) (st : StateMap) : list node :=
  filter (fun n => is_S (st n) && (0 <? infected_neighbors G0 st n))
         (Nx.nodes G0).

Definition spread (G0 : Nx.Graph) (st : StateMap) : StateMap :=
  let hit := exposed G0 st in
  fun n => if Nx.mem n hit then INFECTED else st n.

(** The states after [t] such steps from the states [st]. *)
Definition wave_from (G0 : Nx.Graph) (st : StateMap) (t : nat) : StateMap :=
  Nat.iter t (spread G0) st.

Definition cS (c : nat * nat * nat) : nat := fst (fst c).
Definition cI (c : nat * nat * nat) : nat := snd (fst c).
Definition cR (c : nat * nat * nat) : nat := snd c.

(** The series of [n] entries that these states give. *)
Definition wave_series (G0 : Nx.Graph) (st : StateMap) (n : nat) : TimeSeries :=
  {| ts_S := map (fun j => cS (counts G0 (wave_from G0 st j))) (seq 0 n);
     ts_I := map (fun j => cI (counts G0 (wave_from G0 st j))) (seq 0 n);
     ts_R := map (fun j => cR (counts G0 (wave_from G0 st j))) (seq 0 n);
     ts_t := seq 0 n |}.

(** The parameters of the static scenario: α ≤ 0, μ ≤ 0, β = 1, γ ≤ 0. *)
Definition static_certain (sim : Sim) : Prop :=
  Qle_bool (alpha sim) 0 = true /\ Qle_bool (mu sim) 0 = true
  /\ (beta sim == 1)%Q /\ Qle_bool (gamma sim) 0 = true.

(** The infected count of the ring scenario at step [t]: the front moves
    two nodes on each side per step until all 20 nodes are reached. *)
Definition ring_I (t : nat) : nat := Nat.min 20 (1 + 4 * t).

Definition ring_series (n : nat) : TimeSeries :=
  {| ts_S := map (fun t => 20 - ring_I t) (seq 0 n);
     ts_I := map ring_I (seq 0 n);
     ts_R := map (fun _ => 0) (seq 0 n);
     ts_t := seq 0 n |}.

(** An open triangle [u - v - w] of [G0] with [v] and [w] susceptible. *)
Definition open_triangle (G0 : Nx.Graph) (st : StateMap) (u v w : node) : Prop :=
  In v (Nx.neighbors G0 u) /\ is_S (st v) = true
  /\ In w (Nx.neighbors G0 v) /\ w <> u /\ is_S (st w) = true
  /\ Nx.has_edge G0 u w = false.

(** What Rule 2 promises of an added edge [(u, w)]; [G1] is the graph after
    Rule 1, [sim] the object at the start of the step. *)
Definition closes_open_triangle (sim : Sim) (G1 : Nx.Graph) (u w : node) : Prop :=
  state sim u = SUSCEPTIBLE /\ state sim w = SUSCEPTIBLE
  /\ Nx.has_edge (G sim) u w = false
  /\ Nx.has_edge G1 u w = false
  /\ exists v, state sim v = SUSCEPTIBLE
               /\ Nx.has_edge (G sim) u v = true
               /\ Nx.has_edge (G sim) v w = true.

(** A simulation object on a graph with given parameters and states, as
    left by the constructor and the seeding of the infection. *)
Definition prepared (G0 : Nx.Graph) (b ga a m : Q) (st : StateMap) : Sim :=
  {| G := G0; beta := b; gamma := ga; alpha := a; mu := m;
     N := length (Nx.nodes G0); state := st;
     time_series := empty_series; network_metrics := empty_metrics |}.

(** Two small graphs with an isolated infected node: a fork
    [3 - 1 - 0 - 2 - 4] and a path [0 - 1 - 2]. *)
Definition fork_graph : Nx.Graph :=
  Nx.build [0; 1; 2; 3; 4; 5] [(0, 1); (0, 2); (1, 3); (2, 4)].

Definition path_graph : Nx.Graph :=
  Nx.build [0; 1; 2; 3] [(0, 1); (1, 2)].

(** The number of proposals recorded with seed node [u]. *)
Definition proposed_for (u : node) (props : list edge) : nat :=
  length (filter (fun e => fst e =? u) props).

(** ** The helpers for repeated runs *)

Definition bind_result {A B : Type} (r : result A) (f : A -> result B) : result B :=
  match r with
  | Ok a => f a
  | Raise e => Raise e
  end.

(** [for x in l: ...] with a body that may raise: the first exception ends
    the loop. *)
Fixpoint map_result {A B : Type} (f : A -> result B) (l : list A) : result (list B) :=
  match l with
  | [] => Ok []
  | x :: l' =>
      bind_result (f x) (fun y =>
      bind_result (map_result f l') (fun ys => Ok (y :: ys)))
  end.

(** [max(...)] of an iterable: [ValueError] when it is empty. *)
Definition py_max (l : list nat) : result nat :=
  match l with
  | [] => Raise ValueError
  | x :: l' => Ok (fold_left Nat.max l' x)
  end.

(** [row[:len] = xs] on a numpy row: the slice has [min(len, size)]
    entries; a list of as many entries is copied, a list of one entry is
    broadcast, any other raises [ValueError].  The entries are counts, held
    exactly by the floating-point array. *)
Definition assign_slice (row : list nat) (len : nat) (xs : list nat)
  : result (list nat) :=
  let k := Nat.min len (length row) in
  if length xs =? k then Ok (xs ++ skipn k row)
  else if length xs =? 1 then Ok (repeat (hd 0 xs) k ++ skipn k row)
  else Raise ValueError.

(** [row[len:] = xs[-1]]: [IndexError] on an empty list. *)
Definition fill_tail (row : list nat) (len : nat) (xs : list nat)
  : result (list nat) :=
  match rev xs with
  | [] => Raise IndexError
  | v :: _ => Ok (firstn len row ++ repeat v (length row - len))
  end.

(** The body of the loop of [average_time_series] for one series: row [i]
    of [S_all], [I_all] and [R_all]. *)
Definition series_rows (max_length : nat) (ts : TimeSeries)
  : result (list nat * list nat * list nat) :=
  let len := length (ts_S ts) in
  let zeros := repeat 0 max_length in
  bind_result (assign_slice zeros len (ts_S ts)) (fun rS =>
  bind_result (assign_slice zeros len (ts_I ts)) (fun rI =>
  bind_result (assign_slice zeros len (ts_R ts)) (fun rR =>
  if len <? max_length then
    bind_result (fill_tail rS len (ts_S ts)) (fun rS' =>
    bind_result (fill_tail rI len (ts_I ts)) (fun rI' =>
    bind_result (fill_tail rR len (ts_R ts)) (fun rR' =>
    Ok (rS', rI', rR'))))
  else Ok (rS, rI, rR)))).

(** [average_time_series(all_series, max_length)] up to the arrays it
    fills: the returned pair holds [t = arange(max_length)] and the rows of
    [S_all], [I_all], [R_all]; the column means and deviations that the
    source takes of them are floating-point and are left out. *)
Definition average_time_series (all_series : list TimeSeries)
           (max_length : option nat)
  : result (list nat * list (list nat * list nat * list nat)) :=
  bind_result
    (match max_length with
     | Some m => Ok m
     | None => py_max (map (fun ts => length (ts_t ts)) all_series)
     end)
    (fun m =>
       bind_result (map_result (series_rows m) all_series)
                   (fun rows => Ok (seq 0 m, rows))).

(** The lists that [run_multiple_asir_simulations] collects. *)
Record Results : Type := {
  peak_infected : list nat;
  final_size : list Q;
  duration : list nat;
  all_series : list TimeSeries;
  results_network_metrics : option (list NetworkMetrics)
}.

Section RepeatedRuns.

Context {R : Type} {RNG : PyRandom R} {SET : PySet}.

(** One pass of the loop of [run_multiple_asir_simulations]:
    [network_generator run] stands for the call of the generator with the
    network parameters and [seed=run]. *)
Definition one_run (network_generator : nat -> Nx.Graph) (b ga a m : Q)
           (track_network : bool) (res : Results) (run_ix : nat) (g : R)
  : result Results * R :=
  match __init__ (network_generator run_ix) b ga a m
                 (Some (Z.of_nat run_ix * 1000)%Z) g with
  | (Raise e, g1) => (Raise e, g1)
  | (Ok sim, g1) =>
      match infect_random_node sim g1 with
      | (Raise e, g2) => (Raise e, g2)
      | (Ok (_, sim1), g2) =>
          match run 500 track_network sim1 g2 with
          | (Raise e, g3) => (Raise e, g3)
          | (Ok sim2, g3) =>
              match get_final_size sim2 with
              | Raise e => (Raise e, g3)
              | Ok fs =>
                  (Ok {| peak_infected :=
                           peak_infected res ++ [get_peak_infected sim2];
                         final_size := final_size res ++ [fs];
                         duration :=
                           duration res ++ [get_epidemic_duration sim2];
                         all_series := all_series res ++ [time_series sim2];
                         results_network_metrics :=
                           if track_network then
                             match results_network_metrics res with
                             | Some l => Some (l ++ [network_metrics sim2])
                             | None => None
                             end
                           else results_network_metrics res |}, g3)
              end
          end
      end
  end.

Fixpoint runs_loop (network_generator : nat -> Nx.Graph) (b ga a m : Q)
         (track_network : bool) (runs : list nat) (res : Results) (g : R)
  : result Results * R :=
  match runs with
  | [] => (Ok res, g)
  | run_ix :: runs' =>
      match one_run network_generator b ga a m track_network res run_ix g with
      | (Raise e, g1) => (Raise e, g1)
      | (Ok res1, g1) =>
          runs_loop network_generator b ga a m track_network runs' res1 g1
      end
  end.

(** [run_multiple_asir_simulations] up to the collected lists (the printed
    report and the means and deviations of the lists are left out). *)
Definition run_multiple_asir_simulations (network_generator : nat -> Nx.Graph)
           (b ga a m : Q) (num_runs : nat) (track_network : bool) (g : R)
  : result Results * R :=
  runs_loop network_generator b ga a m track_network (seq 0 num_runs)
            {| peak_infected := []; final_size := []; duration := [];
               all_series := [];
               results_network_metrics :=
                 if track_network then Some [] else None |} g.

End RepeatedRuns.

(** ** Predicates of the further properties *)

(** Consecutive elements of [a :: l] are related by [Rel]. *)
Fixpoint chain {A : Type} (Rel : A -> A -> Prop) (a : A) (l : list A) : Prop :=
  match l with
  | [] => True
  | b :: l' => Rel a b /\ chain Rel b l'
  end.

(** The keys of the node dictionary are distinct. *)
Fixpoint distinct (l : list node) : bool :=
  match l with
  | [] => true
  | x :: l' => negb (Nx.mem x l') && distinct l'
  end.

(** No node is its own neighbour. *)
Definition no_self_loops (G0 : Nx.Graph) : bool :=
  forallb (fun e => negb (Nx.mem (fst e) (snd e))) G0.

(** Adjacency is symmetric. *)
Definition symmetric (G0 : Nx.Graph) : bool :=
  forallb (fun e => forallb (fun v => Nx.has_edge G0 v (fst e)) (snd e)) G0.

(** The same as a proposition. *)
Definition Symmetric (G0 : Nx.Graph) : Prop :=
  forall u v, Nx.has_edge G0 u v = true -> Nx.has_edge G0 v u = true.

(** The sum of the degrees, of which [G.number_of_edges()] is the half. *)
Definition degree_sum (G0 : Nx.Graph) : nat :=
  fold_right (fun e acc => Nx.degree_of (fst e) (snd e) + acc) 0 G0.

(** No neighbour is listed twice (the inner dictionaries have distinct
    keys). *)
Definition adjacency_distinct (G0 : Nx.Graph) : bool :=
  forallb (fun e => distinct (snd e)) G0.

(** The same as a proposition. *)
Definition Simple (G0 : Nx.Graph) : Prop :=
  forall e, In e G0 -> NoDup (snd e).

(** Two edges that differ as unordered pairs. *)
Definition other_edge (e e' : edge) : Prop :=
  e' <> e /\ e' <> (snd e, fst e).

(** A series as [run] records it: four lists of one positive length. *)
Definition recorded (ts : TimeSeries) : Prop :=
  length (ts_S ts) = length (ts_t ts)
  /\ length (ts_I ts) = length (ts_t ts)
  /\ length (ts_R ts) = length (ts_t ts)
  /\ 0 < length (ts_t ts).

(** [row] has [M] entries: those of [xs], then the last of [xs] repeated. *)
Definition pads (M : nat) (xs row : list nat) : Prop :=
  length row = M
  /\ forall j, j < M -> nth j row 0 = nth (Nat.min j (length xs - 1)) xs 0.

(** * Properties *)

(** Splitting a membership in a concrete list into its cases. *)
Ltac cases_of H :=
  vm_compute in H;
  repeat match type of H with
         | _ \/ _ => destruct H as [H|H]
         | False => contradiction
         end;
  try subst.

(** ** The graph *)

Module NxFacts.
Import Nx.

Lemma mem_In x l : mem x l = true <-> In x l.
Proof.
  unfold mem. rewrite existsb_exists. split.
  - intros [y [Hy Heq]]. apply Nat.eqb_eq in Heq. now subst.
  - intro H. exists x. split; [assumption | apply Nat.eqb_refl].
Qed.

Lemma nodes_set_adj G0 u ns : nodes (set_adj G0 u ns) = nodes G0.
Proof.
  unfold nodes. induction G0 as [|[n old] G' IH]; [reflexivity|].
  cbn [set_adj]. destruct (n =? u); cbn [map fst]; [reflexivity|].
  now rewrite IH.
Qed.

Lemma has_node_In G0 u : has_node G0 u = true <-> In u (nodes G0).
Proof.
  unfold has_node. induction G0 as [|[n ns] G' IH]; cbn [adj nodes map fst In].
  - split; [discriminate | tauto].
  - destruct (Nat.eqb_spec n u) as [->|Hne].
    + split; auto.
    + rewrite IH. split; [auto | intros [H|H]; [congruence | exact H]].
Qed.

(** Reading the adjacency after one entry was overwritten. *)
Lemma neighbors_set_adj G0 u ns x :
  neighbors (set_adj G0 u ns) x
  = if has_node G0 u && (u =? x) then ns else neighbors G0 x.
Proof.
  unfold neighbors, has_node.
  induction G0 as [|[n old] G' IH]; cbn [set_adj adj].
  - reflexivity.
  - destruct (n =? u) eqn:Enu; cbn [adj].
    + apply Nat.eqb_eq in Enu. subst n. cbn [andb].
      destruct (u =? x); reflexivity.
    + destruct (Nat.eqb_spec n x) as [Hnx|Hnx].
      * subst x. rewrite Nat.eqb_sym, Enu. now rewrite andb_false_r.
      * exact IH.
Qed.

Lemma nodes_remove_edge G0 u v : nodes (remove_edge G0 u v) = nodes G0.
Proof.
  unfold remove_edge. destruct (has_node G0 u && has_edge G0 u v); [|reflexivity].
  destruct (u =? v); now rewrite ?nodes_set_adj.
Qed.

Lemma nodes_remove_edges_from es : forall G0,
    nodes (remove_edges_from G0 es) = nodes G0.
Proof.
  unfold remove_edges_from.
  induction es as [|e es IH]; intro G0; cbn [fold_left]; [reflexivity|].
  now rewrite IH, nodes_remove_edge.
Qed.

Lemma In_del_key l v x : In x (del_key l v) -> In x l.
Proof. unfold del_key. rewrite filter_In. tauto. Qed.

(** Removing an edge only shrinks neighbourhoods. *)
Lemma neighbors_remove_edge_sub G0 u v x y :
  In y (neighbors (remove_edge G0 u v) x) -> In y (neighbors G0 x).
Proof.
  unfold remove_edge. destruct (has_node G0 u && has_edge G0 u v); [|tauto].
  destruct (u =? v).
  - rewrite neighbors_set_adj.
    destruct (has_node G0 u && (u =? x)) eqn:E; [|tauto].
    apply andb_prop in E as [_ E]. apply Nat.eqb_eq in E. subst x.
    apply In_del_key.
  - rewrite neighbors_set_adj.
    destruct (has_node _ v && (v =? x)) eqn:E.
    + apply andb_prop in E as [_ E]. apply Nat.eqb_eq in E. subst x.
      intro H. apply In_del_key in H. revert H.
      rewrite neighbors_set_adj.
      destruct (has_node G0 u && (u =? v)) eqn:E'; [|tauto].
      apply andb_prop in E' as [_ E']. apply Nat.eqb_eq in E'. subst v.
      apply In_del_key.
    + rewrite neighbors_set_adj.
      destruct (has_node G0 u && (u =? x)) eqn:E'; [|tauto].
      apply andb_prop in E' as [_ E']. apply Nat.eqb_eq in E'. subst x.
      apply In_del_key.
Qed.

Lemma neighbors_remove_edges_from_sub es : forall G0 x y,
    In y (neighbors (remove_edges_from G0 es) x) -> In y (neighbors G0 x).
Proof.
  unfold remove_edges_from.
  induction es as [|e es IH]; intros G0 x y; cbn [fold_left]; [tauto|].
  intro H. apply IH in H. now apply neighbors_remove_edge_sub in H.
Qed.

Lemma mem_del_key_ne l b w : w <> b -> mem w (del_key l b) = mem w l.
Proof.
  intro Hne. unfold del_key, mem.
  induction l as [|a l IH]; [reflexivity|].
  cbn [filter existsb]. destruct (Nat.eqb_spec a b) as [->|Hab]; cbn [negb existsb].
  - destruct (Nat.eqb_spec w b); [congruence | exact IH].
  - now rewrite IH.
Qed.

(** Removing an edge leaves the adjacency of every other pair alone. *)
Lemma has_edge_remove_edge_other G0 a b u w :
  ~ (a = u /\ b = w) -> ~ (a = w /\ b = u) ->
  has_edge (remove_edge G0 a b) u w = has_edge G0 u w.
Proof.
  intros H1 H2. unfold remove_edge.
  destruct (has_node G0 a && has_edge G0 a b); [|reflexivity].
  unfold has_edge.
  assert (Ha : forall G', mem w (if has_node G' a && (a =? u)
                                 then del_key (neighbors G0 a) b
                                 else neighbors G0 u)
                          = mem w (neighbors G0 u)).
  { intro G'. destruct (has_node G' a && (a =? u)) eqn:E; [|reflexivity].
    apply andb_prop in E as [_ E]. apply Nat.eqb_eq in E. subst u.
    apply mem_del_key_ne. intro; subst; tauto. }
  destruct (a =? b).
  - rewrite neighbors_set_adj. apply Ha.
  - rewrite neighbors_set_adj.
    destruct (has_node _ b && (b =? u)) eqn:E.
    + apply andb_prop in E as [_ E]. apply Nat.eqb_eq in E. subst u.
      rewrite mem_del_key_ne by (intro; subst; tauto).
      rewrite neighbors_set_adj. apply Ha.
    + rewrite neighbors_set_adj. apply Ha.
Qed.

Lemma closed_Closed G0 : closed G0 = true <-> Closed G0.
Proof.
  unfold closed, Closed. rewrite forallb_forall.
  split; intros H e He.
  - specialize (H e He). rewrite forallb_forall in H.
    intros v Hv. apply mem_In. now apply H.
  - apply forallb_forall. intros v Hv. apply mem_In. now apply (H e He).
Qed.

Lemma adj_In G0 u ns : adj G0 u = Some ns -> In (u, ns) G0.
Proof.
  induction G0 as [|[n old] G' IH]; cbn [adj]; [discriminate|].
  destruct (Nat.eqb_spec n u) as [->|Hne]; intro H.
  - injection H as ->. now left.
  - right. now apply IH.
Qed.

Lemma Closed_neighbors G0 u v :
  Closed G0 -> In v (neighbors G0 u) -> In v (nodes G0).
Proof.
  unfold neighbors. intros HC Hv.
  destruct (adj G0 u) as [ns|] eqn:E; [|contradiction].
  apply adj_In in E. exact (HC _ E v Hv).
Qed.

Lemma In_set_adj G0 u ns e :
  In e (set_adj G0 u ns) -> In e G0 \/ snd e = ns.
Proof.
  induction G0 as [|[n old] G' IH]; cbn [set_adj]; [tauto|].
  destruct (n =? u); cbn [In]; intros [H|H]; subst; cbn [snd]; auto.
  destruct (IH H); auto.
Qed.

Lemma Closed_set_adj G0 u ns :
  Closed G0 -> (forall v, In v ns -> In v (nodes G0)) ->
  Closed (set_adj G0 u ns).
Proof.
  intros HC Hns e He v Hv. rewrite nodes_set_adj.
  destruct (In_set_adj _ _ _ _ He) as [H|H].
  - exact (HC e H v Hv).
  - rewrite H in Hv. now apply Hns.
Qed.

Lemma Closed_remove_edge G0 u v : Closed G0 -> Closed (remove_edge G0 u v).
Proof.
  intro HC. unfold remove_edge.
  destruct (has_node G0 u && has_edge G0 u v); [|exact HC].
  assert (H1 : Closed (set_adj G0 u (del_key (neighbors G0 u) v))).
  { apply Closed_set_adj; [exact HC|].
    intros x Hx. apply In_del_key in Hx. now apply Closed_neighbors in Hx. }
  destruct (u =? v); [exact H1|].
  apply Closed_set_adj; [exact H1|].
  intros x Hx. apply In_del_key in Hx. now apply Closed_neighbors in Hx.
Qed.

Lemma Closed_remove_edges_from es : forall G0,
    Closed G0 -> Closed (remove_edges_from G0 es).
Proof.
  unfold remove_edges_from.
  induction es as [|e es IH]; intros G0 HC; cbn [fold_left]; [exact HC|].
  apply IH. now apply Closed_remove_edge.
Qed.

Lemma In_add_key l v x : In x (add_key l v) -> In x l \/ x = v.
Proof.
  unfold add_key. destruct (mem v l); [tauto|].
  rewrite in_app_iff. cbn [In]. intuition.
Qed.

(** Adding an edge between two nodes of the graph adds no node. *)
Lemma add_edge_nodes G0 u v :
  In u (nodes G0) -> In v (nodes G0) ->
  nodes (add_edge G0 u v) = nodes G0.
Proof.
  intros Hu Hv. unfold add_edge, add_node.
  apply has_node_In in Hu. rewrite Hu.
  apply has_node_In in Hv. rewrite Hv.
  now rewrite !nodes_set_adj.
Qed.

Lemma Closed_add_edge G0 u v :
  Closed G0 -> In u (nodes G0) -> In v (nodes G0) ->
  Closed (add_edge G0 u v).
Proof.
  intros HC Hu Hv. unfold add_edge, add_node.
  pose proof Hu as Hu'. pose proof Hv as Hv'.
  apply has_node_In in Hu'. rewrite Hu'.
  apply has_node_In in Hv'. rewrite Hv'.
  assert (H1 : Closed (set_adj G0 u (add_key (neighbors G0 u) v))).
  { apply Closed_set_adj; [exact HC|].
    intros x Hx. apply In_add_key in Hx as [Hx| ->]; [|exact Hv].
    now apply Closed_neighbors in Hx. }
  apply Closed_set_adj; [exact H1|].
  intros x Hx. apply In_add_key in Hx as [Hx| ->].
  - apply Closed_neighbors in Hx; [exact Hx | exact H1].
  - now rewrite nodes_set_adj.
Qed.

Lemma add_edges_from_nodes es : forall G0,
    Closed G0 ->
    (forall e, In e es -> In (fst e) (nodes G0) /\ In (snd e) (nodes G0)) ->
    nodes (add_edges_from G0 es) = nodes G0
    /\ Closed (add_edges_from G0 es).
Proof.
  unfold add_edges_from.
  induction es as [|e es IH]; intros G0 HC Hes; cbn [fold_left]; [auto|].
  destruct (Hes e (or_introl eq_refl)) as [Hu Hv].
  destruct (IH (add_edge G0 (fst e) (snd e))) as [Hn Hc].
  - now apply Closed_add_edge.
  - intros e' He'. rewrite add_edge_nodes by assumption.
    apply Hes. now right.
  - split; [|exact Hc]. rewrite Hn. now apply add_edge_nodes.
Qed.

(** Graphs built through the interface satisfy the invariant. *)
Lemma Closed_add_node G0 u : Closed G0 -> Closed (add_node G0 u).
Proof.
  intro HC. unfold add_node. destruct (has_node G0 u); [exact HC|].
  intros e He v Hv. unfold nodes. rewrite map_app. apply in_or_app.
  apply in_app_or in He as [He|[<-|[]]].
  - left. exact (HC e He v Hv).
  - contradiction.
Qed.

Lemma In_nodes_add_node G0 u x :
  In x (nodes G0) \/ x = u -> In x (nodes (add_node G0 u)).
Proof.
  unfold add_node. destruct (has_node G0 u) eqn:E.
  - intros [H| ->]; [exact H | now apply has_node_In].
  - unfold nodes. rewrite map_app. cbn [map fst]. intros [H| ->];
      apply in_or_app; [now left | right; now left].
Qed.

Lemma add_edge_via_nodes G0 u v :
  add_edge G0 u v = add_edge (add_node (add_node G0 u) v) u v.
Proof.
  unfold add_edge.
  set (G2 := add_node (add_node G0 u) v).
  assert (Hu : has_node G2 u = true).
  { apply has_node_In. unfold G2. apply In_nodes_add_node. left.
    apply In_nodes_add_node. now right. }
  assert (Hv : has_node G2 v = true).
  { apply has_node_In. unfold G2. apply In_nodes_add_node. now right. }
  assert (E1 : add_node G2 u = G2) by (unfold add_node; now rewrite Hu).
  assert (E2 : add_node G2 v = G2) by (unfold add_node; now rewrite Hv).
  now rewrite E1, E2.
Qed.

Lemma Closed_add_edge_any G0 u v : Closed G0 -> Closed (add_edge G0 u v).
Proof.
  intro HC. rewrite add_edge_via_nodes. apply Closed_add_edge.
  - now apply Closed_add_node, Closed_add_node.
  - apply In_nodes_add_node. left. apply In_nodes_add_node. now right.
  - apply In_nodes_add_node. now right.
Qed.

Lemma Closed_add_edges_from es : forall G0,
    Closed G0 -> Closed (add_edges_from G0 es).
Proof.
  unfold add_edges_from.
  induction es as [|e es IH]; intros G0 HC; cbn [fold_left]; [exact HC|].
  apply IH. now apply Closed_add_edge_any.
Qed.

Lemma build_closed ns es : closed (build ns es) = true.
Proof.
  apply closed_Closed. unfold build. apply Closed_add_edges_from.
  unfold add_nodes_from.
  assert (H0 : Closed []) by (intros e []).
  revert H0. generalize (@nil (node * list node)).
  induction ns as [|n ns IH]; intros G0 HC; cbn [fold_left]; [exact HC|].
  apply IH. now apply Closed_add_node.
Qed.

Lemma ring_lattice_closed n k : closed (ring_lattice n k) = true.
Proof.
  apply closed_Closed. unfold ring_lattice.
  assert (H0 : Closed []) by (intros e []).
  revert H0. generalize (@nil (node * list node)).
  induction (seq 1 (k / 2)) as [|j js IH]; intros G0 HC; cbn [fold_left];
    [exact HC|].
  apply IH. now apply Closed_add_edges_from.
Qed.

End NxFacts.

(** ** The rewiring engine *)

Section RewiringFacts.

Context {R : Type} {RNG : PyRandom R} {SET : PySet}.

Lemma node_set_In l x : In x (node_set l) <-> In x l.
Proof. apply set_iter_In. Qed.

Lemma edge_set_In l e : In e (edge_set l) <-> In e l.
Proof. apply set_iter_In. Qed.

Lemma mem_node_set l n : Nx.mem n (node_set l) = Nx.mem n l.
Proof.
  destruct (Nx.mem n l) eqn:E.
  - apply NxFacts.mem_In. apply (proj2 (node_set_In l n)).
    now apply NxFacts.mem_In.
  - destruct (Nx.mem n (node_set l)) eqn:E'; [|reflexivity].
    apply NxFacts.mem_In in E'. apply (proj1 (node_set_In l n)) in E'.
    apply NxFacts.mem_In in E'. congruence.
Qed.

Lemma node_set_nil : node_set [] = [].
Proof.
  destruct (node_set []) as [|x l] eqn:E; [reflexivity|].
  exfalso. apply (proj1 (node_set_In [] x)). rewrite E. now left.
Qed.

Lemma edge_set_nil : edge_set [] = [].
Proof.
  destruct (edge_set []) as [|x l] eqn:E; [reflexivity|].
  exfalso. apply (proj1 (edge_set_In [] x)). rewrite E. now left.
Qed.

(** A sample only holds members of the population. *)
Lemma sample_In pop k g x :
  k <= length pop -> In x (fst (rnd_sample pop k g)) -> In x pop.
Proof.
  intros Hk Hx. destruct (rnd_sample_sub pop k g Hk) as [rest HP].
  apply (Permutation_in x HP). apply in_or_app. now left.
Qed.

(** Rule 1 removes only edges of the snapshot that join a susceptible and
    an infected node. *)
Lemma cut_scan_sound st a es : forall g e,
    In e (fst (cut_scan st a es g)) ->
    In e es /\ s_i_edge st (fst e) (snd e) = true.
Proof.
  induction es as [|[u v] es IH]; intros g e; cbn [cut_scan fst In]; [tauto|].
  destruct (s_i_edge st u v) eqn:Esi.
  - destruct (rnd_random g) as [r g1].
    specialize (IH g1 e). destruct (cut_scan st a es g1) as [rest g2].
    cbn [fst] in *. destruct (Qltb r a); cbn [In].
    + intros [<-|H]; [auto | destruct (IH H); auto].
    + intro H. destruct (IH H); auto.
  - intro H. destruct (IH g e H); auto.
Qed.

Lemma cut_endpoints_S st removed x :
  In x (cut_endpoints st removed) -> is_S (st x) = true.
Proof.
  unfold cut_endpoints. rewrite in_flat_map. intros [e [_ Hx]].
  apply in_app_or in Hx as [Hx|Hx].
  - destruct (is_S (st (fst e))) eqn:E; [|contradiction].
    destruct Hx as [<-|[]]. exact E.
  - destruct (is_S (st (snd e))) eqn:E; [|contradiction].
    destruct Hx as [<-|[]]. exact E.
Qed.

Lemma scan_w_sound G0 st m u ws : forall g e g',
    scan_w G0 st m u ws g = (Some e, g') ->
    exists w, e = (u, w) /\ In w ws /\ w <> u /\ is_S (st w) = true
              /\ Nx.has_edge G0 u w = false.
Proof.
  induction ws as [|w ws IH]; intros g e g'; cbn [scan_w]; [discriminate|].
  destruct ((w =? u) || negb (is_S (st w)) || Nx.has_edge G0 u w) eqn:Eskip.
  - intro H. destruct (IH _ _ _ H) as [w' Hw']. exists w'. cbn [In]. tauto.
  - apply orb_false_elim in Eskip as [Eskip He].
    apply orb_false_elim in Eskip as [Hwu Hs].
    apply Nat.eqb_neq in Hwu. apply negb_false_iff in Hs.
    destruct (rnd_random g) as [r g1]. destruct (Qltb r m).
    + intro H. injection H as <- <-. exists w. cbn [In]. auto.
    + intro H. destruct (IH _ _ _ H) as [w' Hw']. exists w'. cbn [In]. tauto.
Qed.

Lemma scan_v_sound G0 st m u vs : forall g e,
    In e (fst (scan_v G0 st m u vs g)) ->
    exists v w, e = (u, w) /\ In v vs /\ is_S (st v) = true
                /\ In w (Nx.neighbors G0 v) /\ w <> u /\ is_S (st w) = true
                /\ Nx.has_edge G0 u w = false.
Proof.
  induction vs as [|v vs IH]; intros g e; cbn [scan_v fst In]; [tauto|].
  destruct (is_S (st v)) eqn:Ev; cbn [negb].
  - destruct (scan_w G0 st m u (node_set (Nx.neighbors G0 v)) g)
      as [found g1] eqn:Ew.
    specialize (IH g1 e). destruct (scan_v G0 st m u vs g1) as [rest g2].
    cbn [fst] in *.
    assert (Hrest : In e rest ->
                    exists v0 w, e = (u, w) /\ (v = v0 \/ In v0 vs)
                                 /\ is_S (st v0) = true
                                 /\ In w (Nx.neighbors G0 v0) /\ w <> u
                                 /\ is_S (st w) = true
                                 /\ Nx.has_edge G0 u w = false).
    { intro H. destruct (IH H) as [v0 [w Hvw]]. exists v0, w. tauto. }
    destruct found as [e0|]; [|exact Hrest].
    cbn [In]. intros [<-|H]; [|now apply Hrest].
    destruct (scan_w_sound _ _ _ _ _ _ _ _ Ew) as [w [-> [Hin Hw]]].
    apply (proj1 (node_set_In _ _)) in Hin. exists v, w. intuition auto.
  - intro H. destruct (IH g e H) as [v0 [w Hvw]]. exists v0, w. tauto.
Qed.

(** Every proposal recorded by the scan closes an open triangle of the
    scanned graph whose seed is one of the nodes to check. *)
Lemma scan_u_sound G0 st m us : forall g e,
    In e (fst (scan_u G0 st m us g)) ->
    exists v, In (fst e) us /\ Nx.has_node G0 (fst e) = true
              /\ open_triangle G0 st (fst e) v (snd e).
Proof.
  induction us as [|u us IH]; intros g e; cbn [scan_u fst In]; [tauto|].
  destruct (Nx.has_node G0 u) eqn:Eu; cbn [negb].
  - destruct (scan_v G0 st m u (node_set (Nx.neighbors G0 u)) g)
      as [es1 g1] eqn:Ev.
    specialize (IH g1 e). destruct (scan_u G0 st m us g1) as [es2 g2].
    cbn [fst] in *. intro H. apply in_app_or in H as [H|H].
    + pose proof (scan_v_sound G0 st m u (node_set (Nx.neighbors G0 u)) g e) as Hs.
      rewrite Ev in Hs. destruct (Hs H) as [v [w [-> [Hv Hrest]]]].
      apply (proj1 (node_set_In _ _)) in Hv. exists v. cbn [fst snd].
      unfold open_triangle. tauto.
    + destruct (IH H) as [v Hv]. exists v. tauto.
  - intro H. destruct (IH g e H) as [v Hv]. exists v. tauto.
Qed.

(** Neither endpoint of a removed edge pair is a pair of susceptible
    nodes, so adjacency between susceptible nodes survives Rule 1. *)
Lemma has_edge_after_cut st removed : forall G0 u w,
    (forall e, In e removed -> s_i_edge st (fst e) (snd e) = true) ->
    is_S (st u) = true -> is_S (st w) = true ->
    Nx.has_edge (Nx.remove_edges_from G0 removed) u w = Nx.has_edge G0 u w.
Proof.
  unfold Nx.remove_edges_from.
  induction removed as [|[a b] es IH]; intros G0 u w Hsi Hu Hw;
    cbn [fold_left fst snd]; [reflexivity|].
  rewrite IH; [|intros e He; apply Hsi; now right | exact Hu | exact Hw].
  pose proof (Hsi (a, b) (or_introl eq_refl)) as Hab. cbn [fst snd] in Hab.
  unfold s_i_edge in Hab.
  apply NxFacts.has_edge_remove_edge_other; intros [-> ->];
    destruct (st u), (st w); discriminate.
Qed.

(** The facts about one rewiring that the properties below rest on. *)
Lemma rewire_facts sim g rw g' :
  rewire sim g = (rw, g') ->
  (forall e, In e (edges_to_remove rw) ->
             In e (Nx.edges (G sim))
             /\ s_i_edge (state sim) (fst e) (snd e) = true)
  /\ G_cut rw = Nx.remove_edges_from (G sim) (edges_to_remove rw)
  /\ (forall u, In u (nodes_to_check rw) -> is_S (state sim u) = true)
  /\ (forall e, In e (proposals rw) ->
                exists v, In (fst e) (nodes_to_check rw)
                          /\ Nx.has_node (G_cut rw) (fst e) = true
                          /\ open_triangle (G_cut rw) (state sim)
                                           (fst e) v (snd e))
  /\ (forall e, In e (edges_to_add rw) <-> In e (proposals rw)).
Proof.
  unfold rewire.
  pose proof (cut_scan_sound (state sim) (alpha sim) (Nx.edges (G sim)) g) as Hcut.
  destruct (cut_scan (state sim) (alpha sim) (Nx.edges (G sim)) g)
    as [removed g1]. cbn [fst] in Hcut.
  set (G1 := Nx.remove_edges_from (G sim) removed).
  set (pop := filter (fun n => is_S (state sim n)) (Nx.nodes G1)).
  set (from_cut := cut_endpoints (state sim) removed).
  assert (Hcheck : forall tc g2,
             (if (length (node_set from_cut) =? 0) && (0 <? length pop)
              then let (smp, g0) := rnd_sample pop (Nat.min 50 (length pop)) g1 in
                   (node_set smp, g0)
              else (node_set from_cut, g1)) = (tc, g2) ->
             forall u, In u tc -> is_S (state sim u) = true).
  { intros tc g2.
    destruct ((length (node_set from_cut) =? 0) && (0 <? length pop)).
    - pose proof (sample_In pop (Nat.min 50 (length pop)) g1) as Hs.
      destruct (rnd_sample pop (Nat.min 50 (length pop)) g1) as [smp g0].
      cbn [fst] in Hs. intro H. injection H as <- <-.
      intros u Hu. apply (proj1 (node_set_In _ _)) in Hu.
      apply Hs in Hu; [|apply Nat.le_min_r].
      unfold pop in Hu. apply filter_In in Hu. tauto.
    - intro H. injection H as <- <-. intros u Hu.
      apply (proj1 (node_set_In _ _)) in Hu. now apply cut_endpoints_S in Hu. }
  destruct (if (length (node_set from_cut) =? 0) && (0 <? length pop)
            then _ else _) as [tc g2] eqn:Etc.
  specialize (Hcheck tc g2 eq_refl).
  pose proof (scan_u_sound G1 (state sim) (mu sim) tc g2) as Hscan.
  destruct (scan_u G1 (state sim) (mu sim) tc g2) as [props g3].
  cbn [fst] in Hscan.
  intro H. injection H as <- <-.
  cbn [edges_to_remove G_cut nodes_to_check proposals edges_to_add].
  split; [exact Hcut|]. split; [reflexivity|]. split; [exact Hcheck|].
  split; [exact Hscan|]. intro e. apply edge_set_In.
Qed.

Lemma rewire_edges_to_add sim g :
  edges_to_add (fst (rewire sim g))
  = edge_set (proposals (fst (rewire sim g))).
Proof.
  unfold rewire.
  destruct (cut_scan _ _ _ g) as [removed g1].
  destruct (if _ : bool then _ else _) as [tc g2].
  destruct (scan_u _ _ _ tc g2) as [props g3]. reflexivity.
Qed.

End RewiringFacts.

(** ** One step of the engine *)

Lemma set_all_spec l : forall st s n,
    set_all st l s n = if Nx.mem n l then s else st n.
Proof.
  unfold set_all, Nx.mem.
  induction l as [|a l IH]; intros st s n; cbn [fold_left existsb]; [reflexivity|].
  rewrite IH. unfold set_state.
  destruct (existsb (Nat.eqb n) l); [now rewrite orb_true_r|].
  now rewrite orb_false_r.
Qed.

Lemma transition_code s s' : transition s s' -> code s <= code s'.
Proof. intros [->|[[-> ->]|[-> ->]]]; cbn [code]; lia. Qed.

Section StepFacts.

Context {R : Type} {RNG : PyRandom R} {SET : PySet}.

Lemma infect_scan_sound G0 st b ns : forall g n,
    In n (fst (infect_scan G0 st b ns g)) ->
    In n ns /\ is_S (st n) = true.
Proof.
  induction ns as [|a ns IH]; intros g n; cbn [infect_scan fst In]; [tauto|].
  destruct (is_S (st a)) eqn:Ea; [|intro H; destruct (IH g n H); auto].
  destruct (0 <? infected_neighbors G0 st a);
    [|intro H; destruct (IH g n H); auto].
  destruct (rnd_random g) as [r g1]. specialize (IH g1 n).
  destruct (infect_scan G0 st b ns g1) as [rest g2]. cbn [fst] in *.
  destruct (Qltb r (p_infection b (infected_neighbors G0 st a))); cbn [In].
  - intros [<-|H]; [auto | destruct (IH H); auto].
  - intro H. destruct (IH H); auto.
Qed.

Lemma recover_scan_sound st ga ns : forall g n,
    In n (fst (recover_scan st ga ns g)) ->
    In n ns /\ is_I (st n) = true.
Proof.
  induction ns as [|a ns IH]; intros g n; cbn [recover_scan fst In]; [tauto|].
  destruct (is_I (st a)) eqn:Ea; [|intro H; destruct (IH g n H); auto].
  destruct (rnd_random g) as [r g1]. specialize (IH g1 n).
  destruct (recover_scan st ga ns g1) as [rest g2]. cbn [fst] in *.
  destruct (Qltb r ga); cbn [In].
  - intros [<-|H]; [auto | destruct (IH H); auto].
  - intro H. destruct (IH H); auto.
Qed.

(** [epidemic_step] touches the states only, and moves every node along
    the state machine. *)
Lemma epidemic_step_shape sim g :
  exists out st' g',
    epidemic_step sim g = (out, with_state sim st', g')
    /\ forall n, transition (state sim n) (st' n).
Proof.
  unfold epidemic_step.
  pose proof (infect_scan_sound (G sim) (state sim) (beta sim)
                                (Nx.nodes (G sim)) g) as Hi.
  destruct (infect_scan (G sim) (state sim) (beta sim) (Nx.nodes (G sim)) g)
    as [ti g1].
  pose proof (recover_scan_sound (state sim) (gamma sim)
                                 (Nx.nodes (G sim)) g1) as Hr.
  destruct (recover_scan (state sim) (gamma sim) (Nx.nodes (G sim)) g1)
    as [tr g2].
  cbn [fst] in *. eexists _, _, _. split; [reflexivity|].
  intro n. rewrite !set_all_spec. unfold transition.
  destruct (Nx.mem n (node_set tr)) eqn:Etr.
  - apply NxFacts.mem_In, node_set_In, Hr in Etr as [_ Etr].
    destruct (state sim n); try discriminate. auto.
  - destruct (Nx.mem n (node_set ti)) eqn:Eti; [|auto].
    apply NxFacts.mem_In, node_set_In, Hi in Eti as [_ Eti].
    destruct (state sim n); try discriminate. auto.
Qed.

(** [adaptive_step] touches the graph only; on a graph whose neighbours
    are nodes it keeps the node list and that invariant. *)
Lemma adaptive_step_shape sim g :
  exists out G' g',
    adaptive_step sim g = (out, with_G sim G', g')
    /\ G' = Nx.add_edges_from (G_cut (fst (rewire sim g)))
                              (edges_to_add (fst (rewire sim g)))
    /\ (Nx.Closed (G sim) ->
        Nx.nodes G' = Nx.nodes (G sim) /\ Nx.Closed G').
Proof.
  unfold adaptive_step.
  destruct (rewire sim g) as [rw g'] eqn:Erw. cbn [fst].
  eexists _, _, _. split; [reflexivity|]. split; [reflexivity|].
  intro HC.
  destruct (rewire_facts _ _ _ _ Erw) as (_ & HG & _ & Hprops & Hadd).
  assert (HC1 : Nx.Closed (G_cut rw)).
  { rewrite HG. now apply NxFacts.Closed_remove_edges_from. }
  assert (Hn1 : Nx.nodes (G_cut rw) = Nx.nodes (G sim)).
  { rewrite HG. apply NxFacts.nodes_remove_edges_from. }
  rewrite <- Hn1. apply NxFacts.add_edges_from_nodes; [exact HC1|].
  intros e He. apply Hadd, Hprops in He as (v & _ & Hu & Ht).
  destruct Ht as (Hv & _ & Hw & _).
  split; [now apply NxFacts.has_node_In|].
  apply (NxFacts.Closed_neighbors _ v); [exact HC1 | exact Hw].
Qed.

Lemma count_fold (st : StateMap) ns : forall s0 i0 r0,
    let '(s, i, r) :=
      fold_left (fun c n =>
                   let '(s, i, r) := c in
                   match st n with
                   | SUSCEPTIBLE => (s + 1, i, r)
                   | INFECTED => (s, i + 1, r)
                   | RECOVERED => (s, i, r + 1)
                   end) ns (s0, i0, r0) in
    s + i + r = s0 + i0 + r0 + length ns.
Proof.
  induction ns as [|n ns IH]; intros s0 i0 r0; cbn [fold_left length]; [lia|].
  destruct (st n).
  - specialize (IH (s0 + 1) i0 r0).
    destruct (fold_left _ ns (s0 + 1, i0, r0)) as [[s i] r]. lia.
  - specialize (IH s0 (i0 + 1) r0).
    destruct (fold_left _ ns (s0, i0 + 1, r0)) as [[s i] r]. lia.
  - specialize (IH s0 i0 (r0 + 1)).
    destruct (fold_left _ ns (s0, i0, r0 + 1)) as [[s i] r]. lia.
Qed.

Lemma count_states_sum sim :
  let '(s, i, r) := count_states sim in
  s + i + r = Nx.number_of_nodes (G sim).
Proof.
  unfold count_states, counts, Nx.number_of_nodes.
  pose proof (count_fold (state sim) (Nx.nodes (G sim)) 0 0 0) as H.
  destruct (fold_left _ (Nx.nodes (G sim)) (0, 0, 0)) as [[s i] r].
  rewrite H. unfold Nx.nodes. rewrite length_map. lia.
Qed.

(** The metrics computation never raises. *)
Lemma compute_network_metrics_ok sim :
  exists m, compute_network_metrics sim = Ok m.
Proof.
  unfold compute_network_metrics, truediv, Nx.number_of_nodes.
  destruct (G sim) as [|e G'] eqn:EG.
  - cbn. eexists. reflexivity.
  - destruct (0 <? Nx.number_of_edges (e :: G')); cbn [length Nat.eqb];
      eexists; reflexivity.
Qed.

End StepFacts.

(** ** The driver *)

Section RunFacts.

Context {R : Type} {RNG : PyRandom R} {SET : PySet}.

Lemma record_step_ok track sim t s i r :
  count_states sim = (s, i, r) ->
  exists nm,
    record_step track sim t
    = Ok (i, with_series sim (record_counts (time_series sim) s i r t) nm)
    /\ (track = false -> nm = network_metrics sim).
Proof.
  intro Hc. unfold record_step. rewrite Hc. destruct track.
  - destruct (compute_network_metrics_ok sim) as [m ->].
    eexists. split; [reflexivity | discriminate].
  - eexists. split; reflexivity.
Qed.

Lemma every_entry_record P ts s i r t :
  every_entry P ts -> P t s i r ->
  every_entry P (record_counts ts s i r t).
Proof.
  intros (HS & HI & HR & Hall) HP. unfold every_entry, record_counts.
  cbn [ts_S ts_I ts_R ts_t]. rewrite !length_app. cbn [length].
  repeat split; try lia.
  intros k Hk. destruct (Nat.eq_dec k (length (ts_t ts))) as [->|Hne].
  - rewrite nth_middle. rewrite <- HS at 1. rewrite nth_middle.
    rewrite <- HI at 1. rewrite nth_middle.
    rewrite <- HR at 1. rewrite nth_middle. exact HP.
  - rewrite !app_nth1 by lia. apply Hall. lia.
Qed.

Lemma run_loop_S left t track sim g :
  run_loop (S left) t track sim g
  = match record_step track sim t with
    | Raise e => (Raise e, g)
    | Ok (i, sim1) =>
        if i =? 0 then (Ok sim1, g)
        else
          let '(_, sim2, g1) := adaptive_step sim1 g in
          let '(_, sim3, g2) := epidemic_step sim2 g1 in
          run_loop left (t + 1) track sim3 g2
    end.
Proof. reflexivity. Qed.

(** Along the loop the node list is kept and every appended entry adds up
    to its length. *)
Lemma run_loop_conserves n0 : forall left t track sim g,
    Nx.Closed (G sim) ->
    length (Nx.nodes (G sim)) = n0 ->
    every_entry (fun _ s i r => s + i + r = n0) (time_series sim) ->
    exists sim' g',
      run_loop left t track sim g = (Ok sim', g')
      /\ N sim' = N sim
      /\ length (Nx.nodes (G sim')) = n0
      /\ every_entry (fun _ s i r => s + i + r = n0) (time_series sim').
Proof.
  induction left as [|left IH]; intros t track sim g HC Hn Hts; cbn [run_loop].
  - eexists _, _. split; [reflexivity|]. auto.
  - pose proof (count_states_sum sim) as Hsum.
    destruct (count_states sim) as [[s i] r] eqn:Ec.
    destruct (record_step_ok track sim t s i r Ec) as (nm & -> & _).
    assert (Hts' : every_entry (fun _ s i r => s + i + r = n0)
                               (record_counts (time_series sim) s i r t)).
    { apply every_entry_record; [exact Hts|].
      rewrite Hsum. unfold Nx.number_of_nodes.
      unfold Nx.nodes in Hn. now rewrite length_map in Hn. }
    set (sim1 := with_series sim _ nm).
    destruct (i =? 0).
    + eexists _, _. split; [reflexivity|]. auto.
    + destruct (adaptive_step_shape sim1 g) as (o1 & G' & g1 & -> & _ & HG').
      destruct (HG' HC) as [Hnodes HC'].
      destruct (epidemic_step_shape (with_G sim1 G') g1)
        as (o2 & st' & g2 & -> & _).
      destruct (IH (t + 1) track (with_state (with_G sim1 G') st') g2)
        as (sim' & g' & Hrun & HN & Hlen & Hent).
      * exact HC'.
      * cbn [G with_state with_G]. now rewrite Hnodes.
      * exact Hts'.
      * exists sim', g'. auto.
Qed.

(** A run capped one step later ends in the same states or one
    [epidemic_step] further. *)
Lemma run_loop_succ : forall left t track sim g,
    exists s1 g1 s2 g2,
      run_loop left t track sim g = (Ok s1, g1)
      /\ run_loop (S left) t track sim g = (Ok s2, g2)
      /\ forall n, transition (state s1 n) (state s2 n).
Proof.
  induction left as [|left IH]; intros t track sim g.
  - cbn [run_loop].
    destruct (count_states sim) as [[s i] r] eqn:Ec.
    destruct (record_step_ok track sim t s i r Ec) as (nm & -> & _).
    set (sim1 := with_series sim _ nm).
    destruct (i =? 0).
    + eexists _, _, _, _. split; [reflexivity|]. split; [reflexivity|].
      intro n. now left.
    + destruct (adaptive_step_shape sim1 g) as (o1 & G' & g1 & -> & _).
      destruct (epidemic_step_shape (with_G sim1 G') g1)
        as (o2 & st' & g2 & -> & Htr).
      eexists _, _, _, _. split; [reflexivity|]. split; [reflexivity|].
      exact Htr.
  - rewrite (run_loop_S (S left)), (run_loop_S left).
    destruct (count_states sim) as [[s i] r] eqn:Ec.
    destruct (record_step_ok track sim t s i r Ec) as (nm & -> & _).
    set (sim1 := with_series sim _ nm).
    destruct (i =? 0).
    + eexists _, _, _, _. split; [reflexivity|]. split; [reflexivity|].
      intro n. now left.
    + destruct (adaptive_step_shape sim1 g) as (o1 & G' & g1 & -> & _).
      destruct (epidemic_step_shape (with_G sim1 G') g1)
        as (o2 & st' & g2 & -> & _).
      apply IH.
Qed.

Lemma run_loop_ok left t track sim g :
  exists s1 g1, run_loop left t track sim g = (Ok s1, g1).
Proof.
  destruct (run_loop_succ left t track sim g) as (s1 & g1 & _ & _ & H & _).
  eauto.
Qed.

(** States only move forward between a run and a longer one. *)
Lemma run_loop_monotone left t track sim g : forall d,
    exists s1 g1 s3 g3,
      run_loop left t track sim g = (Ok s1, g1)
      /\ run_loop (left + d) t track sim g = (Ok s3, g3)
      /\ forall n, code (state s1 n) <= code (state s3 n).
Proof.
  induction d as [|d IH].
  - rewrite Nat.add_0_r.
    destruct (run_loop_ok left t track sim g) as (s1 & g1 & H).
    exists s1, g1, s1, g1. auto.
  - destruct IH as (s1 & g1 & s3 & g3 & H1 & H3 & Hle).
    destruct (run_loop_succ (left + d) t track sim g)
      as (s3' & g3' & s4 & g4 & H3' & H4 & Htr).
    rewrite H3 in H3'. injection H3' as <- <-.
    exists s1, g1, s4, g4. rewrite Nat.add_succ_r.
    split; [exact H1|]. split; [exact H4|].
    intro n. specialize (Hle n). pose proof (transition_code _ _ (Htr n)). lia.
Qed.

Lemma rewire_with_series sim ts nm g :
  rewire (with_series sim ts nm) g = rewire sim g.
Proof. reflexivity. Qed.

(** Both steps ignore the recorded series and carry them along. *)
Lemma adaptive_step_with_series sim ts nm g :
  adaptive_step (with_series sim ts nm) g
  = let '(o, s, g') := adaptive_step sim g in (o, with_series s ts nm, g').
Proof.
  unfold adaptive_step. rewrite rewire_with_series.
  destruct (rewire sim g). reflexivity.
Qed.

Lemma epidemic_step_with_series sim ts nm g :
  epidemic_step (with_series sim ts nm) g
  = let '(o, s, g') := epidemic_step sim g in (o, with_series s ts nm, g').
Proof.
  unfold epidemic_step. cbn [G state beta gamma with_series].
  destruct (infect_scan _ _ _ _ g) as [ti g1].
  destruct (recover_scan _ _ _ g1) as [tr g2]. reflexivity.
Qed.

(** The loop with and without metrics, started from objects that differ in
    the recorded metrics only. *)
Lemma run_loop_track : forall left t base ts nm1 nm2 g,
    exists simT simF g',
      run_loop left t true (with_series base ts nm1) g = (Ok simT, g')
      /\ run_loop left t false (with_series base ts nm2) g = (Ok simF, g')
      /\ time_series simT = time_series simF
      /\ G simT = G simF
      /\ state simT = state simF.
Proof.
  induction left as [|left IH]; intros t base ts nm1 nm2 g; cbn [run_loop].
  - eexists _, _, _. repeat split; reflexivity.
  - destruct (count_states base) as [[s i] r] eqn:Ec.
    destruct (record_step_ok true (with_series base ts nm1) t s i r Ec)
      as (nmT & -> & _).
    destruct (record_step_ok false (with_series base ts nm2) t s i r Ec)
      as (nmF & -> & _).
    cbn [time_series with_series].
    destruct (i =? 0).
    + eexists _, _, _. repeat split; reflexivity.
    + rewrite !adaptive_step_with_series.
      destruct (adaptive_step base g) as [[o1 s2] g1].
      rewrite !epidemic_step_with_series.
      destruct (epidemic_step s2 g1) as [[o2 s3] g2].
      apply (IH (t + 1) s3 (record_counts ts s i r t) nmT nmF g2).
Qed.

End RunFacts.

(** ** Degenerate parameters: no rewiring, certain transmission *)

Lemma Qltb_nonpos r a :
  Qle_bool 0 r = true -> Qle_bool a 0 = true -> Qltb r a = false.
Proof.
  intros Hr Ha. unfold Qltb. apply negb_false_iff, Qle_bool_iff.
  apply Qle_bool_iff in Hr, Ha. now apply (Qle_trans _ 0).
Qed.

Lemma Qltb_certain r b k :
  Qltb r 1 = true -> (b == 1)%Q -> 0 < k -> Qltb r (p_infection b k) = true.
Proof.
  unfold Qltb. intros Hr Hb Hk. apply negb_true_iff. apply negb_true_iff in Hr.
  destruct (Qle_bool (p_infection b k) r) eqn:E; [|reflexivity].
  apply Qle_bool_iff in E.
  assert (Hp : (p_infection b k == 1)%Q).
  { unfold p_infection. rewrite Hb.
    setoid_replace (1 - 1)%Q with 0%Q by reflexivity.
    rewrite Qpower_0 by lia. reflexivity. }
  rewrite Hp in E. apply Qle_bool_iff in E. rewrite E in Hr. discriminate.
Qed.

Section Degenerate.

Context {R : Type} {RNG : PyRandom R} {SET : PySet}.

Lemma cut_scan_never st a es : forall g,
    Qle_bool a 0 = true -> fst (cut_scan st a es g) = [].
Proof.
  induction es as [|[u v] es IH]; intros g Ha; cbn [cut_scan fst]; [reflexivity|].
  destruct (s_i_edge st u v); [|now apply IH].
  pose proof (rnd_random_lo g) as Hlo.
  destruct (rnd_random g) as [r g1]. cbn [fst] in Hlo.
  specialize (IH g1 Ha). destruct (cut_scan st a es g1) as [rest g2].
  cbn [fst] in *. now rewrite (Qltb_nonpos r a Hlo Ha).
Qed.

Lemma scan_w_never G0 st m u ws : forall g,
    Qle_bool m 0 = true -> fst (scan_w G0 st m u ws g) = None.
Proof.
  induction ws as [|w ws IH]; intros g Hm; cbn [scan_w fst]; [reflexivity|].
  destruct ((w =? u) || negb (is_S (st w)) || Nx.has_edge G0 u w);
    [now apply IH|].
  pose proof (rnd_random_lo g) as Hlo.
  destruct (rnd_random g) as [r g1]. cbn [fst] in Hlo.
  rewrite (Qltb_nonpos r m Hlo Hm). now apply IH.
Qed.

Lemma scan_v_never G0 st m u vs : forall g,
    Qle_bool m 0 = true -> fst (scan_v G0 st m u vs g) = [].
Proof.
  induction vs as [|v vs IH]; intros g Hm; cbn [scan_v fst]; [reflexivity|].
  destruct (negb (is_S (st v))); [now apply IH|].
  pose proof (scan_w_never G0 st m u (node_set (Nx.neighbors G0 v)) g Hm) as Hw.
  destruct (scan_w G0 st m u (node_set (Nx.neighbors G0 v)) g) as [found g1].
  cbn [fst] in Hw. subst found. specialize (IH g1 Hm).
  destruct (scan_v G0 st m u vs g1) as [rest g2]. exact IH.
Qed.

Lemma scan_u_never G0 st m us : forall g,
    Qle_bool m 0 = true -> fst (scan_u G0 st m us g) = [].
Proof.
  induction us as [|u us IH]; intros g Hm; cbn [scan_u fst]; [reflexivity|].
  destruct (negb (Nx.has_node G0 u)); [now apply IH|].
  pose proof (scan_v_never G0 st m u (node_set (Nx.neighbors G0 u)) g Hm) as Hv.
  destruct (scan_v G0 st m u (node_set (Nx.neighbors G0 u)) g) as [es1 g1].
  cbn [fst] in Hv. subst es1. specialize (IH g1 Hm).
  destruct (scan_u G0 st m us g1) as [es2 g2]. exact IH.
Qed.

(** With α ≤ 0 and μ ≤ 0 the rewiring leaves the object as it is. *)
Lemma adaptive_step_static sim g :
  Qle_bool (alpha sim) 0 = true -> Qle_bool (mu sim) 0 = true ->
  exists g', adaptive_step sim g = ((0, 0), sim, g').
Proof.
  intros Ha Hm. unfold adaptive_step, rewire.
  pose proof (cut_scan_never (state sim) (alpha sim) (Nx.edges (G sim)) g Ha) as Hc.
  destruct (cut_scan (state sim) (alpha sim) (Nx.edges (G sim)) g) as [removed g1].
  cbn [fst] in Hc. subst removed.
  cbn [Nx.remove_edges_from fold_left cut_endpoints flat_map].
  destruct (if _ : bool then _ else _) as [tc g2].
  pose proof (scan_u_never (G sim) (state sim) (mu sim) tc g2 Hm) as Hs.
  destruct (scan_u (G sim) (state sim) (mu sim) tc g2) as [props g3].
  cbn [fst] in Hs. subst props.
  cbn [edges_to_remove edges_to_add G_cut length]. rewrite edge_set_nil.
  exists g3. destruct sim; reflexivity.
Qed.

Lemma infect_scan_certain G0 st b ns : forall g,
    (b == 1)%Q ->
    fst (infect_scan G0 st b ns g)
    = filter (fun n => is_S (st n) && (0 <? infected_neighbors G0 st n)) ns.
Proof.
  induction ns as [|n ns IH]; intros g Hb; cbn [infect_scan fst filter];
    [reflexivity|].
  destruct (is_S (st n)); cbn [andb]; [|now apply IH].
  destruct (0 <? infected_neighbors G0 st n) eqn:Ek; [|now apply IH].
  apply Nat.ltb_lt in Ek.
  pose proof (rnd_random_hi g) as Hhi.
  destruct (rnd_random g) as [r g1]. cbn [fst] in Hhi.
  specialize (IH g1 Hb). destruct (infect_scan G0 st b ns g1) as [rest g2].
  cbn [fst] in *. rewrite (Qltb_certain r b _ Hhi Hb Ek). now rewrite IH.
Qed.

Lemma recover_scan_never st ga ns : forall g,
    Qle_bool ga 0 = true -> fst (recover_scan st ga ns g) = [].
Proof.
  induction ns as [|n ns IH]; intros g Hg; cbn [recover_scan fst]; [reflexivity|].
  destruct (is_I (st n)); [|now apply IH].
  pose proof (rnd_random_lo g) as Hlo.
  destruct (rnd_random g) as [r g1]. cbn [fst] in Hlo.
  specialize (IH g1 Hg). destruct (recover_scan st ga ns g1) as [rest g2].
  cbn [fst] in *. now rewrite (Qltb_nonpos r ga Hlo Hg).
Qed.

(** With β = 1 and γ ≤ 0 the epidemic step is [spread]. *)
Lemma epidemic_step_certain sim g :
  (beta sim == 1)%Q -> Qle_bool (gamma sim) 0 = true ->
  exists out g',
    epidemic_step sim g
    = (out, with_state sim (spread (G sim) (state sim)), g').
Proof.
  intros Hb Hg. unfold epidemic_step.
  pose proof (infect_scan_certain (G sim) (state sim) (beta sim)
                                  (Nx.nodes (G sim)) g Hb) as Hi.
  destruct (infect_scan (G sim) (state sim) (beta sim) (Nx.nodes (G sim)) g)
    as [ti g1].
  pose proof (recover_scan_never (state sim) (gamma sim)
                                 (Nx.nodes (G sim)) g1 Hg) as Hr.
  destruct (recover_scan (state sim) (gamma sim) (Nx.nodes (G sim)) g1)
    as [tr g2].
  cbn [fst] in *. subst ti tr. rewrite node_set_nil.
  eexists _, _. f_equal. f_equal. f_equal.
  apply functional_extensionality. intro n.
  unfold set_all at 1. cbn [fold_left]. rewrite set_all_spec.
  unfold spread, exposed.
  now rewrite mem_node_set.
Qed.

(** The loop in the static scenario: as long as somebody is infected, the
    entries are the counts of the iterated [spread]. *)
Lemma run_loop_wave : forall left t track sim g,
    static_certain sim ->
    (forall j, j < left ->
               cI (counts (G sim) (wave_from (G sim) (state sim) j)) <> 0) ->
    exists sim' g',
      run_loop left t track sim g = (Ok sim', g')
      /\ G sim' = G sim
      /\ ts_S (time_series sim')
         = ts_S (time_series sim) ++ ts_S (wave_series (G sim) (state sim) left)
      /\ ts_I (time_series sim')
         = ts_I (time_series sim) ++ ts_I (wave_series (G sim) (state sim) left)
      /\ ts_R (time_series sim')
         = ts_R (time_series sim) ++ ts_R (wave_series (G sim) (state sim) left)
      /\ ts_t (time_series sim') = ts_t (time_series sim) ++ seq t left.
Proof.
  unfold wave_series, wave_from. cbn [ts_S ts_I ts_R].
  induction left as [|left IH]; intros t track sim g Hst Hpos.
  - eexists _, _. split; [reflexivity|]. cbn [seq map].
    rewrite !app_nil_r. auto.
  - rewrite run_loop_S.
    destruct (count_states sim) as [[s i] r] eqn:Ec.
    destruct (record_step_ok track sim t s i r Ec) as (nm & -> & _).
    change (count_states sim) with (counts (G sim) (state sim)) in Ec.
    pose proof (Hpos 0 (Nat.lt_0_succ _)) as Hi.
    change (cI (counts (G sim) (state sim)) <> 0) in Hi.
    rewrite Ec in Hi. cbn [cI fst snd] in Hi.
    apply Nat.eqb_neq in Hi. rewrite Hi.
    set (sim1 := with_series sim _ nm).
    destruct Hst as (Ha & Hm & Hb & Hg).
    destruct (adaptive_step_static sim1 g Ha Hm) as [g1 ->].
    destruct (epidemic_step_certain sim1 g1 Hb Hg) as (out & g2 & ->).
    destruct (IH (t + 1) track
                 (with_state sim1 (spread (G sim1) (state sim1))) g2)
      as (sim' & g' & Hrun & HG & HS & HI & HR & Ht).
    + repeat split; assumption.
    + intros j Hj. cbn [G state with_state with_series sim1].
      rewrite <- Nat.iter_succ_r. apply Hpos. lia.
    + exists sim', g'. split; [exact Hrun|]. split; [exact HG|].
      cbn [G state time_series with_state with_series sim1
             record_counts ts_S ts_I ts_R ts_t] in HS, HI, HR, Ht.
      rewrite HS, HI, HR, Ht.
      rewrite <- !app_assoc. cbn [seq map app].
      change (Nat.iter 0 (spread (G sim)) (state sim)) with (state sim).
      rewrite Ec. cbn [cS cI cR fst snd].
      repeat split; [| | |now rewrite Nat.add_1_r];
        rewrite <- seq_shift, map_map; do 2 f_equal; apply map_ext; intro j;
        now rewrite Nat.iter_succ_r.
Qed.

(** [run] in the static scenario. *)
Lemma run_wave max_steps track sim g :
  static_certain sim ->
  (forall j, cI (counts (G sim) (wave_from (G sim) (state sim) j)) <> 0) ->
  exists sim' g',
    run max_steps track sim g = (Ok sim', g')
    /\ G sim' = G sim
    /\ time_series sim'
       = wave_series (G sim) (state sim) (Z.to_nat max_steps).
Proof.
  intros Hst Hpos. unfold run.
  destruct (run_loop_wave (Z.to_nat max_steps) 0 track
              (with_series sim empty_series empty_metrics) g)
    as (sim' & g' & Hrun & HG & HS & HI & HR & Ht).
  - exact Hst.
  - intros j _. apply Hpos.
  - exists sim', g'. split; [exact Hrun|]. split; [exact HG|].
    cbn [G state time_series with_series empty_series
           ts_S ts_I ts_R ts_t app] in HS, HI, HR, Ht.
    destruct (time_series sim') as [tS tI tR tt].
    cbn [ts_S ts_I ts_R ts_t] in *. subst. reflexivity.
Qed.

Lemma run_wave_prepared max_steps track G0 b ga a m st g :
  Qle_bool a 0 = true -> Qle_bool m 0 = true ->
  (b == 1)%Q -> Qle_bool ga 0 = true ->
  (forall j, cI (counts G0 (wave_from G0 st j)) <> 0) ->
  exists sim' g',
    run max_steps track (prepared G0 b ga a m st) g = (Ok sim', g')
    /\ G sim' = G0
    /\ time_series sim' = wave_series G0 st (Z.to_nat max_steps).
Proof.
  intros Ha Hm Hb Hg Hpos.
  apply (run_wave max_steps track (prepared G0 b ga a m st) g).
  - repeat split; assumption.
  - exact Hpos.
Qed.

End Degenerate.

(** ** Certain closure: μ ≥ 1 *)

Lemma Qltb_sure r m : Qltb r 1 = true -> Qle_bool 1 m = true -> Qltb r m = true.
Proof.
  unfold Qltb. intros Hr Hm. apply negb_true_iff. apply negb_true_iff in Hr.
  destruct (Qle_bool m r) eqn:E; [|reflexivity].
  apply Qle_bool_iff in E, Hm.
  assert (H : Qle_bool 1 r = true) by (apply Qle_bool_iff; now apply (Qle_trans _ m)).
  rewrite H in Hr. discriminate.
Qed.

Lemma filter_two {A : Type} (P : A -> bool) (a b : A) (l : list A) :
  In a l -> In b l -> a <> b -> P a = true -> P b = true ->
  2 <= length (filter P l).
Proof.
  intros Ha Hb Hab Pa Pb.
  induction l as [|x l IH]; [contradiction|].
  cbn [filter]. destruct Ha as [->|Ha], Hb as [->|Hb].
  - congruence.
  - rewrite Pa. cbn [length].
    assert (In b (filter P l)) by (apply filter_In; auto).
    destruct (filter P l); [contradiction | cbn [length]; lia].
  - rewrite Pb. cbn [length].
    assert (In a (filter P l)) by (apply filter_In; auto).
    destruct (filter P l); [contradiction | cbn [length]; lia].
  - specialize (IH Ha Hb). destruct (P x); cbn [length]; lia.
Qed.

(** A duplicate-free list with exactly the two members [a] and [b]. *)
Lemma NoDup_pair {A : Type} (a b : A) (l : list A) :
  NoDup l -> a <> b -> (forall x, In x l <-> x = a \/ x = b) ->
  l = [a; b] \/ l = [b; a].
Proof.
  intros Hnd Hab Hin.
  assert (HP : Permutation l [a; b]).
  { apply NoDup_Permutation; [exact Hnd| |].
    - constructor; [cbn; intuition congruence|]. constructor; [cbn; tauto|].
      constructor.
    - intro x. rewrite Hin. cbn [In]. intuition congruence. }
  pose proof (Permutation_length HP) as Hlen.
  destruct l as [|x [|y [|z l]]]; try discriminate.
  assert (Hx : x = a \/ x = b) by (apply Hin; now left).
  assert (Hy : y = a \/ y = b) by (apply Hin; right; now left).
  inversion Hnd as [|? ? Hnx _]; subst.
  destruct Hx as [->| ->], Hy as [->| ->]; auto; exfalso; apply Hnx; now left.
Qed.

Section Certain.

Context {R : Type} {RNG : PyRandom R} {SET : PySet}.

Lemma scan_w_complete G0 st m u ws :
  Qle_bool 1 m = true ->
  forall g,
    (exists w, In w ws /\ w <> u /\ is_S (st w) = true
               /\ Nx.has_edge G0 u w = false) ->
    exists e g', scan_w G0 st m u ws g = (Some e, g').
Proof.
  intros Hm. induction ws as [|w ws IH]; intros g [w0 (Hin & Hne & HS & He)];
    [contradiction|].
  cbn [scan_w].
  destruct ((w =? u) || negb (is_S (st w)) || Nx.has_edge G0 u w) eqn:Eskip.
  - apply IH. exists w0. destruct Hin as [->|Hin]; [|auto].
    apply Nat.eqb_neq in Hne. rewrite Hne, HS, He in Eskip. discriminate.
  - pose proof (rnd_random_hi g) as Hhi.
    destruct (rnd_random g) as [r g1]. cbn [fst] in Hhi.
    rewrite (Qltb_sure r m Hhi Hm). eauto.
Qed.

Lemma scan_v_complete G0 st m u vs :
  Qle_bool 1 m = true ->
  forall g v w,
    In v vs -> is_S (st v) = true -> In w (Nx.neighbors G0 v) ->
    w <> u -> is_S (st w) = true -> Nx.has_edge G0 u w = false ->
    exists w', In (u, w') (fst (scan_v G0 st m u vs g))
               /\ In w' (Nx.neighbors G0 v) /\ w' <> u
               /\ is_S (st w') = true /\ Nx.has_edge G0 u w' = false.
Proof.
  intros Hm. induction vs as [|v0 vs IH]; intros g v w Hv HvS Hw Hne HwS He;
    [contradiction|].
  cbn [scan_v].
  destruct (is_S (st v0)) eqn:E0; cbn [negb].
  - destruct (scan_w G0 st m u (node_set (Nx.neighbors G0 v0)) g)
      as [found g1] eqn:Ew.
    destruct Hv as [->|Hv].
    + destruct (scan_w_complete G0 st m u (node_set (Nx.neighbors G0 v)) Hm g)
        as (e & g' & Hsome).
      { exists w. split; [now apply node_set_In | auto]. }
      rewrite Hsome in Ew. injection Ew as <- <-.
      destruct (scan_w_sound _ _ _ _ _ _ _ _ Hsome) as (w' & -> & Hin & Hrest).
      apply (proj1 (node_set_In _ _)) in Hin.
      exists w'. destruct (scan_v G0 st m u vs g') as [rest g2].
      cbn [fst In]. tauto.
    + destruct (IH g1 v w Hv HvS Hw Hne HwS He) as (w' & Hin & Hrest).
      exists w'. destruct (scan_v G0 st m u vs g1) as [rest g2].
      cbn [fst] in *. destruct found; cbn [In]; tauto.
  - destruct Hv as [->|Hv]; [congruence|].
    now apply (IH g v w).
Qed.

Lemma scan_u_complete G0 st m us :
  Qle_bool 1 m = true ->
  forall g u v w,
    In u us -> Nx.has_node G0 u = true -> open_triangle G0 st u v w ->
    exists w', In (u, w') (fst (scan_u G0 st m us g))
               /\ open_triangle G0 st u v w'.
Proof.
  intros Hm. induction us as [|u0 us IH]; intros g u v w Hu Hnode Ht;
    [contradiction|].
  cbn [scan_u].
  destruct (Nx.has_node G0 u0) eqn:E0; cbn [negb].
  - destruct (scan_v G0 st m u0 (node_set (Nx.neighbors G0 u0)) g)
      as [es1 g1] eqn:Ev.
    destruct Hu as [->|Hu].
    + destruct Ht as (Hv & HvS & Hw & Hne & HwS & He).
      destruct (scan_v_complete G0 st m u (node_set (Nx.neighbors G0 u)) Hm
                                g v w)
        as (w' & Hin & Hw' & Hne' & HwS' & He'); auto.
      { now apply node_set_In. }
      rewrite Ev in Hin. cbn [fst] in Hin.
      exists w'. destruct (scan_u G0 st m us g1) as [es2 g2]. cbn [fst].
      split; [apply in_or_app; now left|].
      unfold open_triangle. repeat split; assumption.
    + destruct (IH g1 u v w Hu Hnode Ht) as (w' & Hin & Ht').
      exists w'. destruct (scan_u G0 st m us g1) as [es2 g2]. cbn [fst] in *.
      split; [apply in_or_app; now right | exact Ht'].
  - destruct Hu as [->|Hu]; [congruence|].
    now apply (IH g u v w).
Qed.

(** A sample as large as the population holds all of it. *)
Lemma sample_all pop g x :
  In x pop -> In x (fst (rnd_sample pop (length pop) g)).
Proof.
  intro Hx.
  destruct (rnd_sample_sub pop (length pop) g (Nat.le_refl _)) as [rest HP].
  pose proof (rnd_sample_length pop (length pop) g (Nat.le_refl _)) as Hlen.
  pose proof (Permutation_length HP) as Hl. rewrite length_app, Hlen in Hl.
  destruct rest; [|cbn [length] in Hl; lia].
  rewrite app_nil_r in HP. apply (Permutation_in x (Permutation_sym HP) Hx).
Qed.

(** Without cutting (α ≤ 0), with certain closure (μ ≥ 1) and at most 50
    susceptible nodes: nothing is removed, every susceptible node is
    scanned, and every open triangle [u - v - w] gets a proposal
    [(u, w')] through the same [v]. *)
Lemma rewire_certain sim g :
  Qle_bool (alpha sim) 0 = true -> Qle_bool 1 (mu sim) = true ->
  length (filter (fun n => is_S (state sim n)) (Nx.nodes (G sim))) <= 50 ->
  G_cut (fst (rewire sim g)) = G sim
  /\ length (edges_to_remove (fst (rewire sim g))) = 0
  /\ forall u v w,
      In u (Nx.nodes (G sim)) -> is_S (state sim u) = true ->
      open_triangle (G sim) (state sim) u v w ->
      exists w', In (u, w') (edges_to_add (fst (rewire sim g)))
                 /\ open_triangle (G sim) (state sim) u v w'.
Proof.
  intros Ha Hm Hsmall. unfold rewire.
  pose proof (cut_scan_never (state sim) (alpha sim) (Nx.edges (G sim)) g Ha) as Hc.
  destruct (cut_scan (state sim) (alpha sim) (Nx.edges (G sim)) g) as [removed g1].
  cbn [fst] in Hc. subst removed.
  cbn [Nx.remove_edges_from fold_left cut_endpoints flat_map].
  set (pop := filter (fun n => is_S (state sim n)) (Nx.nodes (G sim))) in *.
  rewrite node_set_nil. cbn [length Nat.eqb andb].
  assert (Hcheck : forall tc g2,
             (if 0 <? length pop
              then let (smp, g0) := rnd_sample pop (Nat.min 50 (length pop)) g1 in
                   (node_set smp, g0)
              else ([], g1)) = (tc, g2) ->
             forall u, In u pop -> In u tc).
  { intros tc g2. destruct (0 <? length pop) eqn:E.
    - rewrite (Nat.min_r _ _ Hsmall).
      pose proof (sample_all pop g1) as Hs.
      destruct (rnd_sample pop (length pop) g1) as [smp g0]. cbn [fst] in Hs.
      intro H. injection H as <- <-. intros u Hu.
      apply node_set_In. now apply Hs.
    - apply Nat.ltb_ge in E. intros _ u Hu.
      destruct pop; [contradiction | cbn [length] in E; lia]. }
  destruct (if 0 <? length pop then _ else _) as [tc g2] eqn:Etc.
  specialize (Hcheck tc g2 eq_refl).
  pose proof (scan_u_complete (G sim) (state sim) (mu sim) tc Hm g2) as Hscan.
  destruct (scan_u (G sim) (state sim) (mu sim) tc g2) as [props g3].
  cbn [fst edges_to_remove G_cut edges_to_add length] in *.
  split; [reflexivity|]. split; [reflexivity|].
  intros u v w Hu HuS Ht.
  destruct (Hscan u v w) as (w' & Hin & Ht').
  - apply Hcheck. apply filter_In. auto.
  - now apply NxFacts.has_node_In.
  - exact Ht.
  - exists w'. split; [now apply edge_set_In | exact Ht'].
Qed.

Lemma rewire_certain_prepared G0 b ga a m st g :
  Qle_bool a 0 = true -> Qle_bool 1 m = true ->
  (length (filter (fun n => is_S (st n)) (Nx.nodes G0)) <=? 50) = true ->
  let rw := fst (rewire (prepared G0 b ga a m st) g) in
  G_cut rw = G0
  /\ NoDup (edges_to_add rw)
  /\ (forall e, In e (edges_to_add rw) ->
                exists v, In (fst e) (Nx.nodes G0)
                          /\ open_triangle G0 st (fst e) v (snd e))
  /\ (forall u v w,
         In u (Nx.nodes G0) -> is_S (st u) = true ->
         open_triangle G0 st u v w ->
         exists w', In (u, w') (edges_to_add rw)
                    /\ In (u, w') (proposals rw)
                    /\ open_triangle G0 st u v w').
Proof.
  intros Ha Hm Hsmall rw. apply Nat.leb_le in Hsmall.
  destruct (rewire_certain (prepared G0 b ga a m st) g Ha Hm Hsmall)
    as (HG & _ & Hall).
  fold rw in HG, Hall. cbn [G state prepared] in HG, Hall.
  destruct (rewire (prepared G0 b ga a m st) g) as [rw' g'] eqn:Erw.
  destruct (rewire_facts _ _ _ _ Erw) as (_ & _ & _ & Hprops & Hadd).
  cbn [fst] in rw. subst rw. cbn [G state prepared] in Hprops.
  split; [exact HG|]. split.
  { pose proof (rewire_edges_to_add (prepared G0 b ga a m st) g) as He.
    rewrite Erw in He. cbn [fst] in He. rewrite He. apply set_iter_NoDup. }
  split.
  - intros e He. apply Hadd, Hprops in He as (v & _ & Hnode & Ht).
    rewrite HG in Hnode, Ht. exists v.
    split; [now apply NxFacts.has_node_In | exact Ht].
  - intros u v w Hu HuS Ht.
    destruct (Hall u v w Hu HuS Ht) as (w' & Hin & Ht').
    exists w'. split; [exact Hin|]. split; [now apply Hadd | exact Ht'].
Qed.

(** What [adaptive_step] returns, in terms of the rewiring. *)
Lemma adaptive_step_result sim g :
  snd (fst (fst (adaptive_step sim g)))
  = length (edges_to_add (fst (rewire sim g)))
  /\ G (snd (fst (adaptive_step sim g)))
     = Nx.add_edges_from (G_cut (fst (rewire sim g)))
                         (edges_to_add (fst (rewire sim g))).
Proof.
  unfold adaptive_step. destruct (rewire sim g) as [rw g']. split; reflexivity.
Qed.

End Certain.

(** ** Prepared objects *)

(** [prepared] is what the constructor followed by the seeding of one
    patient zero leaves. *)
Lemma init_then_patient_zero {R : Type} {RNG : PyRandom R}
      (G0 : Nx.Graph) (b ga a m : Q) (seed : option Z) (n0 : node) (g : R) sim :
  fst (__init__ G0 b ga a m seed g) = Ok sim ->
  patient_zero_at n0 sim (snd (__init__ G0 b ga a m seed g))
  = (Ok (prepared G0 b ga a m (one_infected n0)),
     snd (__init__ G0 b ga a m seed g)).
Proof.
  unfold __init__. destruct seed as [s|]; [destruct (numpy_seed_ok s)|];
    cbn [fst snd]; intro H; try discriminate; injection H as <-; reflexivity.
Qed.

(** ** The ring scenario *)

Lemma spread_fixed G0 st : exposed G0 st = [] -> spread G0 st = st.
Proof. intro H. unfold spread. rewrite H. reflexivity. Qed.

Lemma iter_fixed {A : Type} (f : A -> A) (x : A) :
  f x = x -> forall d, Nat.iter d f x = x.
Proof.
  intros H d. induction d as [|d IH]; [reflexivity|].
  rewrite Nat.iter_succ, IH. exact H.
Qed.

(** After five steps the whole ring is infected and nothing changes. *)
Lemma wave_ring_settled d :
  wave_from ring20 (one_infected 0) (d + 5) = wave_from ring20 (one_infected 0) 5.
Proof.
  unfold wave_from. rewrite Nat.iter_add. apply iter_fixed, spread_fixed.
  vm_compute. reflexivity.
Qed.

Lemma ring_counts t :
  counts ring20 (wave_from ring20 (one_infected 0) t)
  = (20 - ring_I t, ring_I t, 0).
Proof.
  do 5 (destruct t as [|t]; [vm_compute; reflexivity|]).
  replace (S (S (S (S (S t))))) with (t + 5) by lia.
  rewrite wave_ring_settled.
  replace (ring_I (t + 5)) with 20 by (unfold ring_I; lia).
  vm_compute. reflexivity.
Qed.

Lemma ring_wave_series n :
  wave_series ring20 (one_infected 0) n = ring_series n.
Proof.
  unfold wave_series, ring_series.
  f_equal; apply map_ext; intro j; now rewrite ring_counts.
Qed.

(** ** The two small graphs *)

Lemma fork_triangle_013 : open_triangle fork_graph (one_infected 5) 0 1 3.
Proof. unfold open_triangle. vm_compute. repeat split; auto; discriminate. Qed.

Lemma fork_triangle_024 : open_triangle fork_graph (one_infected 5) 0 2 4.
Proof. unfold open_triangle. vm_compute. repeat split; auto; discriminate. Qed.

Lemma fork_third_1 w : open_triangle fork_graph (one_infected 5) 0 1 w -> w = 3.
Proof.
  intros (_ & _ & Hw & Hne & _). cases_of Hw; [congruence | reflexivity].
Qed.

Lemma fork_third_2 w : open_triangle fork_graph (one_infected 5) 0 2 w -> w = 4.
Proof.
  intros (_ & _ & Hw & Hne & _). cases_of Hw; [congruence | reflexivity].
Qed.

Lemma path_triangles u v w :
  In u (Nx.nodes path_graph) ->
  open_triangle path_graph (one_infected 3) u v w ->
  (u, w) = (0, 2) \/ (u, w) = (2, 0).
Proof.
  intros Hu (Hv & _ & Hw & Hne & _ & Hno).
  cases_of Hu; cases_of Hv; cases_of Hw;
    try congruence; auto; vm_compute in Hno; discriminate.
Qed.

Lemma path_triangle_012 : open_triangle path_graph (one_infected 3) 0 1 2.
Proof. unfold open_triangle. vm_compute. repeat split; auto; discriminate. Qed.

Lemma path_triangle_210 : open_triangle path_graph (one_infected 3) 2 1 0.
Proof. unfold open_triangle. vm_compute. repeat split; auto; discriminate. Qed.

Lemma path_third_0 w : open_triangle path_graph (one_infected 3) 0 1 w -> w = 2.
Proof.
  intros (_ & _ & Hw & Hne & _). cases_of Hw; [congruence | reflexivity].
Qed.

Lemma path_third_2 w : open_triangle path_graph (one_infected 3) 2 1 w -> w = 0.
Proof.
  intros (_ & _ & Hw & Hne & _). cases_of Hw; [reflexivity | congruence].
Qed.

Lemma path_batch_edges batch :
  batch = [(0, 2); (2, 0)] \/ batch = [(2, 0); (0, 2)] ->
  length batch = 2
  /\ Nx.number_of_edges path_graph = 2
  /\ Nx.number_of_edges (Nx.add_edges_from path_graph batch) = 3.
Proof. intros [-> | ->]; repeat split; vm_compute; reflexivity. Qed.

(** * The checked claims *)

Section Claims.

Context {R : Type} {RNG : PyRandom R} {SET : PySet}.

(** C2 (state conservation).  On a graph whose neighbours are nodes, with
    [N] the number of nodes as the constructor sets it, [run] returns, the
    graph still has [N] nodes, and every recorded entry of the time series
    (the first one, taken before any mutation, included) has
    [S + I + R = N]. *)
Theorem state_conservation (max_steps : Z) (track : bool) (sim : Sim) (g : R) :
  Nx.closed (G sim) = true ->
  N sim = Nx.number_of_nodes (G sim) ->
  exists sim' g',
    run max_steps track sim g = (Ok sim', g')
    /\ Nx.number_of_nodes (G sim') = N sim
    /\ every_entry (fun _ s i r => s + i + r = N sim) (time_series sim').
Proof.
  intros HC HN. unfold run.
  destruct (run_loop_conserves (N sim) (Z.to_nat max_steps) 0 track
              (with_series sim empty_series empty_metrics) g)
    as (sim' & g' & Hrun & _ & Hlen & Hent).
  - now apply NxFacts.closed_Closed.
  - cbn [G with_series]. rewrite HN. unfold Nx.number_of_nodes, Nx.nodes.
    now rewrite length_map.
  - unfold every_entry. cbn. repeat split; try reflexivity. intros k Hk. lia.
  - exists sim', g'. split; [exact Hrun|]. split; [|exact Hent].
    unfold Nx.number_of_nodes. unfold Nx.nodes in Hlen.
    now rewrite length_map in Hlen.
Qed.

(** C3 (transition monotonicity).  Compare the states in which a run capped
    at [k] steps leaves the nodes with those of the same run capped at
    [k + 1] and at [k + d] steps: in one more step every node either keeps
    its state, or goes from SUSCEPTIBLE to INFECTED, or from INFECTED to
    RECOVERED; over any number of further steps no node goes back
    (the state code never decreases), and a RECOVERED node stays so. *)
Theorem transition_monotonicity (track : bool) (sim : Sim) (g : R) (k d : nat) :
  exists s1 g1 s2 g2 s3 g3,
    run (Z.of_nat k) track sim g = (Ok s1, g1)
    /\ run (Z.of_nat (k + 1)) track sim g = (Ok s2, g2)
    /\ run (Z.of_nat (k + d)) track sim g = (Ok s3, g3)
    /\ (forall n, transition (state s1 n) (state s2 n))
    /\ (forall n, code (state s1 n) <= code (state s3 n))
    /\ (forall n, state s1 n = RECOVERED -> state s3 n = RECOVERED).
Proof.
  unfold run. rewrite !Nat2Z.id.
  set (sim0 := with_series sim empty_series empty_metrics).
  destruct (run_loop_succ k 0 track sim0 g) as (s1 & g1 & s2 & g2 & H1 & H2 & Htr).
  destruct (run_loop_monotone k 0 track sim0 g d)
    as (s1' & g1' & s3 & g3 & H1' & H3 & Hle).
  rewrite H1 in H1'. injection H1' as <- <-.
  exists s1, g1, s2, g2, s3, g3. rewrite Nat.add_1_r.
  repeat split; auto.
  intros n Hn. specialize (Hle n). rewrite Hn in Hle.
  destruct (state s3 n); cbn [code] in Hle; try lia. reflexivity.
Qed.


(** C6, as the code has it.  The constructor does not look at the values
    of the four parameters: whenever the seed is absent or one that the
    generators accept, construction succeeds for every parameter vector,
    in or out of [[0, 1]], and the object holds the four values as
    given. *)
Theorem init_stores_parameters (graph : Nx.Graph) (b ga a m : Q)
        (seed : option Z) (g : R) :
  (forall s, seed = Some s -> numpy_seed_ok s = true) ->
  exists sim,
    fst (__init__ graph b ga a m seed g) = Ok sim
    /\ beta sim = b /\ gamma sim = ga /\ alpha sim = a /\ mu sim = m.
Proof.
  intro Hseed. unfold __init__. destruct seed as [s|].
  - rewrite (Hseed s eq_refl). eexists. cbn. repeat split; reflexivity.
  - eexists. cbn. repeat split; reflexivity.
Qed.

(** C9 (empty graph).  On the graph without nodes [run] does not fail,
    with or without metrics: for a positive step bound it records the one
    entry [t = 0, S = I = R = 0] (and, when tracking, the metrics
    [0, 0, 0, 0], the clustering through the fallback), for a bound that is
    not positive it records nothing; no step is performed: graph, states
    and generator are as before. *)
Theorem empty_graph_run (max_steps : Z) (track : bool) (sim : Sim) (g : R) :
  exists sim',
    run max_steps track (with_G sim []) g = (Ok sim', g)
    /\ G sim' = [] /\ state sim' = state sim
    /\ time_series sim'
       = (if (0 <? max_steps)%Z
          then {| ts_S := [0]; ts_I := [0]; ts_R := [0]; ts_t := [0] |}
          else empty_series)
    /\ network_metrics sim'
       = (if track && (0 <? max_steps)%Z
          then {| avg_degree := [0%Q]; clustering := [0%Q];
                  num_edges := [0]; num_components := [0] |}
          else empty_metrics).
Proof.
  unfold run. destruct (Z.to_nat max_steps) as [|left] eqn:E.
  - assert (Hm : (0 <? max_steps)%Z = false) by (apply Z.ltb_ge; lia).
    rewrite Hm, andb_false_r. eexists. cbn. repeat split; reflexivity.
  - assert (Hm : (0 <? max_steps)%Z = true) by (apply Z.ltb_lt; lia).
    rewrite Hm, andb_true_r. destruct track; eexists; cbn;
      repeat split; reflexivity.
Qed.

(** C10 (tracking is transparent).  From the same object and generator,
    [run] with and without [track_network] both return, and they leave the
    same time series, the same graph, the same states and the same
    generator. *)
Theorem tracking_transparent (max_steps : Z) (sim : Sim) (g : R) :
  exists simT simF g',
    run max_steps true sim g = (Ok simT, g')
    /\ run max_steps false sim g = (Ok simF, g')
    /\ time_series simT = time_series simF
    /\ G simT = G simF
    /\ state simT = state simF.
Proof. unfold run. apply run_loop_track. Qed.

(** C4 (triadic closure correctness).  The batch that [adaptive_step]
    hands to [add_edges_from] is [edges_to_add]; every edge [(u, w)] in it
    joins two nodes that are SUSCEPTIBLE at the start of the step, that are
    not adjacent in the graph of the start of the step nor in the graph
    after Rule 1, and that have a common SUSCEPTIBLE neighbour [v] in the
    graph of the start of the step. *)
Theorem triadic_closure_correct (sim : Sim) (g : R) (u w : node) :
  In (u, w) (edges_to_add (fst (rewire sim g))) ->
  G (snd (fst (adaptive_step sim g)))
  = Nx.add_edges_from (G_cut (fst (rewire sim g)))
                      (edges_to_add (fst (rewire sim g)))
  /\ closes_open_triangle sim (G_cut (fst (rewire sim g))) u w.
Proof.
  intro Hin. split.
  { unfold adaptive_step. destruct (rewire sim g) as [rw g']. reflexivity. }
  destruct (rewire sim g) as [rw g'] eqn:Erw. cbn [fst] in *.
  destruct (rewire_facts _ _ _ _ Erw) as (Hcut & HG & Hcheck & Hprops & Hadd).
  apply Hadd, Hprops in Hin as (v & Hu & _ & Ht). cbn [fst snd] in *.
  destruct Ht as (Hv & HvS & Hw & _ & HwS & Hnot).
  apply Hcheck in Hu.
  assert (Hsi : forall e, In e (edges_to_remove rw) ->
                          s_i_edge (state sim) (fst e) (snd e) = true)
    by (intros e He; now apply Hcut).
  assert (Hsub : forall x y, In y (Nx.neighbors (G_cut rw) x) ->
                             Nx.has_edge (G sim) x y = true).
  { intros x y Hy. rewrite HG in Hy.
    apply NxFacts.neighbors_remove_edges_from_sub in Hy.
    now apply NxFacts.mem_In. }
  unfold closes_open_triangle. repeat split.
  - destruct (state sim u); try discriminate; reflexivity.
  - destruct (state sim w); try discriminate; reflexivity.
  - rewrite <- (has_edge_after_cut (state sim) (edges_to_remove rw)
                                   (G sim) u w Hsi Hu HwS).
    now rewrite <- HG.
  - exact Hnot.
  - exists v. repeat split.
    + destruct (state sim v); try discriminate; reflexivity.
    + now apply Hsub.
    + now apply Hsub.
Qed.

(** C8 (ring scenario).  On the ring of 20 nodes with two neighbours on
    each side, β = 1, γ = α = μ = 0 and patient zero at node 0, for every
    generator and every step bound: [run] returns with the graph
    unchanged and the series [ring_series], whatever the draws (no
    variance); it has one entry for each of the [max_steps] steps, so the
    run only stops at the bound; [I] is never 0 and never decreases, [R]
    stays 0, and from step 10 on (in fact from step 5) all 20 nodes are
    infected. *)
Theorem ring_wavefront (max_steps : Z) (track : bool) (g : R) :
  exists sim' g',
    run max_steps track (prepared ring20 1 0 0 0 (one_infected 0)) g
    = (Ok sim', g')
    /\ G sim' = ring20
    /\ time_series sim' = ring_series (Z.to_nat max_steps)
    /\ length (ts_t (time_series sim')) = Z.to_nat max_steps
    /\ (forall t, ring_I t <> 0 /\ ring_I t <= ring_I (t + 1))
    /\ (forall t, 10 <= t -> ring_I t = 20 /\ 20 - ring_I t = 0).
Proof.
  destruct (run_wave_prepared max_steps track ring20 1 0 0 0
                              (one_infected 0) g)
    as (sim' & g' & Hrun & HG & Hser); try reflexivity.
  - intro j. rewrite ring_counts. cbn [cI fst snd]. unfold ring_I. lia.
  - rewrite ring_wave_series in Hser.
    exists sim', g'. split; [exact Hrun|]. split; [exact HG|].
    split; [exact Hser|]. rewrite Hser.
    split; [cbn [ring_series ts_t]; apply length_seq|].
    unfold ring_I. split; intros; lia.
Qed.

(** C1, the code at a failing input.  On the fork [3 - 1 - 0 - 2 - 4]
    (all susceptible, an isolated infected node 5 besides), with α = 0 and
    μ = 1, one step proposes for the seed node 0 both [(0, 3)] and
    [(0, 4)], whatever the generator and the set order: the scan of node 0
    goes on with its next neighbour after an edge was recorded, and both
    edges reach the batch that is added. *)
Theorem fork_seed_two_proposals (g : R) :
  let rw := fst (rewire (prepared fork_graph 0 0 0 1 (one_infected 5)) g) in
  2 <= proposed_for 0 (proposals rw)
  /\ In (0, 3) (edges_to_add rw) /\ In (0, 4) (edges_to_add rw).
Proof.
  intro rw.
  destruct (rewire_certain_prepared fork_graph 0 0 0 1 (one_infected 5) g)
    as (_ & _ & _ & Hall); try reflexivity.
  fold rw in Hall. clearbody rw.
  assert (Hn0 : In 0 (Nx.nodes fork_graph)) by (vm_compute; tauto).
  destruct (Hall 0 1 3 Hn0 eq_refl fork_triangle_013) as (w1 & Ha1 & Hp1 & Ht1).
  destruct (Hall 0 2 4 Hn0 eq_refl fork_triangle_024) as (w2 & Ha2 & Hp2 & Ht2).
  apply fork_third_1 in Ht1. apply fork_third_2 in Ht2. subst w1 w2.
  split; [|split; assumption].
  exact (filter_two (fun e => fst e =? 0) (0, 3) (0, 4) (proposals rw)
                    Hp1 Hp2 ltac:(discriminate) eq_refl eq_refl).
Qed.

(** C7, the code at a failing input.  On the path [0 - 1 - 2] (all
    susceptible, an isolated infected node 3 besides), with α = 0 and
    μ = 1, one step proposes [(0, 2)] and [(2, 0)]; both survive
    [list(set(...))], so [adaptive_step] returns [edges_added = 2], while
    the graph goes from 2 edges to 3: one edge was added. *)
Theorem path_edge_counted_twice (g : R) :
  let sim := prepared path_graph 0 0 0 1 (one_infected 3) in
  (edges_to_add (fst (rewire sim g)) = [(0, 2); (2, 0)]
   \/ edges_to_add (fst (rewire sim g)) = [(2, 0); (0, 2)])
  /\ snd (fst (fst (adaptive_step sim g))) = 2
  /\ Nx.number_of_edges path_graph = 2
  /\ Nx.number_of_edges (G (snd (fst (adaptive_step sim g)))) = 3.
Proof.
  intro sim.
  destruct (adaptive_step_result sim g) as [Hout HG']. unfold sim in *.
  destruct (rewire_certain_prepared path_graph 0 0 0 1 (one_infected 3) g)
    as (HG & Hnd & Hsound & Hall); try reflexivity.
  rewrite Hout, HG', HG. clear Hout HG' HG sim.
  set (batch := edges_to_add (fst (rewire _ g))) in *. clearbody batch.
  set (props := proposals (fst (rewire _ g))) in *. clearbody props.
  assert (Hn0 : In 0 (Nx.nodes path_graph)) by (vm_compute; tauto).
  assert (Hn2 : In 2 (Nx.nodes path_graph)) by (vm_compute; tauto).
  assert (Hbatch : batch = [(0, 2); (2, 0)] \/ batch = [(2, 0); (0, 2)]).
  { apply NoDup_pair; [exact Hnd | discriminate |].
    intros [u w]. split.
    - intro He. destruct (Hsound _ He) as (v & Hu & Ht).
      exact (path_triangles u v w Hu Ht).
    - intros [He|He]; injection He as -> ->.
      + destruct (Hall 0 1 2 Hn0 eq_refl path_triangle_012) as (w' & Ha & _ & Ht).
        apply path_third_0 in Ht. now subst w'.
      + destruct (Hall 2 1 0 Hn2 eq_refl path_triangle_210) as (w' & Ha & _ & Ht).
        apply path_third_2 in Ht. now subst w'. }
  split; [exact Hbatch|]. now apply path_batch_edges.
Qed.

End Claims.


(** C6, as stated, fails: with β = 2 the constructor returns an object. *)
Lemma init_accepts_beta_two :
  parameters_in_range 2 0 0 0 = false
  /\ fst (__init__ (RNG := lcg) ring20 2 0 0 0 (Some 42%Z) 0%Z)
     = Ok (prepared ring20 2 0 0 0 (fun _ => SUSCEPTIBLE)).
Proof. split; reflexivity. Qed.

(** [init_stores_parameters] at β = 2, seed 42, on the ring. *)
Lemma init_stores_parameters_witness :
  (forall s, Some 42%Z = Some s -> numpy_seed_ok s = true)
  /\ exists sim,
      fst (__init__ (RNG := lcg) ring20 2 (1 # 10) 0 0 (Some 42%Z) 0%Z) = Ok sim
      /\ beta sim = 2%Q /\ gamma sim = (1 # 10)%Q
      /\ alpha sim = 0%Q /\ mu sim = 0%Q.
Proof.
  assert (H : forall s, Some 42%Z = Some s -> numpy_seed_ok s = true).
  { intros s Hs. injection Hs as <-. reflexivity. }
  split; [exact H|].
  exact (init_stores_parameters (RNG := lcg) ring20 2 (1 # 10) 0 0 (Some 42%Z) 0%Z H).
Defined.

(** [state_conservation] on the ring with the reference runtime. *)
Lemma state_conservation_witness :
  Nx.closed ring20 = true
  /\ 20 = Nx.number_of_nodes ring20
  /\ exists sim' g',
      run (RNG := lcg) (SET := insertion_order) 30 true
          (prepared ring20 (1 # 2) (1 # 5) (1 # 3) (1 # 4) (one_infected 0)) 7%Z
      = (Ok sim', g')
      /\ Nx.number_of_nodes (G sim') = 20
      /\ every_entry (fun _ s i r => s + i + r = 20) (time_series sim').
Proof.
  split; [reflexivity|]. split; [reflexivity|].
  apply (state_conservation (RNG := lcg) (SET := insertion_order) 30 true
           (prepared ring20 (1 # 2) (1 # 5) (1 # 3) (1 # 4) (one_infected 0)) 7%Z);
    reflexivity.
Defined.

(** [triadic_closure_correct] at the edge [(0, 3)] added on the fork. *)
Lemma triadic_closure_correct_witness :
  let sim := prepared fork_graph 0 0 0 1 (one_infected 5) in
  let rw := fst (rewire (RNG := lcg) (SET := insertion_order) sim 42%Z) in
  In (0, 3) (edges_to_add rw)
  /\ G (snd (fst (adaptive_step (RNG := lcg) (SET := insertion_order) sim 42%Z)))
     = Nx.add_edges_from (G_cut rw) (edges_to_add rw)
  /\ closes_open_triangle sim (G_cut rw) 0 3.
Proof.
  intros sim rw.
  assert (H : In (0, 3) (edges_to_add rw)) by (vm_compute; tauto).
  split; [exact H|].
  exact (triadic_closure_correct (RNG := lcg) (SET := insertion_order)
                                 sim 42%Z 0 3 H).
Defined.

(** ** The engine evaluated on the reference runtime *)

Example ring_run_reference :
  match fst (run (RNG := lcg) (SET := insertion_order) 7 true
                 (prepared ring20 1 0 0 0 (one_infected 0)) 7%Z) with
  | Ok sim => Some (ts_S (time_series sim), ts_I (time_series sim),
                    num_edges (network_metrics sim))
  | Raise _ => None
  end
  = Some ([19; 15; 11; 7; 3; 0; 0], [1; 5; 9; 13; 17; 20; 20],
          [40; 40; 40; 40; 40; 40; 40]).
Proof. vm_compute. reflexivity. Qed.

Example fork_step_reference :
  let out := adaptive_step (RNG := lcg) (SET := insertion_order)
               (prepared fork_graph 0 0 0 1 (one_infected 5)) 42%Z in
  fst (fst out) = (0, 6)
  /\ G (snd (fst out))
     = [(0, [1; 2; 3; 4]); (1, [0; 3; 2]); (2, [0; 4; 1]);
        (3, [1; 0]); (4, [2; 0]); (5, [])].
Proof. vm_compute. split; reflexivity. Qed.

Example path_step_reference :
  let out := adaptive_step (RNG := lcg) (SET := insertion_order)
               (prepared path_graph 0 0 0 1 (one_infected 3)) 42%Z in
  fst (fst out) = (0, 2)
  /\ G (snd (fst out)) = [(0, [1; 2]); (1, [0; 2]); (2, [1; 0]); (3, [])].
Proof. vm_compute. split; reflexivity. Qed.

Example empty_patient_zero_reference :
  fst (infect_random_node (RNG := lcg) (prepared [] 0 0 0 0 (fun _ => SUSCEPTIBLE)) 1%Z)
  = Raise IndexError.
Proof. reflexivity. Qed.

(** * Further properties of the engine *)

(** ** Counting *)

Lemma counts_fold_filter (st : StateMap) ns : forall s0 i0 r0,
    fold_left (fun c n =>
                 let '(s, i, r) := c in
                 match st n with
                 | SUSCEPTIBLE => (s + 1, i, r)
                 | INFECTED => (s, i + 1, r)
                 | RECOVERED => (s, i, r + 1)
                 end) ns (s0, i0, r0)
    = (s0 + length (filter (fun n => is_S (st n)) ns),
       i0 + length (filter (fun n => is_I (st n)) ns),
       r0 + length (filter (fun n => is_R (st n)) ns)).
Proof.
  induction ns as [|n ns IH]; intros s0 i0 r0; cbn [fold_left filter length].
  - now rewrite !Nat.add_0_r.
  - destruct (st n); cbn [is_S is_I is_R length]; rewrite IH;
      repeat match goal with
             | |- (_, _) = (_, _) => apply f_equal2
             end; lia.
Qed.

(** The three counters are the numbers of nodes in each state. *)
Lemma counts_filter G0 st :
  counts G0 st
  = (length (filter (fun n => is_S (st n)) (Nx.nodes G0)),
     length (filter (fun n => is_I (st n)) (Nx.nodes G0)),
     length (filter (fun n => is_R (st n)) (Nx.nodes G0))).
Proof. unfold counts. now rewrite counts_fold_filter. Qed.

Lemma filter_length_le {A : Type} (f h : A -> bool) (l : list A) :
  (forall x, In x l -> f x = true -> h x = true) ->
  length (filter f l) <= length (filter h l).
Proof.
  induction l as [|x l IH]; intro H; cbn [filter length]; [lia|].
  assert (IH' : length (filter f l) <= length (filter h l))
    by (apply IH; intros y Hy; apply H; now right).
  destruct (f x) eqn:Ef.
  - rewrite (H x (or_introl eq_refl) Ef). cbn [length]. lia.
  - destruct (h x); cbn [length]; lia.
Qed.

Lemma filter_length_eq {A : Type} (f h : A -> bool) (l : list A) :
  (forall x, In x l -> f x = h x) ->
  length (filter f l) = length (filter h l).
Proof.
  intro H. apply Nat.le_antisymm; apply filter_length_le; intros x Hx;
    rewrite (H x Hx); auto.
Qed.

Lemma distinct_NoDup l : distinct l = true <-> NoDup l.
Proof.
  induction l as [|x l IH]; cbn [distinct].
  - split; [constructor | reflexivity].
  - rewrite andb_true_iff, negb_true_iff, IH. split.
    + intros [Hx Hl]. constructor; [|exact Hl].
      intro Hin. apply NxFacts.mem_In in Hin. congruence.
    + intro H. inversion H as [|? ? Hx Hl]; subst. split; [|exact Hl].
      destruct (Nx.mem x l) eqn:E; [|reflexivity].
      apply NxFacts.mem_In in E. contradiction.
Qed.

(** ** The shape of a run *)

Section RunShape.

Context {R : Type} {RNG : PyRandom R} {SET : PySet}.

Lemma record_step_cases track sim t s i r :
  count_states sim = (s, i, r) ->
  exists nm,
    record_step track sim t
    = Ok (i, with_series sim (record_counts (time_series sim) s i r t) nm)
    /\ length (avg_degree nm)
       = length (avg_degree (network_metrics sim)) + (if track then 1 else 0)
    /\ length (clustering nm)
       = length (clustering (network_metrics sim)) + (if track then 1 else 0)
    /\ length (num_edges nm)
       = length (num_edges (network_metrics sim)) + (if track then 1 else 0)
    /\ length (num_components nm)
       = length (num_components (network_metrics sim))
         + (if track then 1 else 0).
Proof.
  intro Hc. unfold record_step. rewrite Hc. destruct track.
  - destruct (compute_network_metrics_ok sim) as [m ->].
    eexists. split; [reflexivity|]. unfold record_metrics.
    cbn [avg_degree clustering num_edges num_components].
    rewrite !length_app. cbn [length]. auto.
  - eexists. split; [reflexivity|]. rewrite !Nat.add_0_r. auto.
Qed.

Variable Inv : Sim -> Prop.
Variable Rel : nat * nat * nat -> nat * nat * nat -> Prop.

Hypothesis Inv_series : forall sim ts nm, Inv sim -> Inv (with_series sim ts nm).

Hypothesis Inv_step : forall sim g o1 s2 g1 o2 s3 g2,
    Inv sim ->
    adaptive_step sim g = (o1, s2, g1) ->
    epidemic_step s2 g1 = (o2, s3, g2) ->
    Inv s3 /\ Rel (count_states sim) (count_states s3).

(** The loop appends one row of counts per pass; it goes on while somebody
    is infected and passes are left; an invariant of the two steps holds at
    the end and consecutive rows are related as the steps relate the
    counts. *)
Lemma run_loop_rows : forall left t track sim g,
    Inv sim ->
    exists rows sim' g',
      run_loop left t track sim g = (Ok sim', g')
      /\ Inv sim'
      /\ ts_S (time_series sim') = ts_S (time_series sim) ++ map cS rows
      /\ ts_I (time_series sim') = ts_I (time_series sim) ++ map cI rows
      /\ ts_R (time_series sim') = ts_R (time_series sim) ++ map cR rows
      /\ ts_t (time_series sim') = ts_t (time_series sim) ++ seq t (length rows)
      /\ length rows <= left
      /\ (0 < left ->
          exists rest, rows = count_states sim :: rest
                       /\ chain Rel (count_states sim) rest)
      /\ (forall j, j + 1 < length rows -> cI (nth j rows (0, 0, 0)) <> 0)
      /\ (length rows < left -> cI (last rows (0, 0, 0)) = 0)
      /\ length (avg_degree (network_metrics sim'))
         = length (avg_degree (network_metrics sim))
           + (if track then length rows else 0)
      /\ length (clustering (network_metrics sim'))
         = length (clustering (network_metrics sim))
           + (if track then length rows else 0)
      /\ length (num_edges (network_metrics sim'))
         = length (num_edges (network_metrics sim))
           + (if track then length rows else 0)
      /\ length (num_components (network_metrics sim'))
         = length (num_components (network_metrics sim))
           + (if track then length rows else 0).
Proof.
  induction left as [|left IH]; intros t track sim g HI.
  - exists [], sim, g. cbn [map seq length app]. rewrite !app_nil_r.
    repeat split; auto; try lia; destruct track; lia.
  - rewrite run_loop_S.
    destruct (count_states sim) as [[s i] r] eqn:Ec.
    destruct (record_step_cases track sim t s i r Ec)
      as (nm & -> & Ln1 & Ln2 & Ln3 & Ln4).
    set (sim1 := with_series sim (record_counts (time_series sim) s i r t) nm).
    assert (HI1 : Inv sim1) by now apply Inv_series.
    destruct (i =? 0) eqn:Ei.
    + apply Nat.eqb_eq in Ei. subst i.
      exists [(s, 0, r)], sim1, g.
      split; [reflexivity|]. split; [exact HI1|].
      cbn [time_series network_metrics with_series sim1 record_counts
             ts_S ts_I ts_R ts_t map seq length cS cI cR fst snd].
      do 4 (split; [reflexivity|]). split; [lia|].
      split; [intros _; exists []; split; [reflexivity | exact I]|].
      split; [intros j Hj; lia|]. split; [reflexivity|].
      repeat split; destruct track; lia.
    + apply Nat.eqb_neq in Ei.
      destruct (adaptive_step_shape sim1 g) as (o1 & G' & g1 & Ha & _).
      rewrite Ha.
      destruct (epidemic_step_shape (with_G sim1 G') g1)
        as (o2 & st' & g2 & He & _).
      rewrite He.
      destruct (Inv_step sim1 g _ _ _ _ _ _ HI1 Ha He) as [HI3 HRel].
      change (count_states sim1) with (count_states sim) in HRel.
      rewrite Ec in HRel.
      set (sim3 := with_state (with_G sim1 G') st') in *.
      destruct (IH (t + 1) track sim3 g2 HI3)
        as (rows & sim' & g' & Hrun & HI' & HS & HI2 & HR & Ht & Hlen
            & Hhd & Hpos & Hlast & L1 & L2 & L3 & L4).
      exists ((s, i, r) :: rows), sim', g'.
      cbn [time_series network_metrics with_state with_G with_series sim3 sim1
             record_counts ts_S ts_I ts_R ts_t] in HS, HI2, HR, Ht, L1, L2, L3, L4.
      split; [exact Hrun|]. split; [exact HI'|].
      rewrite HS, HI2, HR, Ht, L1, L2, L3, L4, Ln1, Ln2, Ln3, Ln4.
      rewrite <- !app_assoc.
      cbn [map seq length app cS cI cR fst snd]. rewrite Nat.add_1_r.
      do 4 (split; [reflexivity|]). split; [lia|].
      split.
      { intros _. exists rows. split; [reflexivity|].
        destruct left as [|left'].
        - destruct rows; [exact I | cbn [length] in Hlen; lia].
        - destruct (Hhd (Nat.lt_0_succ _)) as (rest & -> & Hch).
          cbn [chain]. split; [exact HRel | exact Hch]. }
      split.
      { intros [|j] Hj; cbn [nth cI fst snd]; [exact Ei|].
        apply Hpos. lia. }
      split.
      { intro Hlt.
        assert (Hl : length rows < left) by lia.
        destruct rows as [|c rows'].
        - destruct left as [|left']; [cbn [length] in Hl; lia|].
          destruct (Hhd (Nat.lt_0_succ _)) as (rest & Hr & _). discriminate.
        - change (last ((s, i, r) :: c :: rows') (0, 0, 0))
            with (last (c :: rows') (0, 0, 0)).
          now apply Hlast. }
      repeat split; destruct track; lia.
Qed.

End RunShape.

Lemma last_map_counts (f : nat * nat * nat -> nat) (l : list (nat * nat * nat)) d :
  last (map f l) (f d) = f (last l d).
Proof.
  induction l as [|a l IH]; [reflexivity|].
  destruct l as [|b l]; [reflexivity|]. exact IH.
Qed.

Lemma chain_nth {A : Type} (Rel : A -> A -> Prop) (d : A) l : forall a j,
    chain Rel a l -> j + 1 < length (a :: l) ->
    Rel (nth j (a :: l) d) (nth (j + 1) (a :: l) d).
Proof.
  induction l as [|b l IH]; intros a j Hc Hj; cbn [length] in Hj; [lia|].
  destruct Hc as [Hab Hc]. destruct j as [|j]; [exact Hab|].
  change (Rel (nth j (b :: l) d) (nth (j + 1) (b :: l) d)).
  apply IH; [exact Hc | cbn [length]; lia].
Qed.

Section RunProperties.

Context {R : Type} {RNG : PyRandom R} {SET : PySet}.

(** X1 (shape of the recorded series).  For β in [[0, 1]] (where the
    infection probability is computed without overflow) [run] always
    returns.  It records [n] entries with [t = 0, 1, ..., n - 1], where [n]
    is at most [max_steps] and at least 1 when [max_steps] is positive; the
    first entry counts the states of the object as given; every entry but
    the last has [I <> 0], and if fewer than [max_steps] entries were
    recorded the last one has [I = 0].  [get_epidemic_duration] is [n], and the four lists of
    network metrics have [n] entries with tracking and none without. *)
Theorem run_series_shape (max_steps : Z) (track : bool) (sim : Sim) (g : R) :
  in_unit_interval (beta sim) = true ->
  exists sim' g' n,
    run max_steps track sim g = (Ok sim', g')
    /\ ts_t (time_series sim') = seq 0 n
    /\ length (ts_S (time_series sim')) = n
    /\ length (ts_I (time_series sim')) = n
    /\ length (ts_R (time_series sim')) = n
    /\ get_epidemic_duration sim' = n
    /\ n <= Z.to_nat max_steps
    /\ ((0 < max_steps)%Z ->
        0 < n
        /\ (nth 0 (ts_S (time_series sim')) 0, nth 0 (ts_I (time_series sim')) 0,
            nth 0 (ts_R (time_series sim')) 0) = count_states sim)
    /\ (forall j, j + 1 < n -> nth j (ts_I (time_series sim')) 0 <> 0)
    /\ (n < Z.to_nat max_steps -> last (ts_I (time_series sim')) 0 = 0)
    /\ length (avg_degree (network_metrics sim')) = (if track then n else 0)
    /\ length (clustering (network_metrics sim')) = (if track then n else 0)
    /\ length (num_edges (network_metrics sim')) = (if track then n else 0)
    /\ length (num_components (network_metrics sim'))
       = (if track then n else 0).
Proof.
  intros _. unfold run, get_epidemic_duration.
  destruct (run_loop_rows (fun _ => True) (fun _ _ => True)
              (fun _ _ _ _ => I) (fun _ _ _ _ _ _ _ _ _ _ _ => conj I I)
              (Z.to_nat max_steps) 0 track
              (with_series sim empty_series empty_metrics) g I)
    as (rows & sim' & g' & Hrun & _ & HS & HI & HR & Ht & Hlen & Hhd & Hpos
        & Hlast & L1 & L2 & L3 & L4).
  cbn [time_series network_metrics with_series empty_series empty_metrics
         ts_S ts_I ts_R ts_t avg_degree clustering num_edges num_components
         app length Nat.add] in *.
  exists sim', g', (length rows).
  rewrite HS, HI, HR, Ht, !length_map, length_seq.
  do 6 (split; [reflexivity || assumption|]).
  split; [exact Hlen|]. split.
  { intro Hm. destruct Hhd as (rest & -> & _); [lia|].
    cbn [length map nth]. split; [lia|].
    change (count_states (with_series sim empty_series empty_metrics))
      with (count_states sim).
    now destruct (count_states sim) as [[s i] r]. }
  split.
  { intros j Hj. change 0 with (cI (0, 0, 0)) at 1. rewrite map_nth.
    now apply Hpos. }
  split.
  { intro Hn. change 0 with (cI (0, 0, 0)) at 1. rewrite last_map_counts.
    now apply Hlast. }
  auto.
Qed.

(** X2 (nobody infected).  When no node of the graph is infected and
    [max_steps] is positive, [run] records the one entry [t = 0] with the
    counts of the object and stops: no step is made, the graph, the states
    and the generator are those it was given. *)
Theorem run_without_infection (max_steps : Z) (track : bool) (sim : Sim) (g : R) :
  (0 < max_steps)%Z ->
  cI (count_states sim) = 0 ->
  exists sim',
    run max_steps track sim g = (Ok sim', g)
    /\ G sim' = G sim /\ state sim' = state sim
    /\ ts_t (time_series sim') = [0]
    /\ ts_S (time_series sim') = [cS (count_states sim)]
    /\ ts_I (time_series sim') = [0]
    /\ ts_R (time_series sim') = [cR (count_states sim)].
Proof.
  intros Hm Hi. unfold run.
  destruct (Z.to_nat max_steps) as [|left] eqn:E; [lia|].
  rewrite run_loop_S.
  change (count_states sim)
    with (count_states (with_series sim empty_series empty_metrics)) in *.
  destruct (count_states (with_series sim empty_series empty_metrics))
    as [[s i] r] eqn:Ec.
  cbn [cI cS cR fst snd] in *. subst i.
  destruct (record_step_cases track _ 0 s 0 r Ec) as (nm & -> & _).
  cbn [Nat.eqb]. eexists. split; [reflexivity|].
  repeat split; reflexivity.
Qed.

(** X3 (reduction to the static model).  With α ≤ 0 and μ ≤ 0 the
    rewiring never changes the graph: after [run] the graph is the one the
    object started with. *)
Theorem static_graph_run (max_steps : Z) (track : bool) (sim : Sim) (g : R) :
  Qle_bool (alpha sim) 0 = true ->
  Qle_bool (mu sim) 0 = true ->
  exists sim' g',
    run max_steps track sim g = (Ok sim', g') /\ G sim' = G sim.
Proof.
  intros Ha Hm. unfold run.
  destruct (run_loop_rows
              (fun s => Qle_bool (alpha s) 0 = true
                        /\ Qle_bool (mu s) 0 = true /\ G s = G sim)
              (fun _ _ => True))
    with (left := Z.to_nat max_steps) (t := 0) (track := track)
         (sim := with_series sim empty_series empty_metrics) (g := g)
    as (rows & sim' & g' & Hrun & (_ & _ & HG) & _).
  - intros s ts nm H. exact H.
  - intros s g0 o1 s2 g1 o2 s3 g2 (Ha' & Hm' & HG) Had Hep.
    destruct (adaptive_step_static s g0 Ha' Hm') as [g1' Hst].
    rewrite Hst in Had. injection Had as <- <- <-.
    destruct (epidemic_step_shape s g1') as (o & st' & g'' & Hsh & _).
    rewrite Hsh in Hep. injection Hep as <- <- <-.
    cbn [alpha mu G with_state]. auto.
  - cbn [alpha mu G with_series]. auto.
  - exists sim', g'. auto.
Qed.

End RunProperties.

(** ** The epidemic step in detail *)

Lemma mem_false_iff x l : Nx.mem x l = false <-> ~ In x l.
Proof.
  split.
  - intros H Hin. apply NxFacts.mem_In in Hin. congruence.
  - intro H. destruct (Nx.mem x l) eqn:E; [|reflexivity].
    apply NxFacts.mem_In in E. contradiction.
Qed.

(** Removing a duplicate-free part [T] of the members that satisfy [f]. *)
Lemma filter_remove_length (f : node -> bool) (T ns : list node) :
  NoDup ns -> NoDup T ->
  (forall x, In x T -> In x ns /\ f x = true) ->
  length (filter (fun x => f x && negb (Nx.mem x T)) ns) + length T
  = length (filter f ns).
Proof.
  intros Hns HT Hsub. rewrite <- length_app.
  apply Permutation_length, NoDup_Permutation.
  - apply NoDup_app; [now apply NoDup_filter | exact HT |].
    intros a Ha Hin. apply filter_In in Ha as [_ Ha].
    apply andb_prop in Ha as [_ Ha]. apply negb_true_iff in Ha.
    apply mem_false_iff in Ha. contradiction.
  - now apply NoDup_filter.
  - intro x. rewrite in_app_iff, !filter_In. split.
    + intros [[Hx Hf]|Hx].
      * apply andb_prop in Hf as [Hf _]. auto.
      * now apply Hsub.
    + intros [Hx Hf]. destruct (Nx.mem x T) eqn:E.
      * right. now apply NxFacts.mem_In.
      * left. split; [exact Hx|]. now rewrite Hf.
Qed.

Section EpidemicStep.

Context {R : Type} {RNG : PyRandom R} {SET : PySet}.

Lemma infect_scan_exposed G0 st b ns : forall g n,
    In n (fst (infect_scan G0 st b ns g)) ->
    In n ns /\ is_S (st n) = true /\ 0 < infected_neighbors G0 st n.
Proof.
  induction ns as [|a ns IH]; intros g n; cbn [infect_scan fst In]; [tauto|].
  destruct (is_S (st a)) eqn:Ea; [|intro H; destruct (IH g n H); auto].
  destruct (0 <? infected_neighbors G0 st a) eqn:Ek;
    [|intro H; destruct (IH g n H); auto].
  apply Nat.ltb_lt in Ek.
  destruct (rnd_random g) as [r g1]. specialize (IH g1 n).
  destruct (infect_scan G0 st b ns g1) as [rest g2]. cbn [fst] in *.
  destruct (Qltb r (p_infection b (infected_neighbors G0 st a))); cbn [In].
  - intros [<-|H]; [auto | destruct (IH H); auto].
  - intro H. destruct (IH H); auto.
Qed.

(** What [epidemic_step] returns and leaves, in terms of its two scans. *)
Lemma epidemic_step_spec sim g :
  exists ti tr st' g1 g2,
    infect_scan (G sim) (state sim) (beta sim) (Nx.nodes (G sim)) g = (ti, g1)
    /\ recover_scan (state sim) (gamma sim) (Nx.nodes (G sim)) g1 = (tr, g2)
    /\ epidemic_step sim g
       = ((length (node_set ti), length (node_set tr)), with_state sim st', g2)
    /\ forall n, st' n = if Nx.mem n tr then RECOVERED
                         else if Nx.mem n ti then INFECTED
                              else state sim n.
Proof.
  unfold epidemic_step.
  destruct (infect_scan (G sim) (state sim) (beta sim) (Nx.nodes (G sim)) g)
    as [ti g1] eqn:Ei.
  destruct (recover_scan (state sim) (gamma sim) (Nx.nodes (G sim)) g1)
    as [tr g2] eqn:Er.
  eexists ti, tr, _, g1, g2.
  split; [reflexivity|]. split; [exact Er|]. split; [reflexivity|].
  intro n. now rewrite !set_all_spec, !mem_node_set.
Qed.

Lemma infect_scan_never G0 st b ns : forall g,
    (b == 0)%Q -> fst (infect_scan G0 st b ns g) = [].
Proof.
  intros g Hb. revert g.
  assert (Hp : forall k, Qle_bool (p_infection b k) 0 = true).
  { intro k. apply Qle_bool_iff. unfold p_infection. rewrite Hb.
    setoid_replace (1 - 0)%Q with 1%Q by reflexivity.
    rewrite Qpower_1. apply Qle_refl. }
  induction ns as [|n ns IH]; intro g; cbn [infect_scan fst]; [reflexivity|].
  destruct (is_S (st n)); [|now apply IH].
  destruct (0 <? infected_neighbors G0 st n); [|now apply IH].
  pose proof (rnd_random_lo g) as Hlo.
  destruct (rnd_random g) as [r g1]. cbn [fst] in Hlo.
  specialize (IH g1). destruct (infect_scan G0 st b ns g1) as [rest g2].
  cbn [fst] in *. now rewrite (Qltb_nonpos r _ Hlo (Hp _)).
Qed.

(** X4 (the counts [epidemic_step] returns).  On a graph with distinct
    nodes, [epidemic_step] returns exactly the numbers of nodes that changed
    state: the susceptible count falls by [num_infections], the recovered
    count rises by [num_recoveries], and the infected count changes by their
    difference. *)
Theorem epidemic_step_counts (sim : Sim) (g : R) :
  distinct (Nx.nodes (G sim)) = true ->
  let out := fst (fst (epidemic_step sim g)) in
  let sim' := snd (fst (epidemic_step sim g)) in
  cS (count_states sim') + fst out = cS (count_states sim)
  /\ cR (count_states sim') = cR (count_states sim) + snd out
  /\ cI (count_states sim') + snd out = cI (count_states sim) + fst out
  /\ fst out <= cS (count_states sim)
  /\ snd out <= cI (count_states sim).
Proof.
  intros Hd out sim'. apply distinct_NoDup in Hd.
  destruct (epidemic_step_spec sim g)
    as (ti & tr & st' & g1 & g2 & Hti & Htr & Hstep & Hst).
  subst out sim'. rewrite Hstep. cbn [fst snd].
  pose proof (infect_scan_sound (G sim) (state sim) (beta sim)
                                (Nx.nodes (G sim)) g) as Hi.
  pose proof (recover_scan_sound (state sim) (gamma sim)
                                 (Nx.nodes (G sim)) g1) as Hr.
  rewrite Hti in Hi. rewrite Htr in Hr. cbn [fst] in Hi, Hr.
  unfold count_states. cbn [G state with_state].
  rewrite !counts_filter. cbn [cS cI cR fst snd].
  set (ns := Nx.nodes (G sim)) in *.
  (* susceptible: those not chosen for infection *)
  assert (HS : length (filter (fun n => is_S (st' n)) ns)
               + length (node_set ti)
               = length (filter (fun n => is_S (state sim n)) ns)).
  { rewrite <- (filter_remove_length (fun n => is_S (state sim n))
                                     (node_set ti) ns Hd).
    - f_equal. apply filter_length_eq. intros n Hn. rewrite Hst, mem_node_set.
      destruct (Nx.mem n tr) eqn:Etr.
      + apply NxFacts.mem_In, Hr in Etr as [_ Etr].
        destruct (state sim n); try discriminate; reflexivity.
      + destruct (Nx.mem n ti); cbn [negb is_S]; [now rewrite andb_false_r|].
        now rewrite andb_true_r.
    - apply set_iter_NoDup.
    - intros x Hx. apply (proj1 (node_set_In _ _)) in Hx. now apply Hi. }
  (* recovered: the former ones and those chosen for recovery *)
  assert (HR : length (filter (fun n => is_R (state sim n)) ns)
               + length (node_set tr)
               = length (filter (fun n => is_R (st' n)) ns)).
  { rewrite <- (filter_remove_length (fun n => is_R (st' n))
                                     (node_set tr) ns Hd).
    - f_equal. apply filter_length_eq. intros n Hn. rewrite Hst, mem_node_set.
      destruct (Nx.mem n tr) eqn:Etr; cbn [negb is_R].
      + apply NxFacts.mem_In, Hr in Etr as [_ Etr].
        destruct (state sim n); try discriminate; reflexivity.
      + rewrite andb_true_r. destruct (Nx.mem n ti) eqn:Eti; [|reflexivity].
        apply NxFacts.mem_In, Hi in Eti as [_ Eti].
        destruct (state sim n); try discriminate; reflexivity.
    - apply set_iter_NoDup.
    - intros x Hx. apply (proj1 (node_set_In _ _)) in Hx.
      destruct (Hr x Hx) as [Hin _]. split; [exact Hin|].
      rewrite Hst. apply NxFacts.mem_In in Hx. now rewrite Hx. }
  (* the totals agree *)
  pose proof (counts_filter (G sim) (state sim)) as C0.
  pose proof (counts_filter (G sim) st') as C1.
  pose proof (count_states_sum sim) as T0.
  pose proof (count_states_sum (with_state sim st')) as T1.
  unfold count_states in T0, T1. cbn [G state with_state] in T0, T1.
  rewrite C0 in T0. rewrite C1 in T1. fold ns in T0, T1.
  assert (HI0 : length (node_set tr)
                <= length (filter (fun n => is_I (state sim n)) ns)).
  { apply NoDup_incl_length; [apply set_iter_NoDup|].
    intros x Hx. apply (proj1 (node_set_In _ _)) in Hx.
    apply filter_In. now apply Hr. }
  lia.
Qed.

End EpidemicStep.

(** ** Runs with a fixed node list *)

Lemma chain_Forall {A : Type} (Rel : A -> A -> Prop) (P : A -> Prop) l : forall a,
    P a -> (forall x y, P x -> Rel x y -> P y) -> chain Rel a l -> Forall P l.
Proof.
  induction l as [|b l IH]; intros a Pa Hstep Hc; [constructor|].
  destruct Hc as [Hab Hc]. assert (Pb : P b) by exact (Hstep a b Pa Hab).
  constructor; [exact Pb|]. now apply (IH b).
Qed.

Section FixedNodes.

Context {R : Type} {RNG : PyRandom R} {SET : PySet}.

(** One pass of the loop on a graph whose neighbours are nodes: the node
    list and the parameters stay, and the states change as the two scans of
    [epidemic_step] decide. *)
Lemma pass_facts sim g o1 s2 g1 o2 s3 g2 :
  Nx.Closed (G sim) ->
  adaptive_step sim g = (o1, s2, g1) ->
  epidemic_step s2 g1 = (o2, s3, g2) ->
  Nx.Closed (G s3) /\ Nx.nodes (G s3) = Nx.nodes (G sim)
  /\ beta s3 = beta sim /\ gamma s3 = gamma sim
  /\ alpha s3 = alpha sim /\ mu s3 = mu sim /\ N s3 = N sim
  /\ exists ti tr,
      (forall n, In n ti -> is_S (state sim n) = true)
      /\ (forall n, In n tr -> is_I (state sim n) = true)
      /\ ((beta sim == 0)%Q -> ti = [])
      /\ (Qle_bool (gamma sim) 0 = true -> tr = [])
      /\ forall n, state s3 n = if Nx.mem n tr then RECOVERED
                                else if Nx.mem n ti then INFECTED
                                     else state sim n.
Proof.
  intros HC Ha He.
  destruct (adaptive_step_shape sim g) as (o & G' & g1' & Hsh & _ & HG').
  rewrite Hsh in Ha. injection Ha as <- <- <-.
  destruct (HG' HC) as [Hn HC'].
  destruct (epidemic_step_spec (with_G sim G') g1')
    as (ti & tr & st' & ga & gb & Hti & Htr & Hstep & Hst).
  rewrite Hstep in He. injection He as <- <- <-.
  cbn [G state beta gamma alpha mu N with_state with_G] in *.
  repeat (split; [assumption || reflexivity|]).
  exists ti, tr.
  pose proof (infect_scan_sound G' (state sim) (beta sim) (Nx.nodes G') g1') as Hi.
  pose proof (recover_scan_sound (state sim) (gamma sim) (Nx.nodes G') ga) as Hr.
  pose proof (infect_scan_never G' (state sim) (beta sim) (Nx.nodes G') g1') as Hi0.
  pose proof (recover_scan_never (state sim) (gamma sim) (Nx.nodes G') ga) as Hr0.
  rewrite Hti in Hi, Hi0. rewrite Htr in Hr, Hr0. cbn [fst] in *.
  split; [intros n Hn'; now apply Hi|].
  split; [intros n Hn'; now apply Hr|].
  split; [exact Hi0|]. split; [exact Hr0 | exact Hst].
Qed.

(** X5 (no transmission).  With β = 0, on a graph whose neighbours are
    nodes, nobody is infected during a run: every node that is susceptible
    at the start is susceptible at the end, and every recorded [S] is the
    susceptible count of the start. *)
Theorem no_transmission_run (max_steps : Z) (track : bool) (sim : Sim) (g : R) :
  (beta sim == 0)%Q ->
  Nx.closed (G sim) = true ->
  exists sim' g',
    run max_steps track sim g = (Ok sim', g')
    /\ (forall n, state sim n = SUSCEPTIBLE -> state sim' n = SUSCEPTIBLE)
    /\ Forall (fun s => s = cS (count_states sim)) (ts_S (time_series sim')).
Proof.
  intros Hb HC. apply NxFacts.closed_Closed in HC. unfold run.
  destruct (run_loop_rows
              (fun s => (beta s == 0)%Q /\ Nx.Closed (G s)
                        /\ Nx.nodes (G s) = Nx.nodes (G sim)
                        /\ forall n, state sim n = SUSCEPTIBLE ->
                                     state s n = SUSCEPTIBLE)
              (fun c c' => cS c' = cS c))
    with (left := Z.to_nat max_steps) (t := 0) (track := track)
         (sim := with_series sim empty_series empty_metrics) (g := g)
    as (rows & sim' & g' & Hrun & (_ & _ & _ & Hst) & HS & _ & _ & _ & Hlen
        & Hhd & _).
  - intros s ts nm H. exact H.
  - intros s g0 o1 s2 g1 o2 s3 g2 (Hb' & HC' & Hn & HS) Had Hep.
    destruct (pass_facts s g0 _ _ _ _ _ _ HC' Had Hep)
      as (HC3 & Hn3 & Hb3 & _ & _ & _ & _ & ti & tr & _ & Htr & Hti0 & _ & Hst).
    specialize (Hti0 Hb'). subst ti.
    assert (Hkeep : forall n, is_S (state s3 n) = is_S (state s n)).
    { intro n. rewrite Hst. cbn [Nx.mem existsb].
      destruct (Nx.mem n tr) eqn:E; [|reflexivity].
      apply NxFacts.mem_In, Htr in E.
      destruct (state s n); try discriminate; reflexivity. }
    split.
    + split; [now rewrite Hb3|]. split; [exact HC3|].
      split; [congruence|]. intros n Hn0.
      specialize (HS n Hn0). specialize (Hkeep n). rewrite HS in Hkeep.
      destruct (state s3 n); try discriminate; reflexivity.
    + unfold count_states. rewrite !counts_filter, Hn3. cbn [cS fst].
      apply filter_length_eq. intros n _. apply Hkeep.
  - cbn [beta G state with_series]. auto.
  - exists sim', g'. split; [exact Hrun|]. split; [exact Hst|].
    cbn [time_series with_series empty_series ts_S app] in HS. rewrite HS.
    change (count_states sim)
      with (count_states (with_series sim empty_series empty_metrics)).
    destruct (Z.to_nat max_steps) as [|left] eqn:El.
    + destruct rows; [constructor|]. cbn [length] in Hlen. lia.
    + destruct (Hhd (Nat.lt_0_succ _)) as (rest & -> & Hch).
      cbn [map]. constructor; [reflexivity|].
      apply Forall_map.
      apply (chain_Forall (fun c c' => cS c' = cS c)
                          (fun c => cS c = cS (count_states
                             (with_series sim empty_series empty_metrics)))
                          rest _ eq_refl); [|exact Hch].
      intros x y Hx Hxy. congruence.
Qed.

End FixedNodes.

Lemma nth_map_counts (f : nat * nat * nat -> nat) l : forall j,
    f (0, 0, 0) = 0 -> nth j (map f l) 0 = f (nth j l (0, 0, 0)).
Proof.
  induction l as [|a l IH]; intros [|j] H; cbn [map nth]; auto.
Qed.

Section SeriesOrder.

Context {R : Type} {RNG : PyRandom R} {SET : PySet}.

(** X6 (the series only move forward).  On a graph whose neighbours are
    nodes, from one recorded entry to the next [S] never rises and [R] never
    falls. *)
Theorem series_monotone (max_steps : Z) (track : bool) (sim : Sim) (g : R) :
  Nx.closed (G sim) = true ->
  exists sim' g',
    run max_steps track sim g = (Ok sim', g')
    /\ forall j, j + 1 < length (ts_t (time_series sim')) ->
                 nth (j + 1) (ts_S (time_series sim')) 0
                 <= nth j (ts_S (time_series sim')) 0
                 /\ nth j (ts_R (time_series sim')) 0
                    <= nth (j + 1) (ts_R (time_series sim')) 0.
Proof.
  intro HC. apply NxFacts.closed_Closed in HC. unfold run.
  destruct (run_loop_rows
              (fun s => Nx.Closed (G s))
              (fun c c' => cS c' <= cS c /\ cR c <= cR c'))
    with (left := Z.to_nat max_steps) (t := 0) (track := track)
         (sim := with_series sim empty_series empty_metrics) (g := g)
    as (rows & sim' & g' & Hrun & _ & HS & _ & HR & Ht & Hlen & Hhd & _).
  - intros s ts nm H. exact H.
  - intros s g0 o1 s2 g1 o2 s3 g2 HC' Had Hep.
    destruct (pass_facts s g0 _ _ _ _ _ _ HC' Had Hep)
      as (HC3 & Hn3 & _ & _ & _ & _ & _ & ti & tr & Hti & Htr & _ & _ & Hst).
    split; [exact HC3|].
    unfold count_states. rewrite !counts_filter, Hn3. cbn [cS cR fst snd].
    split; apply filter_length_le; intros n _; rewrite Hst.
    + destruct (Nx.mem n tr); [discriminate|].
      destruct (Nx.mem n ti); [discriminate | auto].
    + intro Hr. destruct (Nx.mem n tr) eqn:Etr; [reflexivity|].
      destruct (Nx.mem n ti) eqn:Eti; [|exact Hr].
      apply NxFacts.mem_In, Hti in Eti.
      destruct (state s n); discriminate.
  - exact HC.
  - exists sim', g'. split; [exact Hrun|].
    cbn [time_series with_series empty_series ts_S ts_R ts_t app] in HS, HR, Ht.
    rewrite HS, HR, Ht, length_seq. intros j Hj.
    destruct (Z.to_nat max_steps) as [|left]; [lia|].
    destruct (Hhd (Nat.lt_0_succ _)) as (rest & -> & Hch).
    pose proof (chain_nth _ (0, 0, 0) rest _ j Hch Hj) as [H1 H2].
    rewrite !(nth_map_counts cS), !(nth_map_counts cR) by reflexivity.
    split; assumption.
Qed.

(** X7 (no recovery).  With γ ≤ 0 and β in [[0, 1]], on a graph whose
    neighbours are nodes and with somebody infected at the start, nobody recovers and the run
    never stops early: it records exactly [max_steps] entries, each with the
    recovered count of the start and at least the infected count of the
    start. *)
Theorem no_recovery_run (max_steps : Z) (track : bool) (sim : Sim) (g : R) :
  in_unit_interval (beta sim) = true ->
  Qle_bool (gamma sim) 0 = true ->
  Nx.closed (G sim) = true ->
  cI (count_states sim) <> 0 ->
  exists sim' g',
    run max_steps track sim g = (Ok sim', g')
    /\ length (ts_t (time_series sim')) = Z.to_nat max_steps
    /\ Forall (fun r => r = cR (count_states sim)) (ts_R (time_series sim'))
    /\ Forall (fun i => cI (count_states sim) <= i) (ts_I (time_series sim')).
Proof.
  intros _ Hg HC Hi0. apply NxFacts.closed_Closed in HC. unfold run.
  destruct (run_loop_rows
              (fun s => Qle_bool (gamma s) 0 = true /\ Nx.Closed (G s))
              (fun c c' => cR c' = cR c /\ cI c <= cI c'))
    with (left := Z.to_nat max_steps) (t := 0) (track := track)
         (sim := with_series sim empty_series empty_metrics) (g := g)
    as (rows & sim' & g' & Hrun & _ & _ & HI & HR & Ht & Hlen & Hhd & _
        & Hlast & _).
  - intros s ts nm H. exact H.
  - intros s g0 o1 s2 g1 o2 s3 g2 (Hg' & HC') Had Hep.
    destruct (pass_facts s g0 _ _ _ _ _ _ HC' Had Hep)
      as (HC3 & Hn3 & _ & Hg3 & _ & _ & _ & ti & tr & Hti & _ & _ & Htr0 & Hst).
    specialize (Htr0 Hg'). subst tr.
    split; [split; [now rewrite Hg3 | exact HC3]|].
    unfold count_states. rewrite !counts_filter, Hn3. cbn [cI cR fst snd].
    split.
    + apply filter_length_eq. intros n _. rewrite Hst. cbn [Nx.mem existsb].
      destruct (Nx.mem n ti) eqn:Eti; [|reflexivity].
      apply NxFacts.mem_In, Hti in Eti.
      destruct (state s n); try discriminate; reflexivity.
    + apply filter_length_le. intros n _ Hn. rewrite Hst. cbn [Nx.mem existsb].
      destruct (Nx.mem n ti); [reflexivity | exact Hn].
  - cbn [gamma G with_series]. auto.
  - exists sim', g'. split; [exact Hrun|].
    cbn [time_series with_series empty_series ts_I ts_R ts_t app] in HI, HR, Ht.
    rewrite HI, HR, Ht, length_seq.
    change (count_states sim)
      with (count_states (with_series sim empty_series empty_metrics)) in *.
    set (c0 := count_states (with_series sim empty_series empty_metrics)) in *.
    assert (Hall : Forall (fun c => cR c = cR c0 /\ cI c0 <= cI c) rows).
    { destruct (Z.to_nat max_steps) as [|left].
      - destruct rows; [constructor | cbn [length] in Hlen; lia].
      - destruct (Hhd (Nat.lt_0_succ _)) as (rest & -> & Hch).
        constructor; [split; [reflexivity | lia]|].
        apply (chain_Forall (fun c c' => cR c' = cR c /\ cI c <= cI c')
                            (fun c => cR c = cR c0 /\ cI c0 <= cI c)
                            rest c0); [split; [reflexivity | lia] | | exact Hch].
        intros x y [Hx1 Hx2] [Hy1 Hy2]. split; [congruence | lia]. }
    split.
    + destruct (Nat.eq_dec (length rows) (Z.to_nat max_steps)) as [E|E];
        [exact E|].
      exfalso. assert (Hlt : length rows < Z.to_nat max_steps) by lia.
      specialize (Hlast Hlt).
      destruct (Z.to_nat max_steps) as [|left]; [lia|].
      destruct (Hhd (Nat.lt_0_succ _)) as (rest & Hrows & _).
      assert (Hin : In (last rows (0, 0, 0)) rows).
      { rewrite Hrows. destruct (exists_last (l := c0 :: rest)) as (l' & a & E');
          [discriminate|]. rewrite E', last_last. apply in_or_app. right.
        now left. }
      rewrite Forall_forall in Hall. destruct (Hall _ Hin) as [_ Hge]. lia.
    + split; apply Forall_map; eapply Forall_impl; try exact Hall;
        intros c [H1 H2]; assumption.
Qed.

(** X8 (infection needs an infected neighbour).  A node that
    [epidemic_step] turns from SUSCEPTIBLE to INFECTED is a node of the
    graph and had at least one INFECTED neighbour in the states before the
    step. *)
Theorem infection_needs_infected_neighbor (sim : Sim) (g : R) (n : node) :
  state sim n = SUSCEPTIBLE ->
  state (snd (fst (epidemic_step sim g))) n = INFECTED ->
  In n (Nx.nodes (G sim))
  /\ exists m, In m (Nx.neighbors (G sim) n) /\ state sim m = INFECTED.
Proof.
  intros HS HI.
  destruct (epidemic_step_spec sim g)
    as (ti & tr & st' & g1 & g2 & Hti & Htr & Hstep & Hst).
  rewrite Hstep in HI. cbn [fst snd state with_state] in HI.
  rewrite Hst in HI.
  destruct (Nx.mem n tr); [discriminate|].
  destruct (Nx.mem n ti) eqn:Eti; [|congruence].
  apply NxFacts.mem_In in Eti.
  pose proof (infect_scan_exposed (G sim) (state sim) (beta sim)
                                  (Nx.nodes (G sim)) g n) as Hex.
  rewrite Hti in Hex. destruct (Hex Eti) as (Hin & _ & Hk).
  split; [exact Hin|].
  unfold infected_neighbors in Hk.
  destruct (filter (fun x => is_I (state sim x)) (Nx.neighbors (G sim) n))
    as [|m l] eqn:Ef; [cbn in Hk; lia|].
  assert (Hm : In m (filter (fun x => is_I (state sim x))
                            (Nx.neighbors (G sim) n)))
    by (rewrite Ef; now left).
  apply filter_In in Hm as [Hm1 Hm2]. exists m. split; [exact Hm1|].
  destruct (state sim m); try discriminate; reflexivity.
Qed.

End SeriesOrder.

(** ** Patient zero and the summary queries *)

Lemma fold_right_max_ge l x : In x l -> x <= fold_right Nat.max 0 l.
Proof.
  induction l as [|a l IH]; [contradiction|].
  cbn [fold_right]. intros [->|H]; [lia|]. specialize (IH H). lia.
Qed.

Lemma fold_right_max_le l b :
  Forall (fun x => x <= b) l -> fold_right Nat.max 0 l <= b.
Proof.
  induction 1 as [|a l Ha _ IH]; cbn [fold_right]; lia.
Qed.

Section Queries.

Context {R : Type} {RNG : PyRandom R} {SET : PySet}.

(** X9 (patient zero).  On a graph without nodes [infect_random_node]
    raises [IndexError] and draws nothing.  Otherwise it returns a node of
    the graph and sets the state of that node, whatever it was, to INFECTED;
    the other states and the graph stay. *)
Theorem infect_random_node_spec (sim : Sim) (g : R) :
  match Nx.nodes (G sim) with
  | [] => infect_random_node sim g = (Raise IndexError, g)
  | _ :: _ =>
      exists p sim' g',
        infect_random_node sim g = (Ok (p, sim'), g')
        /\ In p (Nx.nodes (G sim))
        /\ G sim' = G sim
        /\ state sim' p = INFECTED
        /\ forall n, n <> p -> state sim' n = state sim n
  end.
Proof.
  unfold infect_random_node.
  destruct (Nx.nodes (G sim)) as [|a l] eqn:En; [reflexivity|].
  pose proof (rnd_randbelow_lt (length (a :: l)) g) as Hlt.
  destruct (rnd_randbelow (length (a :: l)) g) as [i g1]. cbn [fst] in Hlt.
  eexists _, _, _. split; [reflexivity|].
  split; [apply nth_In, Hlt; cbn [length]; lia|].
  cbn [G state with_state]. unfold set_state.
  split; [reflexivity|]. split; [now rewrite Nat.eqb_refl|].
  intros n Hn. apply Nat.eqb_neq in Hn. now rewrite Hn.
Qed.

(** What a run leaves for the summary queries. *)
Lemma run_summary (max_steps : Z) (track : bool) (sim : Sim) (g : R) :
  Nx.closed (G sim) = true ->
  N sim = Nx.number_of_nodes (G sim) ->
  0 < N sim ->
  (0 < max_steps)%Z ->
  exists sim' g' q,
    run max_steps track sim g = (Ok sim', g')
    /\ recorded (time_series sim')
    /\ 1 <= get_epidemic_duration sim' <= Z.to_nat max_steps
    /\ cI (count_states sim) <= get_peak_infected sim' <= N sim
    /\ get_final_size sim' = Ok q
    /\ q = (Z.of_nat (last (ts_R (time_series sim')) 0%nat)
             # Pos.of_nat (N sim))%Q
    /\ (0 <= q)%Q /\ (q <= 1)%Q.
Proof.
  intros HC HN HN0 Hm. apply NxFacts.closed_Closed in HC.
  unfold run, get_epidemic_duration, get_peak_infected, get_final_size.
  destruct (run_loop_rows
              (fun s => Nx.Closed (G s)
                        /\ length (Nx.nodes (G s)) = N sim /\ N s = N sim)
              (fun _ c' => cS c' + cI c' + cR c' = N sim))
    with (left := Z.to_nat max_steps) (t := 0) (track := track)
         (sim := with_series sim empty_series empty_metrics) (g := g)
    as (rows & sim' & g' & Hrun & (_ & _ & HN') & HS & HI & HR & Ht & Hlen
        & Hhd & _).
  - intros s ts nm H. exact H.
  - intros s g0 o1 s2 g1 o2 s3 g2 (HC' & Hl & HNs) Had Hep.
    destruct (pass_facts s g0 _ _ _ _ _ _ HC' Had Hep)
      as (HC3 & Hn3 & _ & _ & _ & _ & HN3 & _).
    split; [split; [exact HC3 | split; congruence]|].
    pose proof (count_states_sum s3) as Hsum.
    destruct (count_states s3) as [[s' i'] r']. cbn [cS cI cR fst snd].
    rewrite Hsum. unfold Nx.number_of_nodes.
    unfold Nx.nodes in Hn3, Hl. rewrite <- Hl, <- Hn3. now rewrite !length_map.
  - cbn [G N with_series]. split; [exact HC|]. split; [|reflexivity].
    rewrite HN. unfold Nx.number_of_nodes, Nx.nodes. now rewrite length_map.
  - cbn [time_series with_series empty_series ts_S ts_I ts_R ts_t app]
      in HS, HI, HR, Ht.
    destruct (Z.to_nat max_steps) as [|left] eqn:El; [lia|].
    destruct (Hhd (Nat.lt_0_succ _)) as (rest & Hrows & Hch).
    change (count_states (with_series sim empty_series empty_metrics))
      with (count_states sim) in *.
    assert (Hall : Forall (fun c => cS c + cI c + cR c = N sim) rows).
    { rewrite Hrows.
      assert (H0 : cS (count_states sim) + cI (count_states sim)
                   + cR (count_states sim) = N sim).
      { pose proof (count_states_sum sim) as Hsum.
        destruct (count_states sim) as [[s0 i0] r0]. cbn [cS cI cR fst snd].
        now rewrite Hsum, HN. }
      constructor; [exact H0|].
      apply (chain_Forall (fun _ c' => cS c' + cI c' + cR c' = N sim)
                          (fun c => cS c + cI c + cR c = N sim)
                          rest (count_states sim) H0); [|exact Hch].
      intros x y _ Hy. exact Hy. }
    destruct (exists_last (l := rows)) as (l' & c & Hl');
      [rewrite Hrows; discriminate|].
    assert (Hc : cR c <= N sim).
    { rewrite Forall_forall in Hall.
      specialize (Hall c). rewrite Hl' in Hall.
      assert (In c (l' ++ [c])) by (apply in_or_app; right; now left).
      specialize (Hall H). lia. }
    exists sim', g', (Z.of_nat (cR c) # Pos.of_nat (N sim))%Q.
    unfold recorded.
    rewrite HS, HI, HR, Ht, !length_map, length_seq, HN'.
    split; [exact Hrun|].
    split; [rewrite Hrows; cbn [length]; repeat split; lia|].
    split; [rewrite Hrows in *; cbn [length] in *; lia|].
    split.
    { split.
      - apply fold_right_max_ge. rewrite Hrows. cbn [map]. now left.
      - apply fold_right_max_le, Forall_map.
        eapply Forall_impl; [|exact Hall]. intros x Hx. cbn beta in *. lia. }
    rewrite Hl', map_app. cbn [map]. rewrite rev_app_distr, last_last.
    cbn [rev app].
    unfold truediv. destruct (N sim =? 0) eqn:E0;
      [apply Nat.eqb_eq in E0; lia|].
    split; [reflexivity|]. split; [reflexivity|].
    unfold Qle. cbn [Qnum Qden].
    assert (Hpos : Z.pos (Pos.of_nat (N sim)) = Z.of_nat (N sim)).
    { destruct (N sim) as [|n]; [lia|].
      rewrite <- Pos.of_nat_succ, Zpos_P_of_succ_nat. lia. }
    rewrite Hpos. split; lia.
Qed.

(** X10 (summary queries after a run).  On a graph with [N > 0] nodes whose
    neighbours are nodes, after a run with a positive step bound: the
    duration lies between 1 and [max_steps]; the peak lies between the
    infected count of the start and [N]; and [get_final_size] returns the
    last recovered count over [N], a value between 0 and 1. *)
Theorem summary_after_run (max_steps : Z) (track : bool) (sim : Sim) (g : R) :
  Nx.closed (G sim) = true ->
  N sim = Nx.number_of_nodes (G sim) ->
  0 < N sim ->
  (0 < max_steps)%Z ->
  exists sim' g' q,
    run max_steps track sim g = (Ok sim', g')
    /\ 1 <= get_epidemic_duration sim' <= Z.to_nat max_steps
    /\ cI (count_states sim) <= get_peak_infected sim' <= N sim
    /\ get_final_size sim' = Ok q
    /\ q = (Z.of_nat (last (ts_R (time_series sim')) 0%nat)
             # Pos.of_nat (N sim))%Q
    /\ (0 <= q)%Q /\ (q <= 1)%Q.
Proof.
  intros HC HN HN0 Hm.
  destruct (run_summary max_steps track sim g HC HN HN0 Hm)
    as (sim' & g' & q & Hrun & _ & H).
  exists sim', g', q. split; [exact Hrun | exact H].
Qed.

(** X11 (the empty graph and the final size).  After a run with a positive
    step bound on the graph without nodes, the duration is 1 and the peak
    is 0, but [get_final_size] raises [ZeroDivisionError]: the recorded [R]
    is not empty and [N] is 0. *)
Theorem final_size_empty_graph (b ga a m : Q) (st : StateMap)
        (max_steps : Z) (track : bool) (g : R) :
  (0 < max_steps)%Z ->
  exists sim',
    run max_steps track (prepared [] b ga a m st) g = (Ok sim', g)
    /\ get_epidemic_duration sim' = 1
    /\ get_peak_infected sim' = 0
    /\ get_final_size sim' = Raise ZeroDivisionError.
Proof.
  intro Hm. unfold run.
  destruct (Z.to_nat max_steps) as [|left] eqn:E; [lia|].
  destruct track; eexists; cbn; repeat split; reflexivity.
Qed.

End Queries.

(** ** Averaging the series of repeated runs *)

Lemma skipn_repeat {A : Type} (x : A) k : forall n,
    skipn k (repeat x n) = repeat x (n - k).
Proof.
  induction k as [|k IH]; intro n; [now rewrite Nat.sub_0_r|].
  destruct n as [|n]; [reflexivity|]. cbn [repeat skipn]. apply IH.
Qed.

Lemma assign_slice_fits M len xs :
  length xs = len -> len <= M ->
  assign_slice (repeat 0 M) len xs = Ok (xs ++ repeat 0 (M - len)).
Proof.
  intros Hx Hle. unfold assign_slice. rewrite repeat_length.
  rewrite (Nat.min_l len M Hle), Hx, Nat.eqb_refl.
  now rewrite skipn_repeat.
Qed.

Lemma rev_last_cons {A : Type} (xs : list A) d :
  xs <> [] -> exists l, rev xs = last xs d :: l.
Proof.
  intro Hne. destruct (exists_last Hne) as (l & a & ->).
  rewrite rev_app_distr, last_last. cbn [rev app]. now exists (rev l).
Qed.

Lemma fill_tail_fits M len xs :
  xs <> [] -> length xs = len -> len <= M ->
  fill_tail (xs ++ repeat 0 (M - len)) len xs
  = Ok (xs ++ repeat (last xs 0) (M - len)).
Proof.
  intros Hne <- Hle. unfold fill_tail.
  destruct (rev_last_cons xs 0 Hne) as [l ->].
  rewrite length_app, repeat_length.
  rewrite firstn_app, Nat.sub_diag, firstn_all. cbn [firstn].
  rewrite app_nil_r. do 3 f_equal. lia.
Qed.

Lemma nth_last {A : Type} (xs : list A) d :
  nth (length xs - 1) xs d = last xs d.
Proof.
  destruct xs as [|x xs]; [reflexivity|].
  assert (Hne : x :: xs <> []) by discriminate.
  destruct (exists_last Hne) as (l & a & ->).
  rewrite last_last, length_app. cbn [length].
  replace (length l + 1 - 1) with (length l) by lia.
  rewrite app_nth2 by lia. now rewrite Nat.sub_diag.
Qed.

Lemma pads_fill M len xs :
  length xs = len -> len <= M ->
  pads M xs (xs ++ repeat (last xs 0) (M - len)).
Proof.
  intros <- Hle. split.
  - rewrite length_app, repeat_length. lia.
  - intros j Hj. destruct (Nat.lt_ge_cases j (length xs)) as [Hlt|Hge].
    + rewrite app_nth1 by exact Hlt. f_equal. lia.
    + rewrite app_nth2 by exact Hge. rewrite nth_repeat_lt by lia.
      replace (Nat.min j (length xs - 1)) with (length xs - 1) by lia.
      symmetry. apply nth_last.
Qed.

(** One series that fits into [M] columns gives its three padded rows. *)
Lemma series_rows_fits M ts :
  recorded ts -> length (ts_t ts) <= M ->
  exists r, series_rows M ts = Ok r
            /\ pads M (ts_S ts) (fst (fst r))
            /\ pads M (ts_I ts) (snd (fst r))
            /\ pads M (ts_R ts) (snd r).
Proof.
  intros (HS & HI & HR & Hpos) Hle. unfold series_rows.
  assert (Hne : forall xs : list nat, length xs = length (ts_t ts) -> xs <> []).
  { intros xs Hx ->. cbn [length] in Hx. lia. }
  rewrite HS.
  rewrite (assign_slice_fits M _ (ts_S ts) HS Hle).
  rewrite (assign_slice_fits M _ (ts_I ts) HI Hle).
  rewrite (assign_slice_fits M _ (ts_R ts) HR Hle).
  cbn [bind_result].
  destruct (length (ts_t ts) <? M) eqn:E.
  - rewrite (fill_tail_fits M _ (ts_S ts) (Hne _ HS) HS Hle).
    rewrite (fill_tail_fits M _ (ts_I ts) (Hne _ HI) HI Hle).
    rewrite (fill_tail_fits M _ (ts_R ts) (Hne _ HR) HR Hle).
    cbn [bind_result].
    eexists. split; [reflexivity|]. cbn [fst snd].
    split; [now apply pads_fill|]. split; now apply pads_fill.
  - apply Nat.ltb_ge in E.
    assert (HM : M - length (ts_t ts) = 0) by lia. rewrite HM.
    eexists. split; [reflexivity|]. cbn [fst snd repeat].
    assert (Hp : forall xs, length xs = length (ts_t ts) -> pads M xs (xs ++ [])).
    { intros xs Hx. pose proof (pads_fill M _ xs Hx Hle) as Hp.
      now rewrite HM in Hp. }
    split; [now apply Hp|]. split; now apply Hp.
Qed.

Lemma map_result_Forall2 {A B : Type} (f : A -> result B) (P : A -> B -> Prop) l :
  (forall x, In x l -> exists y, f x = Ok y /\ P x y) ->
  exists ys, map_result f l = Ok ys /\ Forall2 P l ys.
Proof.
  induction l as [|x l IH]; intro H; cbn [map_result].
  - exists []. split; [reflexivity | constructor].
  - destruct (H x (or_introl eq_refl)) as (y & Hy & Py).
    destruct IH as (ys & Hys & Pys); [intros z Hz; apply H; now right|].
    rewrite Hy, Hys. cbn [bind_result]. exists (y :: ys).
    split; [reflexivity | now constructor].
Qed.

Lemma map_result_raise {A B : Type} (f : A -> result B) e l x0 :
  (forall x, In x l -> f x = Raise e \/ exists y, f x = Ok y) ->
  In x0 l -> f x0 = Raise e ->
  map_result f l = Raise e.
Proof.
  induction l as [|x l IH]; intros H Hin H0; [contradiction|].
  cbn [map_result].
  destruct (H x (or_introl eq_refl)) as [Hx|[y Hy]].
  - now rewrite Hx.
  - rewrite Hy. cbn [bind_result].
    destruct Hin as [->|Hin]; [congruence|].
    rewrite IH; [reflexivity | | exact Hin | exact H0].
    intros z Hz. apply H. now right.
Qed.

Lemma fold_left_max l : forall x,
    x <= fold_left Nat.max l x
    /\ Forall (fun y => y <= fold_left Nat.max l x) l
    /\ (fold_left Nat.max l x = x \/ In (fold_left Nat.max l x) l).
Proof.
  induction l as [|a l IH]; intro x; cbn [fold_left].
  - split; [lia|]. split; [constructor | now left].
  - destruct (IH (Nat.max x a)) as (H1 & H2 & H3).
    split; [lia|]. split; [constructor; [lia | exact H2]|].
    destruct H3 as [H3|H3]; [|right; now right].
    destruct (Nat.max_spec x a) as [[_ E]|[_ E]]; rewrite E in *.
    + right. left. now rewrite H3.
    + now left.
Qed.

Lemma py_max_spec l :
  l <> [] ->
  exists M, py_max l = Ok M /\ In M l /\ Forall (fun y => y <= M) l.
Proof.
  destruct l as [|x l]; [congruence|]. intros _. cbn [py_max].
  destruct (fold_left_max l x) as (H1 & H2 & H3).
  eexists. split; [reflexivity|]. split.
  - destruct H3 as [->|H3]; [now left | now right].
  - constructor; assumption.
Qed.

(** A recorded series that is longer than the requested number of columns
    is not cut: the assignment of its list to the shorter slice fails. *)
Lemma series_rows_long M ts :
  recorded ts -> M < length (ts_t ts) -> 2 <= length (ts_t ts) ->
  series_rows M ts = Raise ValueError.
Proof.
  intros (HS & _) Hlt H2. unfold series_rows, assign_slice.
  rewrite repeat_length, HS.
  replace (Nat.min (length (ts_t ts)) M) with M by lia.
  destruct (Nat.eqb_spec (length (ts_t ts)) M) as [E|_]; [lia|].
  destruct (Nat.eqb_spec (length (ts_t ts)) 1) as [E|_]; [lia|].
  reflexivity.
Qed.

Lemma series_rows_recorded M ts :
  recorded ts ->
  series_rows M ts = Raise ValueError \/ exists r, series_rows M ts = Ok r.
Proof.
  intro Hrec. destruct (Nat.le_gt_cases (length (ts_t ts)) M) as [Hle|Hgt].
  - right. destruct (series_rows_fits M ts Hrec Hle) as (r & Hr & _).
    now exists r.
  - destruct (Nat.le_gt_cases 2 (length (ts_t ts))) as [H2|H1].
    + left. now apply series_rows_long.
    + right. destruct Hrec as (HS & HI & HR & Hpos).
      assert (E1 : length (ts_t ts) = 1) by lia.
      assert (E0 : M = 0) by lia. subst M.
      unfold series_rows, assign_slice. rewrite HS, HI, HR, E1.
      cbn. eexists. reflexivity.
Qed.

(** X12 (padding of the series).  For recorded series (four lists of one
    positive length) and a number of columns [M] that holds the longest of
    them (the given [max_length], or the greatest length when none is
    given), [average_time_series] fills one row of [M] entries per series
    in each of the three arrays: the entries of the series, then its last
    entry repeated; [t] is [0 .. M - 1]. *)
Theorem average_time_series_pads (all_series : list TimeSeries)
        (max_length : option nat) :
  Forall recorded all_series ->
  match max_length with
  | Some m => Forall (fun ts => length (ts_t ts) <= m) all_series
  | None => all_series <> []
  end ->
  exists M rows,
    average_time_series all_series max_length = Ok (seq 0 M, rows)
    /\ match max_length with
       | Some m => M = m
       | None => exists ts, In ts all_series /\ length (ts_t ts) = M
       end
    /\ Forall (fun ts => length (ts_t ts) <= M) all_series
    /\ Forall2 (fun ts r => pads M (ts_S ts) (fst (fst r))
                            /\ pads M (ts_I ts) (snd (fst r))
                            /\ pads M (ts_R ts) (snd r))
               all_series rows.
Proof.
  intros Hrec Hmax. unfold average_time_series.
  assert (HM : exists M,
             match max_length with
             | Some m => Ok m
             | None => py_max (map (fun ts => length (ts_t ts)) all_series)
             end = Ok M
             /\ match max_length with
                | Some m => M = m
                | None => exists ts, In ts all_series /\ length (ts_t ts) = M
                end
             /\ Forall (fun ts => length (ts_t ts) <= M) all_series).
  { destruct max_length as [m|].
    - exists m. auto.
    - destruct (py_max_spec (map (fun ts => length (ts_t ts)) all_series))
        as (M & HM & Hin & Hall).
      { destruct all_series; [congruence | discriminate]. }
      exists M. split; [exact HM|]. split.
      + apply in_map_iff in Hin as (ts & E & Hts). now exists ts.
      + now apply Forall_map in Hall. }
  destruct HM as (M & -> & Hsel & Hall). cbn [bind_result].
  destruct (map_result_Forall2 (series_rows M)
              (fun ts r => pads M (ts_S ts) (fst (fst r))
                           /\ pads M (ts_I ts) (snd (fst r))
                           /\ pads M (ts_R ts) (snd r)) all_series)
    as (rows & -> & Hrows).
  { intros ts Hts. rewrite Forall_forall in Hrec, Hall.
    exact (series_rows_fits M ts (Hrec ts Hts) (Hall ts Hts)). }
  cbn [bind_result]. exists M, rows. auto.
Qed.

(** X13 (no truncation).  [max_length] does not cut a longer series: when
    one of the recorded series has more than [max_length] entries (and at
    least two), [average_time_series] raises [ValueError]. *)
Theorem average_time_series_no_truncation (all_series : list TimeSeries)
        (m : nat) (ts : TimeSeries) :
  Forall recorded all_series ->
  In ts all_series ->
  m < length (ts_t ts) ->
  2 <= length (ts_t ts) ->
  average_time_series all_series (Some m) = Raise ValueError.
Proof.
  intros Hrec Hin Hlt H2. unfold average_time_series. cbn [bind_result].
  rewrite (map_result_raise (series_rows m) ValueError all_series ts);
    [reflexivity | | exact Hin |].
  - intros x Hx. rewrite Forall_forall in Hrec.
    apply series_rows_recorded. now apply Hrec.
  - rewrite Forall_forall in Hrec. apply series_rows_long; auto.
Qed.

(** X14 (no series, no entries).  Without any series the greatest length
    cannot be taken and [average_time_series] raises [ValueError], while a
    given [max_length] yields arrays without rows; and the series of an
    object that was never run, which has no entry to repeat, raises
    [IndexError] as soon as a column is to be filled. *)
Theorem average_time_series_edge_cases :
  average_time_series [] None = Raise ValueError
  /\ (forall m, average_time_series [] (Some m) = Ok (seq 0 m, []))
  /\ (forall rest m,
         average_time_series (empty_series :: rest) (Some (S m))
         = Raise IndexError).
Proof.
  split; [reflexivity|]. split; [reflexivity|].
  intros rest m. reflexivity.
Qed.

(** ** Repeated runs *)

Lemma filter_length_pos {A : Type} (f : A -> bool) l x :
  In x l -> f x = true -> 1 <= length (filter f l).
Proof.
  intros Hin Hf.
  assert (H : In x (filter f l)) by (apply filter_In; auto).
  destruct (filter f l); [contradiction | cbn [length]; lia].
Qed.

(** The seeds [run * 1000] that numpy accepts. *)
Lemma seed_ok_iff k :
  numpy_seed_ok (Z.of_nat k * 1000) = true <-> (Z.of_nat k <= 4294967)%Z.
Proof.
  unfold numpy_seed_ok. rewrite andb_true_iff, Z.leb_le, Z.ltb_lt.
  change (2 ^ 32)%Z with 4294967296%Z. lia.
Qed.

Section RepeatedRunsFacts.

Context {R : Type} {RNG : PyRandom R} {SET : PySet}.

Lemma infect_random_node_ok sim g :
  Nx.nodes (G sim) <> [] ->
  exists p g',
    infect_random_node sim g
    = (Ok (p, with_state sim (set_state (state sim) p INFECTED)), g')
    /\ In p (Nx.nodes (G sim)).
Proof.
  intro Hne. unfold infect_random_node.
  destruct (Nx.nodes (G sim)) as [|a l] eqn:En; [congruence|].
  pose proof (rnd_randbelow_lt (length (a :: l)) g) as Hlt.
  destruct (rnd_randbelow (length (a :: l)) g) as [i g1]. cbn [fst] in Hlt.
  eexists _, _. split; [reflexivity|]. apply nth_In, Hlt. cbn [length]. lia.
Qed.

(** One pass of the loop on a graph with nodes. *)
Lemma one_run_ok gen b ga a m track res k g :
  Nx.closed (gen k) = true ->
  Nx.nodes (gen k) <> [] ->
  (Z.of_nat k <= 4294967)%Z ->
  exists p q ts nm g',
    one_run gen b ga a m track res k g
    = (Ok {| peak_infected := peak_infected res ++ [p];
             final_size := final_size res ++ [q];
             duration := duration res ++ [length (ts_t ts)];
             all_series := all_series res ++ [ts];
             results_network_metrics :=
               if track then
                 match results_network_metrics res with
                 | Some l => Some (l ++ [nm])
                 | None => None
                 end
               else results_network_metrics res |}, g')
    /\ 1 <= p <= Nx.number_of_nodes (gen k)
    /\ (0 <= q)%Q /\ (q <= 1)%Q
    /\ recorded ts
    /\ 1 <= length (ts_t ts) <= 500.
Proof.
  intros HC Hne Hseed. unfold one_run, __init__.
  rewrite (proj2 (seed_ok_iff k) Hseed).
  match goal with
  | |- context [infect_random_node ?s ?g0] =>
      destruct (infect_random_node_ok s g0 Hne) as (p & g1 & -> & Hp);
      set (sim0 := s) in *
  end.
  assert (HN : N sim0 = Nx.number_of_nodes (gen k)).
  { unfold sim0. cbn [N]. unfold Nx.number_of_nodes, Nx.nodes.
    apply length_map. }
  assert (HN0 : 0 < Nx.number_of_nodes (gen k)).
  { unfold Nx.number_of_nodes. unfold Nx.nodes in Hne.
    destruct (gen k); [now cbn in Hne | cbn [length]; lia]. }
  set (sim1 := with_state sim0 (set_state (state sim0) p INFECTED)).
  assert (H1 : 1 <= cI (count_states sim1)).
  { unfold count_states. rewrite counts_filter. cbn [cI fst snd].
    apply (filter_length_pos _ _ p); [exact Hp|].
    unfold sim1. cbn [state with_state]. unfold set_state.
    now rewrite Nat.eqb_refl. }
  destruct (run_summary 500 track sim1 g1)
    as (sim' & g' & q & Hrun & Hrec & Hd & Hpk & Hfs & _ & Hq0 & Hq1);
    [exact HC | exact HN
     | change (N sim1) with (N sim0); rewrite HN; exact HN0 | lia |].
  rewrite Hrun. cbv beta iota. rewrite Hfs.
  exists (get_peak_infected sim'), q, (time_series sim'),
    (network_metrics sim'), g'.
  split; [reflexivity|].
  unfold get_epidemic_duration in Hd.
  change (N sim1) with (N sim0) in Hpk. rewrite HN in Hpk.
  change (Z.to_nat 500) with 500 in Hd.
  split; [lia|]. split; [exact Hq0|]. split; [exact Hq1|].
  split; [exact Hrec | exact Hd].
Qed.

Lemma one_run_bad_seed gen b ga a m track res k g :
  (4294967 < Z.of_nat k)%Z ->
  exists g', one_run gen b ga a m track res k g = (Raise ValueError, g').
Proof.
  intro Hk. unfold one_run, __init__.
  destruct (numpy_seed_ok (Z.of_nat k * 1000)) eqn:E.
  - apply seed_ok_iff in E. lia.
  - eexists. reflexivity.
Qed.

Lemma one_run_no_node gen b ga a m track res k g :
  (Z.of_nat k <= 4294967)%Z ->
  Nx.nodes (gen k) = [] ->
  exists g', one_run gen b ga a m track res k g = (Raise IndexError, g').
Proof.
  intros Hk Hn. unfold one_run, __init__.
  rewrite (proj2 (seed_ok_iff k) Hk).
  unfold infect_random_node. cbn [G]. unfold Nx.copy. rewrite Hn.
  eexists. reflexivity.
Qed.

Lemma runs_loop_app gen b ga a m track l1 : forall l2 res g,
    runs_loop gen b ga a m track (l1 ++ l2) res g
    = match runs_loop gen b ga a m track l1 res g with
      | (Ok res1, g1) => runs_loop gen b ga a m track l2 res1 g1
      | (Raise e, g1) => (Raise e, g1)
      end.
Proof.
  induction l1 as [|k l1 IH]; intros l2 res g; cbn [app runs_loop];
    [reflexivity|].
  destruct (one_run gen b ga a m track res k g) as [[res1|e] g1];
    [apply IH | reflexivity].
Qed.

(** The loop over the runs, on generated graphs with nodes: what each
    collected list gains. *)
Lemma runs_loop_ok gen b ga a m track runs : forall res g,
    (forall k, In k runs ->
               Nx.closed (gen k) = true /\ Nx.nodes (gen k) <> []
               /\ (Z.of_nat k <= 4294967)%Z) ->
    exists res' g' ps qs tss nms,
      runs_loop gen b ga a m track runs res g = (Ok res', g')
      /\ peak_infected res' = peak_infected res ++ ps
      /\ final_size res' = final_size res ++ qs
      /\ duration res'
         = duration res ++ map (fun ts => length (ts_t ts)) tss
      /\ all_series res' = all_series res ++ tss
      /\ results_network_metrics res'
         = match results_network_metrics res with
           | Some l => if track then Some (l ++ nms) else Some l
           | None => None
           end
      /\ Forall2 (fun k p => 1 <= p <= Nx.number_of_nodes (gen k)) runs ps
      /\ length qs = length runs
      /\ Forall (fun q => (0 <= q)%Q /\ (q <= 1)%Q) qs
      /\ length tss = length runs
      /\ Forall (fun ts => recorded ts /\ 1 <= length (ts_t ts) <= 500) tss
      /\ length nms = length runs.
Proof.
  induction runs as [|k runs IH]; intros res g H; cbn [runs_loop].
  - exists res, g, [], [], [], []. rewrite !app_nil_r. cbn [map length].
    rewrite ?app_nil_r.
    split; [reflexivity|]. do 4 (split; [reflexivity|]).
    split; [destruct (results_network_metrics res), track;
            rewrite ?app_nil_r; reflexivity|].
    split; [constructor|]. split; [reflexivity|]. split; [constructor|].
    split; [reflexivity|]. split; [constructor | reflexivity].
  - destruct (H k (or_introl eq_refl)) as (HC & Hne & Hseed).
    destruct (one_run_ok gen b ga a m track res k g HC Hne Hseed)
      as (p & q & ts & nm & g1 & -> & Hp & Hq0 & Hq1 & Hrec & Hd).
    match goal with
    | |- context [runs_loop _ _ _ _ _ _ _ ?r g1] =>
        destruct (IH r g1) as (res' & g' & ps & qs & tss & nms & Hrun
                               & E1 & E2 & E3 & E4 & E5 & F1 & L2 & F2
                               & L3 & F3 & L4)
    end; [intros j Hj; apply H; now right|].
    cbn [peak_infected final_size duration all_series
           results_network_metrics] in E1, E2, E3, E4, E5.
    exists res', g', (p :: ps), (q :: qs), (ts :: tss), (nm :: nms).
    split; [exact Hrun|].
    rewrite E1, E2, E3, E4, E5, <- !app_assoc. cbn [app map length].
    do 4 (split; [reflexivity|]).
    split.
    { destruct track; [|reflexivity].
      destruct (results_network_metrics res); [|reflexivity].
      now rewrite <- app_assoc. }
    split; [now constructor|]. split; [now rewrite L2|].
    split; [constructor; [split; assumption | exact F2]|].
    split; [now rewrite L3|].
    split; [constructor; [split; assumption | exact F3]|].
    now rewrite L4.
Qed.

(** X15 (repeated runs).  When β lies in [[0, 1]], the generator yields,
    for every run, a graph with at least one node whose neighbours are
    nodes, and the number of runs is at most 4294968 (the seeds
    [run * 1000] that numpy accepts), [run_multiple_asir_simulations]
    returns: every collected list has one
    entry per run; each series is recorded with between 1 and 500 entries
    and the duration is its length; the peak of run [k] lies between 1 and
    the number of nodes of its graph; every final size lies in [[0, 1]];
    the network metrics are collected exactly when tracking is asked for. *)
Theorem run_multiple_returns (network_generator : nat -> Nx.Graph)
        (b ga a m : Q) (num_runs : nat) (track_network : bool) (g : R) :
  in_unit_interval b = true ->
  (forall k, k < num_runs ->
             Nx.closed (network_generator k) = true
             /\ Nx.nodes (network_generator k) <> []) ->
  (Z.of_nat num_runs <= 4294968)%Z ->
  exists res g',
    run_multiple_asir_simulations network_generator b ga a m num_runs
                                  track_network g = (Ok res, g')
    /\ length (all_series res) = num_runs
    /\ Forall (fun ts => recorded ts /\ 1 <= length (ts_t ts) <= 500)
              (all_series res)
    /\ duration res = map (fun ts => length (ts_t ts)) (all_series res)
    /\ Forall2 (fun k p => 1 <= p <= Nx.number_of_nodes (network_generator k))
               (seq 0 num_runs) (peak_infected res)
    /\ length (final_size res) = num_runs
    /\ Forall (fun q => (0 <= q)%Q /\ (q <= 1)%Q) (final_size res)
    /\ match results_network_metrics res with
       | Some l => track_network = true /\ length l = num_runs
       | None => track_network = false
       end.
Proof.
  intros _ Hgen Hnum. unfold run_multiple_asir_simulations.
  match goal with
  | |- context [runs_loop _ _ _ _ _ _ _ ?r g] =>
      destruct (runs_loop_ok network_generator b ga a m track_network
                             (seq 0 num_runs) r g)
      as (res' & g' & ps & qs & tss & nms & Hrun
          & E1 & E2 & E3 & E4 & E5 & F1 & L2 & F2 & L3 & F3 & L4)
  end.
  { intros k Hk. apply in_seq in Hk.
    destruct (Hgen k) as [HC Hne]; [lia|]. split; [exact HC|].
    split; [exact Hne | lia]. }
  cbn [peak_infected final_size duration all_series results_network_metrics
         app] in E1, E2, E3, E4, E5.
  rewrite length_seq in L2, L3, L4.
  exists res', g'. split; [exact Hrun|].
  rewrite E1, E2, E3, E4, E5.
  split; [exact L3|]. split; [exact F3|]. split; [reflexivity|].
  split; [exact F1|]. split; [exact L2|]. split; [exact F2|].
  destruct track_network; [split; [reflexivity | exact L4] | reflexivity].
Qed.

(** X16 (the first run that fails).  Let β lie in [[0, 1]], so that no
    run fails in the infection probability, and let run [k] be the first
    whose seed numpy rejects ([k * 1000 >= 2**32]) or whose generated graph
    has no node, the graphs of the runs before it having nodes.  Then
    [run_multiple_asir_simulations] raises: [ValueError] from the
    constructor in the first case, [IndexError] from the choice of patient
    zero in the second; no result of the earlier runs is returned. *)
Theorem run_multiple_first_failure (network_generator : nat -> Nx.Graph)
        (b ga a m : Q) (num_runs : nat) (track_network : bool) (g : R)
        (k : nat) :
  in_unit_interval b = true ->
  k < num_runs ->
  (forall j, j < k ->
             Nx.closed (network_generator j) = true
             /\ Nx.nodes (network_generator j) <> []
             /\ (Z.of_nat j <= 4294967)%Z) ->
  (4294967 < Z.of_nat k)%Z \/ Nx.nodes (network_generator k) = [] ->
  exists g',
    run_multiple_asir_simulations network_generator b ga a m num_runs
                                  track_network g
    = (Raise (if (Z.of_nat k <=? 4294967)%Z then IndexError else ValueError),
       g').
Proof.
  intros _ Hk Hbefore Hfail. unfold run_multiple_asir_simulations.
  replace num_runs with (k + S (num_runs - k - 1)) by lia.
  rewrite seq_app, runs_loop_app. cbn [seq Nat.add].
  match goal with
  | |- context [runs_loop _ _ _ _ _ _ (seq 0 k) ?r g] =>
      destruct (runs_loop_ok network_generator b ga a m track_network
                             (seq 0 k) r g)
      as (res' & g1 & _ & _ & _ & _ & -> & _)
  end.
  { intros j Hj. apply in_seq in Hj. apply Hbefore. lia. }
  cbn [runs_loop].
  destruct (Z.leb_spec (Z.of_nat k) 4294967) as [Hle|Hgt].
  - destruct Hfail as [Hbad|Hno]; [lia|].
    destruct (one_run_no_node network_generator b ga a m track_network
                              res' k g1 Hle Hno) as [g' ->].
    now exists g'.
  - destruct (one_run_bad_seed network_generator b ga a m track_network
                               res' k g1 Hgt) as [g' ->].
    now exists g'.
Qed.

End RepeatedRunsFacts.

(** ** The edges under rewiring *)

Module NxEdgeFacts.
Import Nx NxFacts.

Lemma has_edge_has_node G0 u v : has_edge G0 u v = true -> has_node G0 u = true.
Proof.
  unfold has_edge, neighbors, has_node.
  destruct (adj G0 u); [reflexivity | cbn; discriminate].
Qed.

Lemma has_node_set_adj G0 u ns x : has_node (set_adj G0 u ns) x = has_node G0 x.
Proof.
  unfold has_node.
  induction G0 as [|[n old] G' IH]; cbn [set_adj adj]; [reflexivity|].
  destruct (n =? u); cbn [adj]; destruct (n =? x); try reflexivity.
  exact IH.
Qed.

Lemma has_edge_set_adj G0 u ns x y :
  has_edge (set_adj G0 u ns) x y
  = if has_node G0 u && (u =? x) then mem y ns else has_edge G0 x y.
Proof.
  unfold has_edge. rewrite neighbors_set_adj.
  destruct (has_node G0 u && (u =? x)); reflexivity.
Qed.

Lemma mem_del_key l b w : mem w (del_key l b) = mem w l && negb (w =? b).
Proof.
  unfold del_key, mem. induction l as [|a l IH]; [reflexivity|].
  cbn [filter existsb].
  destruct (Nat.eqb_spec a b) as [->|Hab]; cbn [negb existsb]; rewrite IH.
  - destruct (Nat.eqb_spec w b); cbn [orb negb];
      [now rewrite !andb_false_r | reflexivity].
  - destruct (Nat.eqb_spec w a) as [->|Hwa]; cbn [orb]; [|reflexivity].
    destruct (Nat.eqb_spec a b); [congruence | reflexivity].
Qed.

Lemma mem_add_key l v w : mem w (add_key l v) = mem w l || (w =? v).
Proof.
  unfold add_key. destruct (mem v l) eqn:E.
  - destruct (Nat.eqb_spec w v) as [->|_]; [now rewrite E | now rewrite orb_false_r].
  - unfold mem. rewrite existsb_app. cbn [existsb]. now rewrite orb_false_r.
Qed.

Lemma adj_app G0 G1 x :
  adj (G0 ++ G1) x = match adj G0 x with Some ns => Some ns | None => adj G1 x end.
Proof.
  induction G0 as [|[n ns] G' IH]; cbn [app adj]; [reflexivity|].
  destruct (n =? x); [reflexivity | exact IH].
Qed.

Lemma neighbors_add_node G0 a x : neighbors (add_node G0 a) x = neighbors G0 x.
Proof.
  unfold add_node. destruct (has_node G0 a) eqn:E; [reflexivity|].
  unfold neighbors. rewrite adj_app. destruct (adj G0 x); [reflexivity|].
  cbn [adj]. destruct (a =? x); reflexivity.
Qed.

Lemma has_node_add_node G0 a x :
  has_node (add_node G0 a) x = has_node G0 x || (x =? a).
Proof.
  unfold add_node. destruct (has_node G0 a) eqn:E.
  - destruct (Nat.eqb_spec x a) as [->|_]; [now rewrite E | now rewrite orb_false_r].
  - unfold has_node. rewrite adj_app. destruct (adj G0 x); [reflexivity|].
    cbn [adj]. rewrite Nat.eqb_sym. destruct (x =? a); reflexivity.
Qed.

Ltac eqb_cases :=
  repeat match goal with
         | |- context [?u =? ?v] =>
             destruct (Nat.eqb_spec u v); try subst; try congruence
         end.

Lemma has_edge_add_edge G0 a b x y :
  has_edge (add_edge G0 a b) x y
  = has_edge G0 x y || ((x =? a) && (y =? b)) || ((x =? b) && (y =? a)).
Proof.
  unfold add_edge.
  set (G2 := add_node (add_node G0 a) b).
  assert (Ha : has_node G2 a = true).
  { unfold G2. rewrite !has_node_add_node, Nat.eqb_refl.
    now rewrite orb_true_r. }
  assert (Hb : has_node G2 b = true).
  { unfold G2. rewrite has_node_add_node, Nat.eqb_refl. apply orb_true_r. }
  assert (H2 : forall u, neighbors G2 u = neighbors G0 u).
  { intro u. unfold G2. now rewrite !neighbors_add_node. }
  set (G3 := set_adj G2 a (add_key (neighbors G2 a) b)).
  assert (Hb3 : has_node G3 b = true)
    by (unfold G3; now rewrite has_node_set_adj).
  rewrite has_edge_set_adj, Hb3. cbn [andb].
  unfold G3 at 1. rewrite neighbors_set_adj, Ha. cbn [andb].
  unfold G3. rewrite has_edge_set_adj, Ha. cbn [andb].
  rewrite !H2. unfold has_edge. rewrite !H2.
  eqb_cases; rewrite ?mem_add_key; eqb_cases; cbn [orb andb];
    rewrite ?orb_true_r, ?orb_false_r; try reflexivity.
Qed.

Lemma has_edge_remove_edge G0 a b x y :
  has_edge (remove_edge G0 a b) x y
  = has_edge G0 x y
    && negb (has_edge G0 a b
             && (((x =? a) && (y =? b)) || ((x =? b) && (y =? a)))).
Proof.
  unfold remove_edge.
  destruct (has_edge G0 a b) eqn:Eab;
    [|rewrite andb_false_r; cbn [andb negb]; now rewrite andb_true_r].
  pose proof (has_edge_has_node _ _ _ Eab) as Hna. rewrite Hna. cbn [andb].
  set (G1 := set_adj G0 a (del_key (neighbors G0 a) b)).
  assert (H1 : forall u v,
             has_edge G1 u v
             = if a =? u then mem v (del_key (neighbors G0 a) b)
               else has_edge G0 u v).
  { intros u v. unfold G1. now rewrite has_edge_set_adj, Hna. }
  destruct (Nat.eqb_spec a b) as [->|Hab].
  - rewrite H1. unfold has_edge.
    eqb_cases; rewrite ?mem_del_key; eqb_cases; cbn [andb orb negb];
      rewrite ?andb_true_r, ?andb_false_r; reflexivity.
  - rewrite has_edge_set_adj. unfold G1 at 1. rewrite has_node_set_adj.
    destruct (has_node G0 b) eqn:Eb; cbn [andb].
    + unfold G1 at 1. rewrite neighbors_set_adj, Hna. cbn [andb].
      rewrite H1. unfold has_edge.
      eqb_cases; rewrite ?mem_del_key; eqb_cases; cbn [andb orb negb];
        rewrite ?andb_true_r, ?andb_false_r; reflexivity.
    + assert (Hnb : forall v, has_edge G0 b v = false).
      { intro v. destruct (has_edge G0 b v) eqn:E; [|reflexivity].
        apply has_edge_has_node in E. congruence. }
      rewrite H1. unfold has_edge in *.
      eqb_cases; rewrite ?mem_del_key, ?Hnb; eqb_cases; cbn [andb orb negb];
        rewrite ?andb_true_r, ?andb_false_r; reflexivity.
Qed.

Lemma Symmetric_add_edge G0 a b : Symmetric G0 -> Symmetric (add_edge G0 a b).
Proof.
  intros HS u v. rewrite !has_edge_add_edge, !orb_true_iff, !andb_true_iff.
  intros [[H|H]|H]; [left; left; now apply HS | right; tauto | left; right; tauto].
Qed.

Lemma Symmetric_add_edges_from es : forall G0,
    Symmetric G0 -> Symmetric (add_edges_from G0 es).
Proof.
  unfold add_edges_from.
  induction es as [|e es IH]; intros G0 HS; cbn [fold_left]; [exact HS|].
  apply IH. now apply Symmetric_add_edge.
Qed.

Lemma Symmetric_remove_edge G0 a b :
  Symmetric G0 -> Symmetric (remove_edge G0 a b).
Proof.
  intros HS u v. rewrite !has_edge_remove_edge, !andb_true_iff.
  intros [H1 H2]. split; [now apply HS|].
  rewrite <- H2. do 2 f_equal. rewrite orb_comm. f_equal; apply andb_comm.
Qed.

Lemma Symmetric_remove_edges_from es : forall G0,
    Symmetric G0 -> Symmetric (remove_edges_from G0 es).
Proof.
  unfold remove_edges_from.
  induction es as [|e es IH]; intros G0 HS; cbn [fold_left]; [exact HS|].
  apply IH. now apply Symmetric_remove_edge.
Qed.

(** Removing edges creates no adjacency. *)
Lemma has_edge_remove_edges_from_sub es : forall G0 x y,
    has_edge (remove_edges_from G0 es) x y = true -> has_edge G0 x y = true.
Proof.
  unfold remove_edges_from.
  induction es as [|e es IH]; intros G0 x y; cbn [fold_left]; [tauto|].
  intro H. apply IH in H. rewrite has_edge_remove_edge in H.
  now apply andb_prop in H.
Qed.

(** A listed edge is gone after the removal. *)
Lemma has_edge_removed es : forall G0 a b,
    In (a, b) es -> has_edge (remove_edges_from G0 es) a b = false.
Proof.
  induction es as [|e es IH]; intros G0 a b; [contradiction|].
  intros [->|Hin]; [|now apply IH].
  destruct (has_edge (remove_edges_from G0 ((a, b) :: es)) a b) eqn:E;
    [|reflexivity].
  unfold remove_edges_from in E. cbn [fold_left fst snd] in E.
  apply has_edge_remove_edges_from_sub in E.
  rewrite has_edge_remove_edge, !Nat.eqb_refl in E. cbn [andb orb] in E.
  rewrite andb_true_r in E. now destruct (has_edge G0 a b).
Qed.

(** An edge that is not listed, in either direction, stays. *)
Lemma has_edge_not_removed es : forall G0 x y,
    ~ In (x, y) es -> ~ In (y, x) es ->
    has_edge (remove_edges_from G0 es) x y = has_edge G0 x y.
Proof.
  unfold remove_edges_from.
  induction es as [|[a b] es IH]; intros G0 x y H1 H2; cbn [fold_left fst snd];
    [reflexivity|].
  rewrite IH; [| intro H; apply H1; now right | intro H; apply H2; now right].
  apply has_edge_remove_edge_other; intros [-> ->];
    [apply H1 | apply H2]; now left.
Qed.

(** The adjacency after [add_edges_from]. *)
Lemma has_edge_add_edges_from es : forall G0 x y,
    has_edge (add_edges_from G0 es) x y = true
    <-> has_edge G0 x y = true \/ In (x, y) es \/ In (y, x) es.
Proof.
  unfold add_edges_from.
  induction es as [|[a b] es IH]; intros G0 x y; cbn [fold_left fst snd In].
  - tauto.
  - rewrite IH, has_edge_add_edge, !orb_true_iff, !andb_true_iff, !Nat.eqb_eq.
    split.
    + intros [[[H|[-> ->]]|[-> ->]]|[H|H]]; auto.
    + intros [H|[[H|H]|[H|H]]]; auto; injection H as -> ->; auto.
Qed.

(** [G.edges()] reports every adjacency of a symmetric graph, in one
    direction or the other. *)
Lemma edges_from_cover G0 : forall seen u v nu nv,
    adj G0 u = Some nu -> adj G0 v = Some nv ->
    In v nu -> In u nv -> ~ In u seen -> ~ In v seen ->
    In (u, v) (edges_from G0 seen) \/ In (v, u) (edges_from G0 seen).
Proof.
  induction G0 as [|[n ns] G' IH]; intros seen u v nu nv; cbn [adj edges_from];
    [discriminate|].
  assert (Hchunk : forall c, In c ns -> ~ In c seen ->
             In (n, c) (map (pair n)
                            (filter (fun nbr => negb (mem nbr seen)) ns)
                          ++ edges_from G' (n :: seen))).
  { intros c Hc Hs. apply in_or_app. left. apply in_map, filter_In.
    split; [exact Hc|]. apply negb_true_iff.
    destruct (mem c seen) eqn:E; [|reflexivity].
    apply mem_In in E. contradiction. }
  destruct (Nat.eqb_spec n u) as [->|Hnu].
  - intros Hu _ Hv _ _ Hvs. injection Hu as <-. left. now apply Hchunk.
  - destruct (Nat.eqb_spec n v) as [->|Hnv].
    + intros _ Hv _ Hu Hus _. injection Hv as <-. right. now apply Hchunk.
    + intros Hu Hv Hvu Huv Hus Hvs.
      destruct (IH (n :: seen) u v nu nv Hu Hv Hvu Huv) as [H|H].
      * intros [E|E]; [congruence | contradiction].
      * intros [E|E]; [congruence | contradiction].
      * left. apply in_or_app. now right.
      * right. apply in_or_app. now right.
Qed.

Lemma has_edge_adj G0 u v :
  has_edge G0 u v = true -> exists nu, adj G0 u = Some nu /\ In v nu.
Proof.
  unfold has_edge, neighbors. destruct (adj G0 u) as [nu|]; [|cbn; discriminate].
  intro H. exists nu. split; [reflexivity | now apply mem_In].
Qed.

Lemma edges_cover G0 u v :
  Symmetric G0 -> has_edge G0 u v = true ->
  In (u, v) (edges G0) \/ In (v, u) (edges G0).
Proof.
  intros HS H. pose proof (HS _ _ H) as H'.
  destruct (has_edge_adj _ _ _ H) as (nu & Hu & Hv).
  destruct (has_edge_adj _ _ _ H') as (nv & Hv' & Hu').
  apply (edges_from_cover G0 [] u v nu nv); auto.
Qed.

Lemma symmetric_Symmetric G0 : symmetric G0 = true -> Symmetric G0.
Proof.
  unfold symmetric. rewrite forallb_forall. intros H u v Huv.
  destruct (has_edge_adj _ _ _ Huv) as (nu & Hu & Hv).
  apply adj_In in Hu. specialize (H _ Hu). cbn [fst snd] in H.
  rewrite forallb_forall in H. now apply H.
Qed.

Lemma no_self_loops_spec G0 :
  no_self_loops G0 = true -> forall x, has_edge G0 x x = false.
Proof.
  unfold no_self_loops. rewrite forallb_forall. intros H x.
  destruct (has_edge G0 x x) eqn:E; [|reflexivity].
  destruct (has_edge_adj _ _ _ E) as (nu & Hu & Hx).
  apply adj_In in Hu. specialize (H _ Hu). cbn [fst snd] in H.
  apply negb_true_iff in H. apply mem_In in Hx. congruence.
Qed.

End NxEdgeFacts.

Lemma s_i_edge_sym st u v : s_i_edge st u v = s_i_edge st v u.
Proof. unfold s_i_edge. apply orb_comm. Qed.

Lemma s_i_edge_SS st u v :
  is_S (st u) = true -> is_S (st v) = true -> s_i_edge st u v = false.
Proof.
  unfold s_i_edge. destruct (st u), (st v); try discriminate; reflexivity.
Qed.

Lemma filter_none {A : Type} (f : A -> bool) l :
  (forall x, In x l -> f x = false) -> filter f l = [].
Proof.
  induction l as [|a l IH]; intro H; cbn [filter]; [reflexivity|].
  rewrite (H a (or_introl eq_refl)). apply IH. intros x Hx. apply H. now right.
Qed.

Section RewiringEdges.

Context {R : Type} {RNG : PyRandom R} {SET : PySet}.

(** With α ≥ 1 every draw of Rule 1 succeeds. *)
Lemma cut_scan_all st a es : forall g,
    Qle_bool 1 a = true ->
    fst (cut_scan st a es g)
    = filter (fun e => s_i_edge st (fst e) (snd e)) es.
Proof.
  intros g Ha. revert g.
  induction es as [|[u v] es IH]; intro g; cbn [cut_scan filter fst snd];
    [reflexivity|].
  destruct (s_i_edge st u v); [|apply IH].
  pose proof (rnd_random_hi g) as Hhi.
  destruct (rnd_random g) as [r g1]. cbn [fst] in Hhi.
  specialize (IH g1). destruct (cut_scan st a es g1) as [rest g2].
  cbn [fst] in *. rewrite (Qltb_sure r a Hhi Ha). now rewrite IH.
Qed.

Lemma rewire_removed sim g :
  edges_to_remove (fst (rewire sim g))
  = fst (cut_scan (state sim) (alpha sim) (Nx.edges (G sim)) g).
Proof.
  unfold rewire.
  destruct (cut_scan _ _ _ g) as [removed g1].
  destruct (if _ : bool then _ else _) as [tc g2].
  destruct (scan_u _ _ _ tc g2) as [props g3]. reflexivity.
Qed.

(** The edges before and after one rewiring. *)
Lemma rewire_edges sim g :
  let rw := fst (rewire sim g) in
  let G' := Nx.add_edges_from (G_cut rw) (edges_to_add rw) in
  (forall x y, Nx.has_edge (G sim) x y = true ->
               s_i_edge (state sim) x y = false ->
               Nx.has_edge G' x y = true)
  /\ (forall x y, Nx.has_edge G' x y = true ->
                  (Nx.has_edge (G_cut rw) x y = true
                   /\ Nx.has_edge (G sim) x y = true)
                  \/ (x <> y /\ is_S (state sim x) = true
                      /\ is_S (state sim y) = true)).
Proof.
  intros rw G'. subst G'.
  destruct (rewire sim g) as [rw0 g'] eqn:Erw. cbn [fst] in rw. subst rw.
  destruct (rewire_facts _ _ _ _ Erw) as (Hrem & HG & Hchk & Hprops & Hadd).
  split.
  - intros x y Hxy Hsi. apply NxEdgeFacts.has_edge_add_edges_from. left.
    rewrite HG, NxEdgeFacts.has_edge_not_removed; [exact Hxy | |].
    + intro H. apply Hrem in H as [_ H]. cbn [fst snd] in H. congruence.
    + intro H. apply Hrem in H as [_ H]. cbn [fst snd] in H.
      rewrite s_i_edge_sym in H. congruence.
  - intros x y H. apply NxEdgeFacts.has_edge_add_edges_from in H.
    destruct H as [H|[H|H]];
      [left; split; [exact H|]; rewrite HG in H;
       now apply NxEdgeFacts.has_edge_remove_edges_from_sub in H
      | right | right];
      apply Hadd in H; pose proof (Hprops _ H) as (v & Hc & _ & Ht);
      apply Hchk in Hc; destruct Ht as (_ & _ & _ & Hne & Hs & _);
      cbn [fst snd] in *; (split; [congruence|]); split; assumption.
Qed.

(** X17 (what one rewiring does to the edges).  [adaptive_step] keeps every
    edge that does not join a susceptible and an infected node; every edge
    of the graph it leaves was an edge before or joins two distinct
    susceptible nodes; in particular it creates no self-loop. *)
Theorem adaptive_step_edges (sim : Sim) (g : R) :
  let sim' := snd (fst (adaptive_step sim g)) in
  (forall x y, Nx.has_edge (G sim) x y = true ->
               s_i_edge (state sim) x y = false ->
               Nx.has_edge (G sim') x y = true)
  /\ (forall x y, Nx.has_edge (G sim') x y = true ->
                  Nx.has_edge (G sim) x y = true
                  \/ (x <> y /\ state sim x = SUSCEPTIBLE
                      /\ state sim y = SUSCEPTIBLE))
  /\ (forall x, Nx.has_edge (G sim') x x = true ->
                Nx.has_edge (G sim) x x = true).
Proof.
  intro sim'. subst sim'.
  destruct (adaptive_step_shape sim g) as (o & G' & g' & -> & -> & _).
  cbn [fst snd G with_G].
  destruct (rewire_edges sim g) as [Hkeep Hnew].
  assert (Hnew' : forall x y,
             Nx.has_edge (Nx.add_edges_from
                            (G_cut (fst (rewire sim g)))
                            (edges_to_add (fst (rewire sim g)))) x y
             = true ->
             Nx.has_edge (G sim) x y = true
             \/ (x <> y /\ state sim x = SUSCEPTIBLE
                 /\ state sim y = SUSCEPTIBLE)).
  { intros x y H. destruct (Hnew x y H) as [[_ H1]|(Hne & Hx & Hy)].
    - now left.
    - right. split; [exact Hne|].
      destruct (state sim x), (state sim y); try discriminate; auto. }
  split; [exact Hkeep|]. split; [exact Hnew'|].
  intros x H. destruct (Hnew' x x H) as [H1|(Hne & _)];
    [exact H1 | congruence].
Qed.

(** With α ≥ 1 on a symmetric graph, no edge joins a susceptible and an
    infected node after the rewiring. *)
Lemma rewire_isolates sim g :
  Qle_bool 1 (alpha sim) = true -> Symmetric (G sim) ->
  let rw := fst (rewire sim g) in
  let G' := Nx.add_edges_from (G_cut rw) (edges_to_add rw) in
  Symmetric G'
  /\ forall x y, Nx.has_edge G' x y = true -> s_i_edge (state sim) x y = false.
Proof.
  intros Ha HS rw G'.
  destruct (rewire_edges sim g) as [_ Hnew]. fold rw in Hnew. fold G' in Hnew.
  pose proof (rewire_removed sim g) as Hrem. fold rw in Hrem.
  rewrite (cut_scan_all _ _ _ g Ha) in Hrem.
  assert (HG : G_cut rw = Nx.remove_edges_from (G sim) (edges_to_remove rw)).
  { subst rw. destruct (rewire sim g) as [rw0 g'] eqn:Erw.
    now destruct (rewire_facts _ _ _ _ Erw) as (_ & HG & _). }
  assert (HS1 : Symmetric (G_cut rw)).
  { rewrite HG. now apply NxEdgeFacts.Symmetric_remove_edges_from. }
  clearbody rw. subst G'.
  split; [now apply NxEdgeFacts.Symmetric_add_edges_from|].
  intros x y H. destruct (Hnew x y H) as [[H1 H0]|(_ & Hx & Hy)];
    [|now apply s_i_edge_SS].
  destruct (s_i_edge (state sim) x y) eqn:Esi; [exfalso | reflexivity].
  destruct (NxEdgeFacts.edges_cover _ _ _ HS H0) as [Hin|Hin].
  - assert (Hr : In (x, y) (edges_to_remove rw)).
    { rewrite Hrem. apply filter_In. split; [exact Hin | exact Esi]. }
    rewrite HG, (NxEdgeFacts.has_edge_removed _ _ _ _ Hr) in H1.
    discriminate.
  - assert (Hr : In (y, x) (edges_to_remove rw)).
    { rewrite Hrem. apply filter_In. split; [exact Hin|].
      cbn [fst snd]. now rewrite s_i_edge_sym. }
    apply HS1 in H1.
    rewrite HG, (NxEdgeFacts.has_edge_removed _ _ _ _ Hr) in H1.
    discriminate.
Qed.

(** X18 (α ≥ 1 cuts every S-I edge).  With α ≥ 1, on a graph with
    symmetric adjacency, no edge of the graph that [adaptive_step] leaves
    joins a susceptible and an infected node. *)
Theorem adaptive_step_isolates (sim : Sim) (g : R) :
  Qle_bool 1 (alpha sim) = true ->
  symmetric (G sim) = true ->
  forall x y,
    Nx.has_edge (G (snd (fst (adaptive_step sim g)))) x y = true ->
    s_i_edge (state sim) x y = false.
Proof.
  intros Ha HS. apply NxEdgeFacts.symmetric_Symmetric in HS.
  destruct (adaptive_step_shape sim g) as (o & G' & g' & -> & -> & _).
  cbn [fst snd G with_G].
  exact (proj2 (rewire_isolates sim g Ha HS)).
Qed.

(** On a graph without an edge between a susceptible and an infected node
    the infection scan selects nobody and draws nothing. *)
Lemma infect_scan_isolated G0 st b ns :
  (forall x y, Nx.has_edge G0 x y = true -> s_i_edge st x y = false) ->
  forall g, infect_scan G0 st b ns g = ([], g).
Proof.
  intros Hiso g.
  induction ns as [|n ns IH]; cbn [infect_scan]; [reflexivity|].
  destruct (is_S (st n)) eqn:En; [|exact IH].
  assert (Hk : infected_neighbors G0 st n = 0).
  { unfold infected_neighbors. rewrite filter_none; [reflexivity|].
    intros m Hm. apply NxFacts.mem_In in Hm. apply Hiso in Hm.
    unfold s_i_edge in Hm. rewrite En in Hm. cbn [andb] in Hm.
    now apply orb_false_elim in Hm. }
  rewrite Hk. cbn [Nat.ltb Nat.leb]. exact IH.
Qed.

(** One pass of the loop under full isolation. *)
Lemma pass_isolated sim g o1 s2 g1 o2 s3 g2 :
  Qle_bool 1 (alpha sim) = true -> Symmetric (G sim) -> Nx.Closed (G sim) ->
  adaptive_step sim g = (o1, s2, g1) ->
  epidemic_step s2 g1 = (o2, s3, g2) ->
  alpha s3 = alpha sim /\ Symmetric (G s3) /\ Nx.Closed (G s3)
  /\ Nx.nodes (G s3) = Nx.nodes (G sim)
  /\ fst o2 = 0
  /\ (forall n, is_S (state s3 n) = is_S (state sim n))
  /\ (forall n, is_I (state s3 n) = true -> is_I (state sim n) = true).
Proof.
  intros Ha HS HC Had Hep.
  destruct (rewire_isolates sim g Ha HS) as [HS' Hiso].
  destruct (adaptive_step_shape sim g) as (o & G' & g1' & Hsh & HG' & Hcl).
  rewrite Hsh in Had. injection Had as <- <- <-.
  rewrite <- HG' in HS', Hiso. destruct (Hcl HC) as [Hn HC'].
  destruct (epidemic_step_spec (with_G sim G') g1')
    as (ti & tr & st' & ga & gb & Hti & Htr & Hstep & Hst).
  rewrite Hstep in Hep. injection Hep as <- <- <-.
  cbn [G state beta gamma alpha with_state with_G] in *.
  rewrite (infect_scan_isolated G' (state sim) (beta sim) _ Hiso) in Hti.
  injection Hti as <- <-.
  pose proof (recover_scan_sound (state sim) (gamma sim) (Nx.nodes G') g1')
    as Hr.
  rewrite Htr in Hr. cbn [fst] in Hr.
  split; [reflexivity|]. split; [exact HS'|]. split; [exact HC'|].
  split; [exact Hn|]. split; [cbn [fst]; now rewrite node_set_nil|].
  split; intro n; rewrite Hst; cbn [Nx.mem existsb];
    destruct (Nx.mem n tr) eqn:E; try reflexivity; try discriminate; auto.
  apply NxFacts.mem_In, Hr in E as [_ E].
  destruct (state sim n); try discriminate; reflexivity.
Qed.

(** X19 (full isolation).  With α ≥ 1, on a graph with symmetric
    adjacency whose neighbours are nodes, nobody is infected during a run,
    whatever β is: every node that is susceptible at the start is
    susceptible at the end, every recorded [S] is the susceptible count of
    the start and no recorded [I] exceeds the infected count of the start. *)
Theorem full_isolation_run (max_steps : Z) (track : bool) (sim : Sim) (g : R) :
  Qle_bool 1 (alpha sim) = true ->
  symmetric (G sim) = true ->
  Nx.closed (G sim) = true ->
  exists sim' g',
    run max_steps track sim g = (Ok sim', g')
    /\ (forall n, state sim n = SUSCEPTIBLE -> state sim' n = SUSCEPTIBLE)
    /\ Forall (fun s => s = cS (count_states sim)) (ts_S (time_series sim'))
    /\ Forall (fun i => i <= cI (count_states sim)) (ts_I (time_series sim')).
Proof.
  intros Ha HS HC. apply NxEdgeFacts.symmetric_Symmetric in HS.
  apply NxFacts.closed_Closed in HC. unfold run.
  destruct (run_loop_rows
              (fun s => Qle_bool 1 (alpha s) = true /\ Symmetric (G s)
                        /\ Nx.Closed (G s)
                        /\ forall n, state sim n = SUSCEPTIBLE ->
                                     state s n = SUSCEPTIBLE)
              (fun c c' => cS c' = cS c /\ cI c' <= cI c))
    with (left := Z.to_nat max_steps) (t := 0) (track := track)
         (sim := with_series sim empty_series empty_metrics) (g := g)
    as (rows & sim' & g' & Hrun & (_ & _ & _ & Hst) & HS' & HI' & _ & _ & Hlen
        & Hhd & _).
  - intros s ts nm H. exact H.
  - intros s g0 o1 s2 g1 o2 s3 g2 (Ha' & HSs & HCs & Hkeep) Had Hep.
    destruct (pass_isolated s g0 _ _ _ _ _ _ Ha' HSs HCs Had Hep)
      as (Ha3 & HS3 & HC3 & Hn3 & _ & HisS & HisI).
    split.
    + split; [now rewrite Ha3|]. split; [exact HS3|]. split; [exact HC3|].
      intros n Hn0. specialize (Hkeep n Hn0). specialize (HisS n).
      rewrite Hkeep in HisS.
      destruct (state s3 n); try discriminate; reflexivity.
    + unfold count_states. rewrite !counts_filter, Hn3. cbn [cS cI fst snd].
      split.
      * apply filter_length_eq. intros n _. apply HisS.
      * apply filter_length_le. intros n _. apply HisI.
  - cbn [alpha G state with_series]. auto.
  - exists sim', g'. split; [exact Hrun|]. split; [exact Hst|].
    cbn [time_series with_series empty_series ts_S ts_I app] in HS', HI'.
    rewrite HS', HI'.
    change (count_states sim)
      with (count_states (with_series sim empty_series empty_metrics)).
    set (c0 := count_states (with_series sim empty_series empty_metrics)) in *.
    assert (Hall : Forall (fun c => cS c = cS c0 /\ cI c <= cI c0) rows).
    { destruct (Z.to_nat max_steps) as [|left].
      - destruct rows; [constructor | cbn [length] in Hlen; lia].
      - destruct (Hhd (Nat.lt_0_succ _)) as (rest & -> & Hch).
        constructor; [split; [reflexivity | lia]|].
        apply (chain_Forall (fun c c' => cS c' = cS c /\ cI c' <= cI c)
                            (fun c => cS c = cS c0 /\ cI c <= cI c0)
                            rest c0); [split; [reflexivity | lia] | | exact Hch].
        intros x y [Hx1 Hx2] [Hy1 Hy2]. split; [congruence | lia]. }
    split; apply Forall_map; eapply Forall_impl; try exact Hall;
      intros c [H1 H2]; assumption.
Qed.

(** X20 (no self-loop).  A run on a graph without self-loops leaves a graph
    without self-loops. *)
Theorem run_no_self_loop (max_steps : Z) (track : bool) (sim : Sim) (g : R) :
  no_self_loops (G sim) = true ->
  exists sim' g',
    run max_steps track sim g = (Ok sim', g')
    /\ forall x, Nx.has_edge (G sim') x x = false.
Proof.
  intro H0. pose proof (NxEdgeFacts.no_self_loops_spec _ H0) as Hno.
  unfold run.
  destruct (run_loop_rows
              (fun s => forall x, Nx.has_edge (G s) x x = false)
              (fun _ _ => True))
    with (left := Z.to_nat max_steps) (t := 0) (track := track)
         (sim := with_series sim empty_series empty_metrics) (g := g)
    as (rows & sim' & g' & Hrun & Hinv & _).
  - intros s ts nm H. exact H.
  - intros s g0 o1 s2 g1 o2 s3 g2 Hs Had Hep. split; [|exact I].
    destruct (adaptive_step_shape s g0) as (o & G' & g1' & Hsh & HG' & _).
    rewrite Hsh in Had. injection Had as <- <- <-.
    destruct (epidemic_step_shape (with_G s G') g1')
      as (o' & st' & g'' & Hsh' & _).
    rewrite Hsh' in Hep. injection Hep as <- <- <-.
    cbn [G with_state with_G]. intro x.
    destruct (Nx.has_edge G' x x) eqn:E; [|reflexivity].
    rewrite HG' in E.
    destruct (proj2 (rewire_edges s g0) x x E) as [[_ H]|[H _]];
      [now rewrite Hs in H | congruence].
  - exact Hno.
  - exists sim', g'. split; [exact Hrun | exact Hinv].
Qed.

End RewiringEdges.

(** ** Construction and the first counts *)

Lemma filter_all {A : Type} (f : A -> bool) l :
  (forall x, In x l -> f x = true) -> filter f l = l.
Proof.
  induction l as [|a l IH]; intro H; cbn [filter]; [reflexivity|].
  rewrite (H a (or_introl eq_refl)). f_equal. apply IH.
  intros x Hx. apply H. now right.
Qed.

Lemma filter_one p l :
  NoDup l -> In p l -> length (filter (fun n => n =? p) l) = 1.
Proof.
  induction 1 as [|a l Ha Hl IH]; [contradiction|].
  cbn [filter]. intros [->|Hin].
  - rewrite Nat.eqb_refl. cbn [length]. f_equal.
    rewrite filter_none; [reflexivity|].
    intros x Hx. apply Nat.eqb_neq. intros ->. contradiction.
  - destruct (Nat.eqb_spec a p) as [->|_]; [contradiction | now apply IH].
Qed.

Section Construction.

Context {R : Type} {RNG : PyRandom R} {SET : PySet}.

(** X21 (the first counts).  On a graph with [n >= 1] distinct nodes and
    with a seed that the generators accept, the constructor leaves
    [count_states = (n, 0, 0)], and [infect_random_node] after it
    [(n - 1, 1, 0)]: exactly one node is infected. *)
Theorem initial_counts (graph : Nx.Graph) (b ga a m : Q) (seed : option Z)
        (g : R) :
  distinct (Nx.nodes graph) = true ->
  Nx.nodes graph <> [] ->
  (forall s, seed = Some s -> numpy_seed_ok s = true) ->
  exists sim0 g0 p sim1 g1,
    __init__ graph b ga a m seed g = (Ok sim0, g0)
    /\ count_states sim0 = (Nx.number_of_nodes graph, 0, 0)
    /\ infect_random_node sim0 g0 = (Ok (p, sim1), g1)
    /\ count_states sim1 = (Nx.number_of_nodes graph - 1, 1, 0).
Proof.
  intros Hd Hne Hseed. apply distinct_NoDup in Hd.
  assert (Hinit : exists g0,
             __init__ graph b ga a m seed g
             = (Ok (prepared graph b ga a m (fun _ => SUSCEPTIBLE)), g0)).
  { unfold __init__. destruct seed as [s|].
    - rewrite (Hseed s eq_refl). eexists. reflexivity.
    - eexists. reflexivity. }
  destruct Hinit as [g0 Hinit].
  set (sim0 := prepared graph b ga a m (fun _ => SUSCEPTIBLE)) in *.
  destruct (infect_random_node_ok sim0 g0 Hne) as (p & g1 & Hp0 & Hp).
  assert (Hlen : length (Nx.nodes graph) = Nx.number_of_nodes graph).
  { unfold Nx.nodes, Nx.number_of_nodes. apply length_map. }
  eexists sim0, g0, p, _, g1. split; [exact Hinit|].
  split; [|split; [exact Hp0|]].
  - unfold count_states. rewrite counts_filter.
    cbn [G state sim0 prepared is_S is_I is_R].
    rewrite filter_all by reflexivity.
    rewrite !filter_none by reflexivity. cbn [length]. now rewrite Hlen.
  - pose proof (count_states_sum
                  (with_state sim0 (set_state (state sim0) p INFECTED)))
      as Hsum.
    unfold count_states in *. rewrite counts_filter in *.
    cbn [G state sim0 prepared with_state] in *. unfold set_state in *.
    assert (HI : length (filter (fun n : node =>
                                   is_I (if n =? p then INFECTED
                                         else SUSCEPTIBLE))
                                (Nx.nodes graph)) = 1).
    { rewrite <- (filter_one p (Nx.nodes graph) Hd Hp).
      apply filter_length_eq. intros n _. now destruct (n =? p). }
    assert (HR : length (filter (fun n : node =>
                                   is_R (if n =? p then INFECTED
                                         else SUSCEPTIBLE))
                                (Nx.nodes graph)) = 0).
    { rewrite filter_none; [reflexivity|]. intros n _. now destruct (n =? p). }
    rewrite HI, HR in Hsum. rewrite HI, HR.
    repeat match goal with
           | |- (_, _) = (_, _) => apply f_equal2
           end; lia.
Qed.

(** X22 (nothing recorded).  With [max_steps <= 0] the loop body never
    runs: [run] only resets the recorded lists, leaves graph, states and
    generator alone, and the three queries then give 0 without dividing by
    [N]. *)
Theorem run_without_steps (max_steps : Z) (track : bool) (sim : Sim) (g : R) :
  (max_steps <= 0)%Z ->
  exists sim',
    run max_steps track sim g = (Ok sim', g)
    /\ G sim' = G sim /\ state sim' = state sim
    /\ time_series sim' = empty_series
    /\ network_metrics sim' = empty_metrics
    /\ get_epidemic_duration sim' = 0
    /\ get_peak_infected sim' = 0
    /\ get_final_size sim' = Ok 0%Q.
Proof.
  intro Hm. unfold run.
  replace (Z.to_nat max_steps) with 0 by lia. cbn [run_loop].
  eexists. split; [reflexivity|]. repeat split.
Qed.

End Construction.

(** ** Certain transmission and certain recovery *)

Lemma filter_length_or {A : Type} (f h : A -> bool) l :
  (forall x, In x l -> f x = true -> h x = false) ->
  length (filter (fun x => f x || h x) l)
  = length (filter f l) + length (filter h l).
Proof.
  induction l as [|a l IH]; intro H; cbn [filter length]; [reflexivity|].
  assert (IH' := IH (fun x Hx => H x (or_intror Hx))).
  destruct (f a) eqn:Ef; cbn [orb].
  - rewrite (H a (or_introl eq_refl) Ef). cbn [length]. lia.
  - destruct (h a); cbn [length]; lia.
Qed.

Section CertainEvents.

Context {R : Type} {RNG : PyRandom R} {SET : PySet}.

(** With γ ≥ 1 every draw of the recovery scan succeeds. *)
Lemma recover_scan_all st ga ns : forall g,
    Qle_bool 1 ga = true ->
    fst (recover_scan st ga ns g) = filter (fun n => is_I (st n)) ns.
Proof.
  intros g Hg. revert g.
  induction ns as [|n ns IH]; intro g; cbn [recover_scan filter fst];
    [reflexivity|].
  destruct (is_I (st n)); [|apply IH].
  pose proof (rnd_random_hi g) as Hhi.
  destruct (rnd_random g) as [r g1]. cbn [fst] in Hhi.
  specialize (IH g1). destruct (recover_scan st ga ns g1) as [rest g2].
  cbn [fst] in *. rewrite (Qltb_sure r ga Hhi Hg). now rewrite IH.
Qed.

(** X23 (certain transmission).  With β = 1 every susceptible node of the
    graph that has an infected neighbour is infected by [epidemic_step],
    whatever γ is. *)
Theorem certain_transmission_step (sim : Sim) (g : R) (n : node) :
  (beta sim == 1)%Q ->
  In n (Nx.nodes (G sim)) ->
  state sim n = SUSCEPTIBLE ->
  (exists m, In m (Nx.neighbors (G sim) n) /\ state sim m = INFECTED) ->
  state (snd (fst (epidemic_step sim g))) n = INFECTED.
Proof.
  intros Hb Hn HS (m & Hm & HI).
  destruct (epidemic_step_spec sim g)
    as (ti & tr & st' & g1 & g2 & Hti & Htr & Hstep & Hst).
  rewrite Hstep. cbn [fst snd state with_state]. rewrite Hst.
  pose proof (recover_scan_sound (state sim) (gamma sim)
                                 (Nx.nodes (G sim)) g1) as Hr.
  rewrite Htr in Hr. cbn [fst] in Hr.
  destruct (Nx.mem n tr) eqn:Etr.
  { apply NxFacts.mem_In, Hr in Etr as [_ Etr]. rewrite HS in Etr.
    discriminate. }
  pose proof (infect_scan_certain (G sim) (state sim) (beta sim)
                                  (Nx.nodes (G sim)) g Hb) as Hi.
  rewrite Hti in Hi. cbn [fst] in Hi.
  assert (Hin : In n ti).
  { rewrite Hi. apply filter_In. split; [exact Hn|].
    rewrite HS. cbn [is_S andb]. apply Nat.ltb_lt.
    unfold infected_neighbors.
    apply (filter_length_pos _ _ m Hm). now rewrite HI. }
  apply NxFacts.mem_In in Hin. now rewrite Hin.
Qed.

(** What one epidemic step does when every infected node recovers. *)
Lemma certain_recovery_counts sim g o s3 g2 :
  Qle_bool 1 (gamma sim) = true ->
  epidemic_step sim g = (o, s3, g2) ->
  (forall n, In n (Nx.nodes (G sim)) -> state sim n = INFECTED ->
             state s3 n = RECOVERED)
  /\ cR (count_states s3) = cR (count_states sim) + cI (count_states sim)
  /\ cS (count_states s3) + cI (count_states s3) = cS (count_states sim).
Proof.
  intros Hg Hep.
  destruct (epidemic_step_spec sim g)
    as (ti & tr & st' & g1 & g2' & Hti & Htr & Hstep & Hst).
  rewrite Hstep in Hep. injection Hep as <- <- <-.
  pose proof (recover_scan_all (state sim) (gamma sim)
                               (Nx.nodes (G sim)) g1 Hg) as Hr.
  rewrite Htr in Hr. cbn [fst] in Hr.
  pose proof (infect_scan_sound (G sim) (state sim) (beta sim)
                                (Nx.nodes (G sim)) g) as Hi.
  rewrite Hti in Hi. cbn [fst] in Hi.
  assert (Hmem : forall n, In n (Nx.nodes (G sim)) ->
                           Nx.mem n tr = is_I (state sim n)).
  { intros n Hn. destruct (is_I (state sim n)) eqn:E.
    - apply NxFacts.mem_In. rewrite Hr. apply filter_In. auto.
    - apply mem_false_iff. rewrite Hr, filter_In. intros [_ H]. congruence. }
  assert (HR : cR (count_states (with_state sim st'))
               = cR (count_states sim) + cI (count_states sim)).
  { unfold count_states. cbn [G state with_state].
    rewrite !counts_filter. cbn [cR cI fst snd]. rewrite Nat.add_comm.
    rewrite <- filter_length_or.
    - apply filter_length_eq. intros n Hn. rewrite Hst, (Hmem n Hn).
      destruct (is_I (state sim n)) eqn:E; [reflexivity|]. cbn [orb].
      destruct (Nx.mem n ti) eqn:Eti; [|reflexivity].
      apply NxFacts.mem_In, Hi in Eti as [_ Eti].
      destruct (state sim n); try discriminate; reflexivity.
    - intros n _ H. destruct (state sim n); try discriminate; reflexivity. }
  split; [|split; [exact HR|]].
  - intros n Hn HI. cbn [state with_state]. rewrite Hst, (Hmem n Hn), HI.
    reflexivity.
  - pose proof (count_states_sum sim) as T0.
    pose proof (count_states_sum (with_state sim st')) as T1.
    cbn [G with_state] in T1.
    destruct (count_states sim) as [[s0 i0] r0].
    destruct (count_states (with_state sim st')) as [[s1 i1] r1].
    cbn [cS cI cR fst snd] in *. lia.
Qed.

(** X24 (certain recovery).  With γ ≥ 1 every infected node of the graph
    recovers in [epidemic_step]: the recovered count rises by the infected
    count of before, and the infected of after are exactly the newly
    infected ([S' + I' = S]). *)
Theorem certain_recovery_step (sim : Sim) (g : R) :
  Qle_bool 1 (gamma sim) = true ->
  let sim' := snd (fst (epidemic_step sim g)) in
  (forall n, In n (Nx.nodes (G sim)) -> state sim n = INFECTED ->
             state sim' n = RECOVERED)
  /\ cR (count_states sim') = cR (count_states sim) + cI (count_states sim)
  /\ cS (count_states sim') + cI (count_states sim') = cS (count_states sim).
Proof.
  intros Hg sim'. subst sim'.
  destruct (epidemic_step sim g) as [[o s3] g2] eqn:E. cbn [fst snd].
  exact (certain_recovery_counts sim g o s3 g2 Hg E).
Qed.

(** X25 (one step of infection).  With γ ≥ 1, on a graph whose neighbours
    are nodes, every node is infected for exactly one recorded entry: from
    one entry to the next [R' = R + I] and [S' + I' = S]. *)
Theorem certain_recovery_run (max_steps : Z) (track : bool) (sim : Sim) (g : R) :
  Qle_bool 1 (gamma sim) = true ->
  Nx.closed (G sim) = true ->
  exists sim' g',
    run max_steps track sim g = (Ok sim', g')
    /\ forall j, j + 1 < length (ts_t (time_series sim')) ->
                 nth (j + 1) (ts_R (time_series sim')) 0
                 = nth j (ts_R (time_series sim')) 0
                   + nth j (ts_I (time_series sim')) 0
                 /\ nth (j + 1) (ts_S (time_series sim')) 0
                    + nth (j + 1) (ts_I (time_series sim')) 0
                    = nth j (ts_S (time_series sim')) 0.
Proof.
  intros Hg HC. apply NxFacts.closed_Closed in HC. unfold run.
  destruct (run_loop_rows
              (fun s => Qle_bool 1 (gamma s) = true /\ Nx.Closed (G s))
              (fun c c' => cR c' = cR c + cI c /\ cS c' + cI c' = cS c))
    with (left := Z.to_nat max_steps) (t := 0) (track := track)
         (sim := with_series sim empty_series empty_metrics) (g := g)
    as (rows & sim' & g' & Hrun & _ & HS & HI & HR & Ht & Hlen & Hhd & _).
  - intros s ts nm H. exact H.
  - intros s g0 o1 s2 g1 o2 s3 g2 (Hg' & HC') Had Hep.
    destruct (adaptive_step_shape s g0) as (o & G' & g1' & Hsh & _ & HG').
    rewrite Hsh in Had. injection Had as <- <- <-.
    destruct (HG' HC') as [Hn HC2].
    destruct (certain_recovery_counts (with_G s G') g1' o2 s3 g2 Hg' Hep)
      as (_ & H1 & H2).
    assert (Ec : count_states (with_G s G') = count_states s).
    { unfold count_states, counts. cbn [G state with_G]. now rewrite Hn. }
    rewrite Ec in H1, H2.
    destruct (epidemic_step_shape (with_G s G') g1')
      as (o' & st' & g'' & Hsh' & _).
    rewrite Hsh' in Hep. injection Hep as <- <- <-.
    cbn [gamma G with_state with_G]. auto.
  - cbn [gamma G with_series]. auto.
  - exists sim', g'. split; [exact Hrun|].
    cbn [time_series with_series empty_series ts_S ts_I ts_R ts_t app]
      in HS, HI, HR, Ht.
    rewrite HS, HI, HR, Ht, length_seq. intros j Hj.
    destruct (Z.to_nat max_steps) as [|left]; [lia|].
    destruct (Hhd (Nat.lt_0_succ _)) as (rest & -> & Hch).
    pose proof (chain_nth _ (0, 0, 0) rest _ j Hch Hj) as [H1 H2].
    rewrite !(nth_map_counts cS), !(nth_map_counts cI), !(nth_map_counts cR)
      by reflexivity.
    split; assumption.
Qed.

End CertainEvents.

(** ** Counting the removed edges *)

Module NxCount.
Import Nx NxFacts NxEdgeFacts.

Lemma number_of_edges_half G0 : number_of_edges G0 = degree_sum G0 / 2.
Proof. reflexivity. Qed.

Lemma adjacency_distinct_Simple G0 : adjacency_distinct G0 = true -> Simple G0.
Proof.
  unfold adjacency_distinct, Simple. rewrite forallb_forall.
  intros H e He. apply distinct_NoDup. now apply H.
Qed.

Lemma Simple_neighbors G0 u : Simple G0 -> NoDup (neighbors G0 u).
Proof.
  intro HS. unfold neighbors. destruct (adj G0 u) as [ns|] eqn:E;
    [|constructor].
  apply adj_In in E. exact (HS _ E).
Qed.

Lemma Simple_set_adj G0 u ns : Simple G0 -> NoDup ns -> Simple (set_adj G0 u ns).
Proof.
  intros HS Hns e He. destruct (In_set_adj _ _ _ _ He) as [H|H].
  - now apply HS.
  - now rewrite H.
Qed.

Lemma NoDup_del_key l v : NoDup l -> NoDup (del_key l v).
Proof. apply NoDup_filter. Qed.

Lemma Simple_remove_edge G0 a b : Simple G0 -> Simple (remove_edge G0 a b).
Proof.
  intro HS. unfold remove_edge.
  destruct (has_node G0 a && has_edge G0 a b); [|exact HS].
  assert (H1 : Simple (set_adj G0 a (del_key (neighbors G0 a) b))).
  { apply Simple_set_adj; [exact HS|].
    apply NoDup_del_key. now apply Simple_neighbors. }
  destruct (a =? b); [exact H1|].
  apply Simple_set_adj; [exact H1|].
  apply NoDup_del_key. now apply Simple_neighbors.
Qed.

Lemma length_del_key l b :
  NoDup l -> In b l -> length (del_key l b) + 1 = length l.
Proof.
  unfold del_key. induction 1 as [|a l Ha Hl IH]; [contradiction|].
  cbn [filter length]. intros [->|Hin].
  - rewrite Nat.eqb_refl. cbn [negb].
    rewrite filter_all; [lia|].
    intros x Hx. apply negb_true_iff, Nat.eqb_neq. intros ->. contradiction.
  - destruct (Nat.eqb_spec a b) as [->|_]; [contradiction|].
    cbn [negb length]. rewrite <- (IH Hin). lia.
Qed.

Lemma degree_of_del_key u l b :
  NoDup l -> In b l -> u <> b ->
  degree_of u (del_key l b) + 1 = degree_of u l.
Proof.
  intros Hl Hb Hne. unfold degree_of.
  rewrite mem_del_key. apply Nat.eqb_neq in Hne. rewrite Hne. cbn [negb].
  rewrite andb_true_r. pose proof (length_del_key l b Hl Hb). lia.
Qed.

Lemma degree_sum_set_adj G0 u ns :
  has_node G0 u = true ->
  degree_sum (set_adj G0 u ns) + degree_of u (neighbors G0 u)
  = degree_sum G0 + degree_of u ns.
Proof.
  unfold has_node, neighbors.
  induction G0 as [|[n old] G' IH]; cbn [adj set_adj]; [discriminate|].
  destruct (Nat.eqb_spec n u) as [->|Hne]; intro H.
  - unfold degree_sum. cbn [fold_right fst snd]. lia.
  - specialize (IH H). unfold degree_sum in *. cbn [fold_right fst snd]. lia.
Qed.

(** Removing one present edge between two different nodes lowers the sum
    of the degrees by two. *)
Lemma degree_sum_remove_edge G0 a b :
  Simple G0 -> has_edge G0 a b = true -> has_edge G0 b a = true -> a <> b ->
  degree_sum (remove_edge G0 a b) + 2 = degree_sum G0.
Proof.
  intros HS Hab Hba Hne. unfold remove_edge.
  pose proof (has_edge_has_node _ _ _ Hab) as Hna.
  pose proof (has_edge_has_node _ _ _ Hba) as Hnb.
  rewrite Hna, Hab. cbn [andb].
  pose proof Hne as Hne'. apply Nat.eqb_neq in Hne'. rewrite Hne'.
  set (G1 := set_adj G0 a (del_key (neighbors G0 a) b)).
  pose proof (degree_sum_set_adj G0 a (del_key (neighbors G0 a) b) Hna) as E1.
  fold G1 in E1.
  assert (Hb1 : has_node G1 b = true)
    by (unfold G1; now rewrite has_node_set_adj).
  assert (Hn1 : neighbors G1 b = neighbors G0 b).
  { unfold G1. rewrite neighbors_set_adj, Hne'. now rewrite andb_false_r. }
  pose proof (degree_sum_set_adj G1 b (del_key (neighbors G1 b) a) Hb1) as E2.
  rewrite Hn1 in *.
  pose proof (degree_of_del_key a (neighbors G0 a) b
                (Simple_neighbors G0 a HS)
                (proj1 (mem_In _ _) Hab) Hne) as D1.
  pose proof (degree_of_del_key b (neighbors G0 b) a
                (Simple_neighbors G0 b HS)
                (proj1 (mem_In _ _) Hba) (not_eq_sym Hne)) as D2.
  lia.
Qed.

(** Removing present, pairwise different edges. *)
Lemma degree_sum_remove_edges_from es : forall G0,
    Simple G0 -> Symmetric G0 ->
    ForallOrdPairs other_edge es ->
    (forall e, In e es ->
               fst e <> snd e /\ has_edge G0 (fst e) (snd e) = true) ->
    degree_sum (remove_edges_from G0 es) + 2 * length es = degree_sum G0.
Proof.
  unfold remove_edges_from.
  induction es as [|[a b] es IH]; intros G0 HS HY HP He;
    cbn [fold_left length fst snd]; [lia|].
  inversion HP as [|? ? Hall HP']; subst.
  destruct (He (a, b) (or_introl eq_refl)) as [Hne Hab]. cbn [fst snd] in *.
  rewrite <- (degree_sum_remove_edge G0 a b HS Hab (HY _ _ Hab) Hne).
  rewrite <- (IH (remove_edge G0 a b)); [lia | | | exact HP' |].
  - now apply Simple_remove_edge.
  - now apply Symmetric_remove_edge.
  - intros e Hin. destruct (He e (or_intror Hin)) as [Hne' He'].
    split; [exact Hne'|].
    rewrite Forall_forall in Hall. destruct (Hall e Hin) as [H1 H2].
    cbn [fst snd] in H2.
    rewrite has_edge_remove_edge_other; [exact He' | |].
    + intros [-> ->]. apply H1. now destruct e.
    + intros [-> ->]. apply H2. now destruct e.
Qed.

Lemma In_edges_from G0 : forall seen m x,
    In (m, x) (edges_from G0 seen) ->
    (exists ns, In (m, ns) G0 /\ In x ns) /\ ~ In x seen.
Proof.
  induction G0 as [|[n ns] G' IH]; intros seen m x; cbn [edges_from];
    [contradiction|].
  intro H. apply in_app_or in H as [H|H].
  - apply in_map_iff in H as (y & E & Hy). injection E as <- <-.
    apply filter_In in Hy as [Hy Hs]. apply negb_true_iff in Hs.
    split; [exists ns; split; [now left | exact Hy]|].
    now apply mem_false_iff.
  - apply IH in H as [(ns' & H1 & H2) H3]. split.
    + exists ns'. split; [now right | exact H2].
    + intro Hs. apply H3. now right.
Qed.

Lemma FOP_app {A : Type} (Rel : A -> A -> Prop) l1 : forall l2,
    ForallOrdPairs Rel l1 -> ForallOrdPairs Rel l2 ->
    (forall a b, In a l1 -> In b l2 -> Rel a b) ->
    ForallOrdPairs Rel (l1 ++ l2).
Proof.
  induction l1 as [|x l1 IH]; intros l2 H1 H2 H12; cbn [app]; [exact H2|].
  inversion H1 as [|? ? Hall H1']; subst. constructor.
  - apply Forall_app. split; [exact Hall|].
    apply Forall_forall. intros b Hb. apply H12; [now left | exact Hb].
  - apply IH; [exact H1' | exact H2|].
    intros a b Ha Hb. apply H12; [now right | exact Hb].
Qed.

Lemma FOP_chunk n l :
  NoDup l -> ForallOrdPairs other_edge (map (pair n) l).
Proof.
  induction 1 as [|x l Hx Hl IH]; cbn [map]; constructor; [|exact IH].
  apply Forall_forall. intros e He.
  apply in_map_iff in He as (y & <- & Hy). unfold other_edge. cbn [fst snd].
  split; intro E; injection E; intros; subst; contradiction.
Qed.

(** [G.edges()] reports no edge twice, in either direction. *)
Lemma edges_from_other G0 : forall seen,
    NoDup (nodes G0) -> Simple G0 ->
    ForallOrdPairs other_edge (edges_from G0 seen).
Proof.
  induction G0 as [|[n ns] G' IH]; intros seen Hk HS; cbn [edges_from];
    [constructor|].
  cbn [nodes map fst] in Hk. inversion Hk as [|? ? Hn Hk']; subst.
  apply FOP_app.
  - apply FOP_chunk, NoDup_filter. exact (HS (n, ns) (or_introl eq_refl)).
  - apply IH; [exact Hk'|]. intros e He. apply HS. now right.
  - intros e1 [m x] H1 H2.
    apply in_map_iff in H1 as (y & <- & Hy).
    apply In_edges_from in H2 as [(ns' & Hm & _) Hx].
    unfold other_edge. cbn [fst snd]. split; intro E; injection E; intros.
    + subst m. apply Hn. apply in_map_iff. now exists (n, ns').
    + subst x. apply Hx. now left.
Qed.

Lemma adj_of_entry G0 u ns :
  NoDup (nodes G0) -> In (u, ns) G0 -> adj G0 u = Some ns.
Proof.
  induction G0 as [|[n old] G' IH]; intros Hk Hin; [contradiction|].
  cbn [nodes map fst] in Hk. inversion Hk as [|? ? Hn Hk']; subst.
  cbn [adj]. destruct Hin as [E|Hin].
  - injection E as -> ->. now rewrite Nat.eqb_refl.
  - destruct (Nat.eqb_spec n u) as [->|_]; [|now apply IH].
    exfalso. apply Hn. apply in_map_iff. now exists (u, ns).
Qed.

Lemma edges_has_edge G0 a b :
  NoDup (nodes G0) -> In (a, b) (edges G0) -> has_edge G0 a b = true.
Proof.
  intros Hk H. apply In_edges_from in H as [(ns & H1 & H2) _].
  unfold has_edge, neighbors. rewrite (adj_of_entry _ _ _ Hk H1).
  now apply mem_In.
Qed.

End NxCount.

Section CutCount.

Context {R : Type} {RNG : PyRandom R} {SET : PySet}.

Lemma cut_scan_other st a es : forall g,
    ForallOrdPairs other_edge es ->
    ForallOrdPairs other_edge (fst (cut_scan st a es g)).
Proof.
  induction es as [|[u v] es IH]; intros g HP; cbn [cut_scan fst];
    [constructor|].
  inversion HP as [|? ? Hall HP']; subst.
  destruct (s_i_edge st u v); [|now apply IH].
  pose proof (cut_scan_sound st a es) as Hs.
  destruct (rnd_random g) as [r g1].
  specialize (IH g1 HP'). specialize (Hs g1).
  destruct (cut_scan st a es g1) as [rest g2]. cbn [fst] in *.
  destruct (Qltb r a); [|exact IH].
  constructor; [|exact IH].
  apply Forall_forall. intros e He. rewrite Forall_forall in Hall.
  apply Hall. now apply Hs.
Qed.

(** X26 (the returned number of cut edges).  On a graph as networkx keeps
    it (distinct nodes, no neighbour listed twice, symmetric adjacency) the
    first value returned by [adaptive_step] is the number of edges that
    Rule 1 removed: the edge count after the removal plus [edges_cut] is
    the edge count of before. *)
Theorem edges_cut_accurate (sim : Sim) (g : R) :
  distinct (Nx.nodes (G sim)) = true ->
  adjacency_distinct (G sim) = true ->
  symmetric (G sim) = true ->
  let rw := fst (rewire sim g) in
  fst (fst (fst (adaptive_step sim g))) = length (edges_to_remove rw)
  /\ Nx.number_of_edges (G_cut rw) + fst (fst (fst (adaptive_step sim g)))
     = Nx.number_of_edges (G sim).
Proof.
  intros Hd Ha Hs rw.
  apply distinct_NoDup in Hd. apply NxCount.adjacency_distinct_Simple in Ha.
  apply NxEdgeFacts.symmetric_Symmetric in Hs.
  assert (E1 : fst (fst (fst (adaptive_step sim g)))
               = length (edges_to_remove rw)).
  { unfold adaptive_step. subst rw. now destruct (rewire sim g). }
  split; [exact E1|]. rewrite E1.
  pose proof (rewire_removed sim g) as Hrem. fold rw in Hrem.
  assert (HG : G_cut rw = Nx.remove_edges_from (G sim) (edges_to_remove rw)).
  { subst rw. destruct (rewire sim g) as [rw0 g'] eqn:Erw.
    now destruct (rewire_facts _ _ _ _ Erw) as (_ & HG & _). }
  clearbody rw.
  pose proof (NxCount.degree_sum_remove_edges_from (edges_to_remove rw)
                (G sim) Ha Hs) as HD.
  rewrite <- HG in HD.
  rewrite !NxCount.number_of_edges_half, <- HD.
  - rewrite (Nat.mul_comm 2). now rewrite Nat.div_add.
  - rewrite Hrem. apply cut_scan_other.
    now apply NxCount.edges_from_other.
  - intros [a b] He. rewrite Hrem in He.
    apply cut_scan_sound in He as [Hin Hsi]. cbn [fst snd] in *.
    split.
    + intros ->. unfold s_i_edge in Hsi.
      destruct (state sim b); discriminate.
    + now apply NxCount.edges_has_edge.
Qed.

End CutCount.

(** ** The end of the epidemic *)

Section Stopped.

Context {R : Type} {RNG : PyRandom R} {SET : PySet}.

(** A loop that returns with passes left has met the stop condition: the
    entry recorded last counts the states it leaves, and [I] is 0. *)
Lemma run_loop_stopped : forall left t track sim g,
    exists sim' g',
      run_loop left t track sim g = (Ok sim', g')
      /\ (length (ts_t (time_series sim'))
          < length (ts_t (time_series sim)) + left ->
          cI (count_states sim') = 0
          /\ last (ts_S (time_series sim')) 0 = cS (count_states sim')
          /\ last (ts_I (time_series sim')) 0 = 0
          /\ last (ts_R (time_series sim')) 0 = cR (count_states sim')).
Proof.
  induction left as [|left IH]; intros t track sim g.
  - exists sim, g. split; [reflexivity|]. lia.
  - rewrite run_loop_S.
    destruct (count_states sim) as [[s i] r] eqn:Ec.
    destruct (record_step_ok track sim t s i r Ec) as (nm & -> & _).
    set (sim1 := with_series sim (record_counts (time_series sim) s i r t) nm).
    destruct (i =? 0) eqn:Ei.
    + apply Nat.eqb_eq in Ei. subst i. exists sim1, g.
      split; [reflexivity|]. intros _.
      change (count_states sim1) with (count_states sim). rewrite Ec.
      cbn [time_series with_series sim1 record_counts ts_S ts_I ts_R
             cS cI cR fst snd].
      rewrite !last_last. auto.
    + destruct (adaptive_step_shape sim1 g) as (o1 & G' & g1 & -> & _).
      destruct (epidemic_step_shape (with_G sim1 G') g1)
        as (o2 & st' & g2 & -> & _).
      destruct (IH (t + 1) track (with_state (with_G sim1 G') st') g2)
        as (sim' & g' & Hrun & Hstop).
      exists sim', g'. split; [exact Hrun|]. intro Hlen. apply Hstop.
      cbn [time_series with_state with_G with_series sim1 record_counts ts_t].
      rewrite length_app. cbn [length]. lia.
Qed.

(** X27 (the epidemic is over).  For β in [[0, 1]] [run] returns, and
    when it recorded fewer than [max_steps] entries, no node of the graph
    is infected in the states it leaves, and their counts are the entry
    recorded last. *)
Theorem epidemic_over (max_steps : Z) (track : bool) (sim : Sim) (g : R) :
  in_unit_interval (beta sim) = true ->
  exists sim' g',
    run max_steps track sim g = (Ok sim', g')
    /\ (get_epidemic_duration sim' < Z.to_nat max_steps ->
        (forall n, In n (Nx.nodes (G sim')) -> state sim' n <> INFECTED)
        /\ count_states sim'
           = (last (ts_S (time_series sim')) 0, 0,
              last (ts_R (time_series sim')) 0)).
Proof.
  intros _. unfold run, get_epidemic_duration.
  destruct (run_loop_stopped (Z.to_nat max_steps) 0 track
              (with_series sim empty_series empty_metrics) g)
    as (sim' & g' & Hrun & Hstop).
  exists sim', g'. split; [exact Hrun|]. intro Hlen.
  destruct Hstop as (HI & HS & _ & HR); [cbn; lia|].
  split.
  - intros n Hn Hst. unfold count_states in HI.
    rewrite counts_filter in HI. cbn [cI fst snd] in HI.
    assert (Hin : In n (filter (fun n => is_I (state sim' n))
                               (Nx.nodes (G sim')))).
    { apply filter_In. split; [exact Hn | now rewrite Hst]. }
    destruct (filter _ _); [contradiction | discriminate].
  - rewrite HS, HR. destruct (count_states sim') as [[s i] r].
    cbn [cS cI cR fst snd] in *. now subst i.
Qed.

End Stopped.

(** ** The returned number of added edges *)

Module NxAdd.
Import Nx NxFacts NxEdgeFacts NxCount.

Lemma degree_sum_app G0 G1 : degree_sum (G0 ++ G1) = degree_sum G0 + degree_sum G1.
Proof.
  unfold degree_sum. induction G0 as [|e G' IH]; cbn [app fold_right];
    [reflexivity | lia].
Qed.

Lemma degree_sum_add_node G0 u : degree_sum (add_node G0 u) = degree_sum G0.
Proof.
  unfold add_node. destruct (has_node G0 u); [reflexivity|].
  rewrite degree_sum_app. unfold degree_sum at 2. cbn. lia.
Qed.

Lemma length_add_key l v : length (add_key l v) <= length l + 1.
Proof.
  unfold add_key. destruct (mem v l); [lia|]. rewrite length_app. cbn. lia.
Qed.

Lemma degree_of_add_key u l v :
  degree_of u (add_key l v) + (if mem v l then 1 else 0)
                              * (if u =? v then 2 else 1)
  = degree_of u l + (if u =? v then 2 else 1).
Proof.
  unfold degree_of. rewrite mem_add_key. unfold add_key.
  destruct (mem v l) eqn:Ev.
  - destruct (Nat.eqb_spec u v) as [->|Hne].
    + rewrite Ev. cbn [orb]. lia.
    + rewrite orb_false_r. lia.
  - rewrite length_app. cbn [length].
    destruct (Nat.eqb_spec u v) as [->|Hne].
    + rewrite Ev. cbn [orb]. lia.
    + rewrite orb_false_r. lia.
Qed.

(** Adding an edge raises the sum of the degrees by at most two. *)
Lemma degree_sum_add_edge G0 a b : degree_sum (add_edge G0 a b) <= degree_sum G0 + 2.
Proof.
  unfold add_edge.
  set (G2 := add_node (add_node G0 a) b).
  assert (D2 : degree_sum G2 = degree_sum G0)
    by (unfold G2; now rewrite !degree_sum_add_node).
  assert (Ha : has_node G2 a = true).
  { unfold G2. rewrite !has_node_add_node, Nat.eqb_refl.
    now rewrite orb_true_r. }
  assert (Hb : has_node G2 b = true).
  { unfold G2. rewrite has_node_add_node, Nat.eqb_refl. apply orb_true_r. }
  set (G3 := set_adj G2 a (add_key (neighbors G2 a) b)).
  assert (Hb3 : has_node G3 b = true)
    by (unfold G3; now rewrite has_node_set_adj).
  pose proof (degree_sum_set_adj G2 a (add_key (neighbors G2 a) b) Ha) as E1.
  fold G3 in E1.
  pose proof (degree_sum_set_adj G3 b (add_key (neighbors G3 b) a) Hb3) as E2.
  pose proof (degree_of_add_key a (neighbors G2 a) b) as K1.
  pose proof (degree_of_add_key b (neighbors G3 b) a) as K2.
  destruct (Nat.eqb_spec a b) as [->|Hne].
  - rewrite Nat.eqb_refl in *.
    assert (Hm : mem b (neighbors G3 b) = true).
    { unfold G3. rewrite neighbors_set_adj, Ha, Nat.eqb_refl. cbn [andb].
      rewrite mem_add_key, Nat.eqb_refl. apply orb_true_r. }
    rewrite Hm in K2. destruct (mem b (neighbors G2 b)); lia.
  - assert (Hba : (b =? a) = false) by (apply Nat.eqb_neq; congruence).
    rewrite Hba in K2.
    destruct (mem b (neighbors G2 a)), (mem a (neighbors G3 b)); lia.
Qed.

Lemma degree_sum_add_edges_from es : forall G0,
    degree_sum (add_edges_from G0 es) <= degree_sum G0 + 2 * length es.
Proof.
  unfold add_edges_from.
  induction es as [|e es IH]; intro G0; cbn [fold_left length]; [lia|].
  specialize (IH (add_edge G0 (fst e) (snd e))).
  pose proof (degree_sum_add_edge G0 (fst e) (snd e)). lia.
Qed.

End NxAdd.

Section AddCount.

Context {R : Type} {RNG : PyRandom R} {SET : PySet}.

(** X28 (the returned number of added edges).  The second value returned by
    [adaptive_step] is the length of [edges_to_add], and the edge count of
    the graph it leaves exceeds that of the graph after Rule 1 by at most
    this value: the returned number never undercounts the added edges. *)
Theorem edges_added_bound (sim : Sim) (g : R) :
  let rw := fst (rewire sim g) in
  let out := fst (fst (adaptive_step sim g)) in
  let sim' := snd (fst (adaptive_step sim g)) in
  snd out = length (edges_to_add rw)
  /\ Nx.number_of_edges (G sim') <= Nx.number_of_edges (G_cut rw) + snd out.
Proof.
  intros rw out sim'. subst out sim'. unfold adaptive_step. subst rw.
  destruct (rewire sim g) as [rw g']. cbn [fst snd G with_G].
  split; [reflexivity|].
  rewrite !NxCount.number_of_edges_half.
  pose proof (NxAdd.degree_sum_add_edges_from (edges_to_add rw) (G_cut rw)) as H.
  rewrite <- (Nat.div_add _ _ 2) by lia.
  apply Nat.Div0.div_le_mono. lia.
Qed.

End AddCount.

(** ** The further properties on the reference runtime *)

#[local] Existing Instance lcg.
#[local] Existing Instance insertion_order.

(** [run_series_shape] on the path. *)
Lemma run_series_shape_witness :
  let max_steps := 10%Z in
  let track := true in
  let sim :=
    prepared path_graph (1 # 2) (1 # 5) (1 # 3) (1 # 4) (one_infected 0) in
  let g := 7%Z in
  (in_unit_interval (beta sim) = true)
  /\
  (exists sim' g' n,
     run max_steps track sim g = (Ok sim', g')
     /\ ts_t (time_series sim') = seq 0 n
     /\ length (ts_S (time_series sim')) = n
     /\ length (ts_I (time_series sim')) = n
     /\ length (ts_R (time_series sim')) = n
     /\ get_epidemic_duration sim' = n
     /\ n <= Z.to_nat max_steps
     /\ ((0 < max_steps)%Z ->
         0 < n
         /\ (nth 0 (ts_S (time_series sim')) 0, nth 0 (ts_I (time_series sim')) 0,
             nth 0 (ts_R (time_series sim')) 0) = count_states sim)
     /\ (forall j, j + 1 < n -> nth j (ts_I (time_series sim')) 0 <> 0)
     /\ (n < Z.to_nat max_steps -> last (ts_I (time_series sim')) 0 = 0)
     /\ length (avg_degree (network_metrics sim')) = (if track then n else 0)
     /\ length (clustering (network_metrics sim')) = (if track then n else 0)
     /\ length (num_edges (network_metrics sim')) = (if track then n else 0)
     /\ length (num_components (network_metrics sim'))
        = (if track then n else 0)).
Proof.
  intros max_steps track sim g.
  assert (H1 : in_unit_interval (beta sim) = true).
  { reflexivity. }
  split; [exact H1|].
  exact (run_series_shape max_steps track sim g H1).
Defined.

(** [run_without_infection] on the path, nobody infected. *)
Lemma run_without_infection_witness :
  let max_steps := 10%Z in
  let track := true in
  let sim :=
    prepared path_graph (1 # 2) (1 # 5) (1 # 3) 0 (fun _ => SUSCEPTIBLE) in
  let g := 7%Z in
  ((0 < max_steps)%Z)
  /\
  (cI (count_states sim) = 0)
  /\
  (exists sim',
     run max_steps track sim g = (Ok sim', g)
     /\ G sim' = G sim /\ state sim' = state sim
     /\ ts_t (time_series sim') = [0]
     /\ ts_S (time_series sim') = [cS (count_states sim)]
     /\ ts_I (time_series sim') = [0]
     /\ ts_R (time_series sim') = [cR (count_states sim)]).
Proof.
  intros max_steps track sim g.
  assert (H1 : (0 < max_steps)%Z).
  { reflexivity. }
  assert (H2 : cI (count_states sim) = 0).
  { reflexivity. }
  split; [exact H1|].
  split; [exact H2|].
  exact (run_without_infection max_steps track sim g H1 H2).
Defined.

(** [static_graph_run] on the path with α = μ = 0. *)
Lemma static_graph_run_witness :
  let max_steps := 10%Z in
  let track := true in
  let sim := prepared path_graph (1 # 2) (1 # 5) 0 0 (one_infected 0) in
  let g := 7%Z in
  (Qle_bool (alpha sim) 0 = true)
  /\
  (Qle_bool (mu sim) 0 = true)
  /\
  (exists sim' g',
     run max_steps track sim g = (Ok sim', g') /\ G sim' = G sim).
Proof.
  intros max_steps track sim g.
  assert (H1 : Qle_bool (alpha sim) 0 = true).
  { reflexivity. }
  assert (H2 : Qle_bool (mu sim) 0 = true).
  { reflexivity. }
  split; [exact H1|].
  split; [exact H2|].
  exact (static_graph_run max_steps track sim g H1 H2).
Defined.

(** [epidemic_step_counts] on the path. *)
Lemma epidemic_step_counts_witness :
  let sim := prepared path_graph (1 # 2) (1 # 5) 0 0 (one_infected 0) in
  let g := 7%Z in
  (distinct (Nx.nodes (G sim)) = true)
  /\
  (let out := fst (fst (epidemic_step sim g)) in
   let sim' := snd (fst (epidemic_step sim g)) in
   cS (count_states sim') + fst out = cS (count_states sim)
   /\ cR (count_states sim') = cR (count_states sim) + snd out
   /\ cI (count_states sim') + snd out = cI (count_states sim) + fst out
   /\ fst out <= cS (count_states sim)
   /\ snd out <= cI (count_states sim)).
Proof.
  intros sim g.
  assert (H1 : distinct (Nx.nodes (G sim)) = true).
  { reflexivity. }
  split; [exact H1|].
  exact (epidemic_step_counts sim g H1).
Defined.

(** [no_transmission_run] on the path with β = 0. *)
Lemma no_transmission_run_witness :
  let max_steps := 10%Z in
  let track := true in
  let sim := prepared path_graph 0 (1 # 5) (1 # 3) (1 # 4) (one_infected 0) in
  let g := 7%Z in
  ((beta sim == 0)%Q)
  /\
  (Nx.closed (G sim) = true)
  /\
  (exists sim' g',
     run max_steps track sim g = (Ok sim', g')
     /\ (forall n, state sim n = SUSCEPTIBLE -> state sim' n = SUSCEPTIBLE)
     /\ Forall (fun s => s = cS (count_states sim)) (ts_S (time_series sim'))).
Proof.
  intros max_steps track sim g.
  assert (H1 : (beta sim == 0)%Q).
  { reflexivity. }
  assert (H2 : Nx.closed (G sim) = true).
  { reflexivity. }
  split; [exact H1|].
  split; [exact H2|].
  exact (no_transmission_run max_steps track sim g H1 H2).
Defined.

(** [series_monotone] on the path. *)
Lemma series_monotone_witness :
  let max_steps := 10%Z in
  let track := true in
  let sim :=
    prepared path_graph (1 # 2) (1 # 5) (1 # 3) (1 # 4) (one_infected 0) in
  let g := 7%Z in
  (Nx.closed (G sim) = true)
  /\
  (exists sim' g',
     run max_steps track sim g = (Ok sim', g')
     /\ forall j, j + 1 < length (ts_t (time_series sim')) ->
                  nth (j + 1) (ts_S (time_series sim')) 0
                  <= nth j (ts_S (time_series sim')) 0
                  /\ nth j (ts_R (time_series sim')) 0
                     <= nth (j + 1) (ts_R (time_series sim')) 0).
Proof.
  intros max_steps track sim g.
  assert (H1 : Nx.closed (G sim) = true).
  { reflexivity. }
  split; [exact H1|].
  exact (series_monotone max_steps track sim g H1).
Defined.

(** [no_recovery_run] on the path with γ = 0. *)
Lemma no_recovery_run_witness :
  let max_steps := 10%Z in
  let track := true in
  let sim := prepared path_graph (1 # 2) 0 (1 # 3) (1 # 4) (one_infected 0) in
  let g := 7%Z in
  (in_unit_interval (beta sim) = true)
  /\
  (Qle_bool (gamma sim) 0 = true)
  /\
  (Nx.closed (G sim) = true)
  /\
  (cI (count_states sim) <> 0)
  /\
  (exists sim' g',
     run max_steps track sim g = (Ok sim', g')
     /\ length (ts_t (time_series sim')) = Z.to_nat max_steps
     /\ Forall (fun r => r = cR (count_states sim)) (ts_R (time_series sim'))
     /\ Forall (fun i => cI (count_states sim) <= i) (ts_I (time_series sim'))).
Proof.
  intros max_steps track sim g.
  assert (H1 : in_unit_interval (beta sim) = true).
  { reflexivity. }
  assert (H2 : Qle_bool (gamma sim) 0 = true).
  { reflexivity. }
  assert (H3 : Nx.closed (G sim) = true).
  { reflexivity. }
  assert (H4 : cI (count_states sim) <> 0).
  { vm_compute. lia. }
  split; [exact H1|].
  split; [exact H2|].
  split; [exact H3|].
  split; [exact H4|].
  exact (no_recovery_run max_steps track sim g H1 H2 H3 H4).
Defined.

(** [infection_needs_infected_neighbor] at node 1 of the path, with β = 1. *)
Lemma infection_needs_infected_neighbor_witness :
  let sim := prepared path_graph 1 0 0 0 (one_infected 0) in
  let g := 7%Z in
  let n := 1 in
  (state sim n = SUSCEPTIBLE)
  /\
  (state (snd (fst (epidemic_step sim g))) n = INFECTED)
  /\
  (In n (Nx.nodes (G sim))
   /\ exists m, In m (Nx.neighbors (G sim) n) /\ state sim m = INFECTED).
Proof.
  intros sim g n.
  assert (H1 : state sim n = SUSCEPTIBLE).
  { reflexivity. }
  assert (H2 : state (snd (fst (epidemic_step sim g))) n = INFECTED).
  { vm_compute. reflexivity. }
  split; [exact H1|].
  split; [exact H2|].
  exact (infection_needs_infected_neighbor sim g n H1 H2).
Defined.

(** [summary_after_run] on the path. *)
Lemma summary_after_run_witness :
  let max_steps := 10%Z in
  let track := true in
  let sim :=
    prepared path_graph (1 # 2) (1 # 5) (1 # 3) (1 # 4) (one_infected 0) in
  let g := 7%Z in
  (Nx.closed (G sim) = true)
  /\
  (N sim = Nx.number_of_nodes (G sim))
  /\
  (0 < N sim)
  /\
  ((0 < max_steps)%Z)
  /\
  (exists sim' g' q,
     run max_steps track sim g = (Ok sim', g')
     /\ 1 <= get_epidemic_duration sim' <= Z.to_nat max_steps
     /\ cI (count_states sim) <= get_peak_infected sim' <= N sim
     /\ get_final_size sim' = Ok q
     /\ q = (Z.of_nat (last (ts_R (time_series sim')) 0%nat)
              # Pos.of_nat (N sim))%Q
     /\ (0 <= q)%Q /\ (q <= 1)%Q).
Proof.
  intros max_steps track sim g.
  assert (H1 : Nx.closed (G sim) = true).
  { reflexivity. }
  assert (H2 : N sim = Nx.number_of_nodes (G sim)).
  { reflexivity. }
  assert (H3 : 0 < N sim).
  { vm_compute. lia. }
  assert (H4 : (0 < max_steps)%Z).
  { reflexivity. }
  split; [exact H1|].
  split; [exact H2|].
  split; [exact H3|].
  split; [exact H4|].
  exact (summary_after_run max_steps track sim g H1 H2 H3 H4).
Defined.

(** [final_size_empty_graph] with five steps allowed. *)
Lemma final_size_empty_graph_witness :
  let b := (1 # 2)%Q in
  let ga := (1 # 5)%Q in
  let a := (1 # 3)%Q in
  let m := (1 # 4)%Q in
  let st := fun _ : node => SUSCEPTIBLE in
  let max_steps := 5%Z in
  let track := true in
  let g := 7%Z in
  ((0 < max_steps)%Z)
  /\
  (exists sim',
     run max_steps track (prepared [] b ga a m st) g = (Ok sim', g)
     /\ get_epidemic_duration sim' = 1
     /\ get_peak_infected sim' = 0
     /\ get_final_size sim' = Raise ZeroDivisionError).
Proof.
  intros b ga a m st max_steps track g.
  assert (H1 : (0 < max_steps)%Z).
  { reflexivity. }
  split; [exact H1|].
  exact (final_size_empty_graph b ga a m st max_steps track g H1).
Defined.

(** [average_time_series_pads] on a series of two entries and one of one. *)
Lemma average_time_series_pads_witness :
  let all_series := 
    [{| ts_S := [3; 2]; ts_I := [1; 1]; ts_R := [0; 1]; ts_t := [0; 1] |};
     {| ts_S := [3]; ts_I := [0]; ts_R := [1]; ts_t := [0] |}] in
  let max_length := @None nat in
  (Forall recorded all_series)
  /\
  (match max_length with
     | Some m => Forall (fun ts => length (ts_t ts) <= m) all_series
     | None => all_series <> []
     end)
  /\
  (exists M rows,
     average_time_series all_series max_length = Ok (seq 0 M, rows)
     /\ match max_length with
        | Some m => M = m
        | None => exists ts, In ts all_series /\ length (ts_t ts) = M
        end
     /\ Forall (fun ts => length (ts_t ts) <= M) all_series
     /\ Forall2 (fun ts r => pads M (ts_S ts) (fst (fst r))
                             /\ pads M (ts_I ts) (snd (fst r))
                             /\ pads M (ts_R ts) (snd r))
                all_series rows).
Proof.
  intros all_series max_length.
  assert (H1 : Forall recorded all_series).
  { repeat constructor. }
  assert (H2 :
            match max_length with
              | Some m => Forall (fun ts => length (ts_t ts) <= m) all_series
              | None => all_series <> []
              end).
  { discriminate. }
  split; [exact H1|].
  split; [exact H2|].
  exact (average_time_series_pads all_series max_length H1 H2).
Defined.

(** [average_time_series_no_truncation]: one column, a series of two entries. *)
Lemma average_time_series_no_truncation_witness :
  let all_series := 
    [{| ts_S := [3; 2]; ts_I := [1; 1]; ts_R := [0; 1]; ts_t := [0; 1] |};
     {| ts_S := [3]; ts_I := [0]; ts_R := [1]; ts_t := [0] |}] in
  let m := 1 in
  let ts :=
    {| ts_S := [3; 2]; ts_I := [1; 1]; ts_R := [0; 1]; ts_t := [0; 1] |} in
  (Forall recorded all_series)
  /\
  (In ts all_series)
  /\
  (m < length (ts_t ts))
  /\
  (2 <= length (ts_t ts))
  /\
  (average_time_series all_series (Some m) = Raise ValueError).
Proof.
  intros all_series m ts.
  assert (H1 : Forall recorded all_series).
  { repeat constructor. }
  assert (H2 : In ts all_series).
  { now left. }
  assert (H3 : m < length (ts_t ts)).
  { vm_compute. lia. }
  assert (H4 : 2 <= length (ts_t ts)).
  { vm_compute. lia. }
  split; [exact H1|].
  split; [exact H2|].
  split; [exact H3|].
  split; [exact H4|].
  exact (average_time_series_no_truncation all_series m ts H1 H2 H3 H4).
Defined.

(** [run_multiple_returns] for three runs on the path. *)
Lemma run_multiple_returns_witness :
  let network_generator := fun _ : nat => path_graph in
  let b := (1 # 2)%Q in
  let ga := (1 # 5)%Q in
  let a := (1 # 3)%Q in
  let m := (1 # 4)%Q in
  let num_runs := 3 in
  let track_network := true in
  let g := 7%Z in
  (in_unit_interval b = true)
  /\
  ((forall k, k < num_runs ->
     Nx.closed (network_generator k) = true
     /\ Nx.nodes (network_generator k) <> []))
  /\
  ((Z.of_nat num_runs <= 4294968)%Z)
  /\
  (exists res g',
     run_multiple_asir_simulations network_generator b ga a m num_runs
                                   track_network g = (Ok res, g')
     /\ length (all_series res) = num_runs
     /\ Forall (fun ts => recorded ts /\ 1 <= length (ts_t ts) <= 500)
               (all_series res)
     /\ duration res = map (fun ts => length (ts_t ts)) (all_series res)
     /\ Forall2 (fun k p => 1 <= p <= Nx.number_of_nodes (network_generator k))
                (seq 0 num_runs) (peak_infected res)
     /\ length (final_size res) = num_runs
     /\ Forall (fun q => (0 <= q)%Q /\ (q <= 1)%Q) (final_size res)
     /\ match results_network_metrics res with
        | Some l => track_network = true /\ length l = num_runs
        | None => track_network = false
        end).
Proof.
  intros network_generator b ga a m num_runs track_network g.
  assert (H1 : in_unit_interval b = true).
  { reflexivity. }
  assert (H2 :
            (forall k, k < num_runs ->
              Nx.closed (network_generator k) = true
              /\ Nx.nodes (network_generator k) <> [])).
  { intros k _. split; [reflexivity | vm_compute; discriminate]. }
  assert (H3 : (Z.of_nat num_runs <= 4294968)%Z).
  { lia. }
  split; [exact H1|].
  split; [exact H2|].
  split; [exact H3|].
  exact (run_multiple_returns
           network_generator b ga a m num_runs track_network g H1 H2 H3).
Defined.

(** [run_multiple_first_failure] when the second generated graph has no node. *)
Lemma run_multiple_first_failure_witness :
  let network_generator := fun k : nat => if k =? 1 then [] else path_graph in
  let b := (1 # 2)%Q in
  let ga := (1 # 5)%Q in
  let a := (1 # 3)%Q in
  let m := (1 # 4)%Q in
  let num_runs := 3 in
  let track_network := true in
  let g := 7%Z in
  let k := 1 in
  (in_unit_interval b = true)
  /\
  (k < num_runs)
  /\
  ((forall j, j < k ->
     Nx.closed (network_generator j) = true
     /\ Nx.nodes (network_generator j) <> []
     /\ (Z.of_nat j <= 4294967)%Z))
  /\
  ((4294967 < Z.of_nat k)%Z \/ Nx.nodes (network_generator k) = [])
  /\
  (exists g',
     run_multiple_asir_simulations network_generator b ga a m num_runs
                                   track_network g
     = (Raise (if (Z.of_nat k <=? 4294967)%Z then IndexError else ValueError),
        g')).
Proof.
  intros network_generator b ga a m num_runs track_network g k.
  assert (H1 : in_unit_interval b = true).
  { reflexivity. }
  assert (H2 : k < num_runs).
  { lia. }
  assert (H3 :
            (forall j, j < k ->
              Nx.closed (network_generator j) = true
              /\ Nx.nodes (network_generator j) <> []
              /\ (Z.of_nat j <= 4294967)%Z)).
  { intros j Hj. assert (E : j = 0) by lia. subst j.
    split; [reflexivity|]. split; [vm_compute; discriminate | lia]. }
  assert (H4 :
            (4294967 < Z.of_nat k)%Z \/ Nx.nodes (network_generator k) = []).
  { right. reflexivity. }
  split; [exact H1|].
  split; [exact H2|].
  split; [exact H3|].
  split; [exact H4|].
  exact (run_multiple_first_failure
           network_generator b ga a m num_runs track_network g k H1 H2 H3 H4).
Defined.

(** [adaptive_step_isolates] on the path with α = 1. *)
Lemma adaptive_step_isolates_witness :
  let sim := prepared path_graph (1 # 2) (1 # 5) 1 (1 # 4) (one_infected 0) in
  let g := 7%Z in
  (Qle_bool 1 (alpha sim) = true)
  /\
  (symmetric (G sim) = true)
  /\
  (forall x y,
     Nx.has_edge (G (snd (fst (adaptive_step sim g)))) x y = true ->
     s_i_edge (state sim) x y = false).
Proof.
  intros sim g.
  assert (H1 : Qle_bool 1 (alpha sim) = true).
  { reflexivity. }
  assert (H2 : symmetric (G sim) = true).
  { reflexivity. }
  split; [exact H1|].
  split; [exact H2|].
  exact (adaptive_step_isolates sim g H1 H2).
Defined.

(** [full_isolation_run] on the path with α = 1. *)
Lemma full_isolation_run_witness :
  let max_steps := 10%Z in
  let track := true in
  let sim := prepared path_graph (1 # 2) (1 # 5) 1 (1 # 4) (one_infected 0) in
  let g := 7%Z in
  (Qle_bool 1 (alpha sim) = true)
  /\
  (symmetric (G sim) = true)
  /\
  (Nx.closed (G sim) = true)
  /\
  (exists sim' g',
     run max_steps track sim g = (Ok sim', g')
     /\ (forall n, state sim n = SUSCEPTIBLE -> state sim' n = SUSCEPTIBLE)
     /\ Forall (fun s => s = cS (count_states sim)) (ts_S (time_series sim'))
     /\ Forall (fun i => i <= cI (count_states sim)) (ts_I (time_series sim'))).
Proof.
  intros max_steps track sim g.
  assert (H1 : Qle_bool 1 (alpha sim) = true).
  { reflexivity. }
  assert (H2 : symmetric (G sim) = true).
  { reflexivity. }
  assert (H3 : Nx.closed (G sim) = true).
  { reflexivity. }
  split; [exact H1|].
  split; [exact H2|].
  split; [exact H3|].
  exact (full_isolation_run max_steps track sim g H1 H2 H3).
Defined.

(** [run_no_self_loop] on the path. *)
Lemma run_no_self_loop_witness :
  let max_steps := 10%Z in
  let track := true in
  let sim :=
    prepared path_graph (1 # 2) (1 # 5) (1 # 3) (1 # 4) (one_infected 0) in
  let g := 7%Z in
  (no_self_loops (G sim) = true)
  /\
  (exists sim' g',
     run max_steps track sim g = (Ok sim', g')
     /\ forall x, Nx.has_edge (G sim') x x = false).
Proof.
  intros max_steps track sim g.
  assert (H1 : no_self_loops (G sim) = true).
  { reflexivity. }
  split; [exact H1|].
  exact (run_no_self_loop max_steps track sim g H1).
Defined.

(** [initial_counts] on the path with seed 42. *)
Lemma initial_counts_witness :
  let graph := path_graph in
  let b := (1 # 2)%Q in
  let ga := (1 # 5)%Q in
  let a := (1 # 3)%Q in
  let m := (1 # 4)%Q in
  let seed := Some 42%Z in
  let g := 7%Z in
  (distinct (Nx.nodes graph) = true)
  /\
  (Nx.nodes graph <> [])
  /\
  ((forall s, seed = Some s -> numpy_seed_ok s = true))
  /\
  (exists sim0 g0 p sim1 g1,
     __init__ graph b ga a m seed g = (Ok sim0, g0)
     /\ count_states sim0 = (Nx.number_of_nodes graph, 0, 0)
     /\ infect_random_node sim0 g0 = (Ok (p, sim1), g1)
     /\ count_states sim1 = (Nx.number_of_nodes graph - 1, 1, 0)).
Proof.
  intros graph b ga a m seed g.
  assert (H1 : distinct (Nx.nodes graph) = true).
  { reflexivity. }
  assert (H2 : Nx.nodes graph <> []).
  { vm_compute. discriminate. }
  assert (H3 : (forall s, seed = Some s -> numpy_seed_ok s = true)).
  { intros s Hs. injection Hs as <-. reflexivity. }
  split; [exact H1|].
  split; [exact H2|].
  split; [exact H3|].
  exact (initial_counts graph b ga a m seed g H1 H2 H3).
Defined.

(** [certain_transmission_step] at node 1 of the path, next to node 0. *)
Lemma certain_transmission_step_witness :
  let sim := prepared path_graph 1 (1 # 5) 0 0 (one_infected 0) in
  let g := 7%Z in
  let n := 1 in
  ((beta sim == 1)%Q)
  /\
  (In n (Nx.nodes (G sim)))
  /\
  (state sim n = SUSCEPTIBLE)
  /\
  ((exists m, In m (Nx.neighbors (G sim) n) /\ state sim m = INFECTED))
  /\
  (state (snd (fst (epidemic_step sim g))) n = INFECTED).
Proof.
  intros sim g n.
  assert (H1 : (beta sim == 1)%Q).
  { reflexivity. }
  assert (H2 : In n (Nx.nodes (G sim))).
  { vm_compute. auto. }
  assert (H3 : state sim n = SUSCEPTIBLE).
  { reflexivity. }
  assert (H4 :
            (exists m, In m (Nx.neighbors (G sim) n) /\ state sim m = INFECTED)).
  { exists 0. split; [vm_compute; auto | reflexivity]. }
  split; [exact H1|].
  split; [exact H2|].
  split; [exact H3|].
  split; [exact H4|].
  exact (certain_transmission_step sim g n H1 H2 H3 H4).
Defined.

(** [certain_recovery_step] on the path with γ = 1. *)
Lemma certain_recovery_step_witness :
  let sim := prepared path_graph (1 # 2) 1 0 0 (one_infected 0) in
  let g := 7%Z in
  (Qle_bool 1 (gamma sim) = true)
  /\
  (let sim' := snd (fst (epidemic_step sim g)) in
   (forall n, In n (Nx.nodes (G sim)) -> state sim n = INFECTED ->
              state sim' n = RECOVERED)
   /\ cR (count_states sim') = cR (count_states sim) + cI (count_states sim)
   /\ cS (count_states sim') + cI (count_states sim') = cS (count_states sim)).
Proof.
  intros sim g.
  assert (H1 : Qle_bool 1 (gamma sim) = true).
  { reflexivity. }
  split; [exact H1|].
  exact (certain_recovery_step sim g H1).
Defined.

(** [certain_recovery_run] on the path with γ = 1. *)
Lemma certain_recovery_run_witness :
  let max_steps := 10%Z in
  let track := true in
  let sim := prepared path_graph (1 # 2) 1 0 0 (one_infected 0) in
  let g := 7%Z in
  (Qle_bool 1 (gamma sim) = true)
  /\
  (Nx.closed (G sim) = true)
  /\
  (exists sim' g',
     run max_steps track sim g = (Ok sim', g')
     /\ forall j, j + 1 < length (ts_t (time_series sim')) ->
                  nth (j + 1) (ts_R (time_series sim')) 0
                  = nth j (ts_R (time_series sim')) 0
                    + nth j (ts_I (time_series sim')) 0
                  /\ nth (j + 1) (ts_S (time_series sim')) 0
                     + nth (j + 1) (ts_I (time_series sim')) 0
                     = nth j (ts_S (time_series sim')) 0).
Proof.
  intros max_steps track sim g.
  assert (H1 : Qle_bool 1 (gamma sim) = true).
  { reflexivity. }
  assert (H2 : Nx.closed (G sim) = true).
  { reflexivity. }
  split; [exact H1|].
  split; [exact H2|].
  exact (certain_recovery_run max_steps track sim g H1 H2).
Defined.

(** [edges_cut_accurate] on the path with α = 1. *)
Lemma edges_cut_accurate_witness :
  let sim := prepared path_graph (1 # 2) (1 # 5) 1 0 (one_infected 0) in
  let g := 7%Z in
  (distinct (Nx.nodes (G sim)) = true)
  /\
  (adjacency_distinct (G sim) = true)
  /\
  (symmetric (G sim) = true)
  /\
  (let rw := fst (rewire sim g) in
   fst (fst (fst (adaptive_step sim g))) = length (edges_to_remove rw)
   /\ Nx.number_of_edges (G_cut rw) + fst (fst (fst (adaptive_step sim g)))
      = Nx.number_of_edges (G sim)).
Proof.
  intros sim g.
  assert (H1 : distinct (Nx.nodes (G sim)) = true).
  { reflexivity. }
  assert (H2 : adjacency_distinct (G sim) = true).
  { reflexivity. }
  assert (H3 : symmetric (G sim) = true).
  { reflexivity. }
  split; [exact H1|].
  split; [exact H2|].
  split; [exact H3|].
  exact (edges_cut_accurate sim g H1 H2 H3).
Defined.

(** [epidemic_over] on the path. *)
Lemma epidemic_over_witness :
  let max_steps := 10%Z in
  let track := true in
  let sim :=
    prepared path_graph (1 # 2) (1 # 5) (1 # 3) (1 # 4) (one_infected 0) in
  let g := 7%Z in
  (in_unit_interval (beta sim) = true)
  /\
  (exists sim' g',
     run max_steps track sim g = (Ok sim', g')
     /\ (get_epidemic_duration sim' < Z.to_nat max_steps ->
         (forall n, In n (Nx.nodes (G sim')) -> state sim' n <> INFECTED)
         /\ count_states sim'
            = (last (ts_S (time_series sim')) 0, 0,
               last (ts_R (time_series sim')) 0))).
Proof.
  intros max_steps track sim g.
  assert (H1 : in_unit_interval (beta sim) = true).
  { reflexivity. }
  split; [exact H1|].
  exact (epidemic_over max_steps track sim g H1).
Defined.

(** [run_without_steps] with [max_steps = 0]. *)
Lemma run_without_steps_witness :
  let max_steps := 0%Z in
  let track := true in
  let sim :=
    prepared path_graph (1 # 2) (1 # 5) (1 # 3) (1 # 4) (one_infected 0) in
  let g := 7%Z in
  ((max_steps <= 0)%Z)
  /\
  (exists sim',
     run max_steps track sim g = (Ok sim', g)
     /\ G sim' = G sim /\ state sim' = state sim
     /\ time_series sim' = empty_series
     /\ network_metrics sim' = empty_metrics
     /\ get_epidemic_duration sim' = 0
     /\ get_peak_infected sim' = 0
     /\ get_final_size sim' = Ok 0%Q).
Proof.
  intros max_steps track sim g.
  assert (H1 : (max_steps <= 0)%Z).
  { lia. }
  split; [exact H1|].
  exact (run_without_steps max_steps track sim g H1).
Defined.
